(** * svitlo_telegram_bot: the schedule engine of [scraper.py]

    A shallow embedding of the outage-schedule code (slot maps, interval
    derivation, next-outage search, fingerprint, raw-payload cache,
    [get_schedule]) and of the pure helpers of [bot.py] that show its result
    (the texts of the status card, the keyboards, the reading of callback
    data), and the properties proved about them.

    Modelling conventions.
    - Every [datetime] the module builds carries the same [tzinfo] (the
      configured [TZ]).  Python compares, subtracts and shifts such values on
      their wall-clock fields only, so a [datetime] is its wall-clock
      microsecond count: [ordinal * 86400e6 + microseconds of the day], where
      [ordinal] is the proleptic Gregorian day number (0001-01-01 is day 1).
    - A [timedelta] is a microsecond count.
    - A Python [dict] with [str] keys is a [gmap string _]; only [get],
      item assignment and iteration that rebuilds a dict are used by the code.
    - A [str] is the string of its UTF-8 bytes.
    - A raised exception is the [Raise] case of [result].
    - [timedelta.total_seconds()] and [time.time()] are floats in Python;
      they are held here as exact counts (microseconds, clock ticks), which
      is what the floor divisions and comparisons of the code compute on. *)

From Stdlib Require Import ZArith Lia List Ascii String DecimalString DecimalZ DecimalPos.
From stdpp Require Import base tactics option list strings gmap sorting.

Local Open Scope Z_scope.

(** * The program *)

(** ** Exceptions and results *)

(** The exception classes the code raises or lets through.  [ValueError]
    is the one raised for a missing region; [JSONDecodeError]
    ([json.JSONDecodeError]) derives from it: see [isinstance_ValueError]. *)
Inductive exn :=
  | ValueError
  | TypeError
  | AttributeError
  | OverflowError
  | TimeoutError
  | ClientResponseError (status : Z)
  | JSONDecodeError.

Inductive result (A : Type) :=
  | Ok (a : A)
  | Raise (e : exn).
Arguments Ok {A} a.
Arguments Raise {A} e.

Global Instance result_ret : MRet result := fun A a => Ok a.
Global Instance result_bind : MBind result := fun A B f m =>
  match m with
  | Ok a => f a
  | Raise e => Raise e
  end.

(** [isinstance(e, ValueError)], which is what [except ValueError] catches.
    [json.JSONDecodeError] derives from [ValueError]; [TypeError],
    [AttributeError], [OverflowError] (an [ArithmeticError]), [TimeoutError]
    (an [OSError]) and aiohttp's [ClientResponseError] do not. *)
Definition isinstance_ValueError (e : exn) : bool :=
  match e with
  | ValueError | JSONDecodeError => true
  | _ => false
  end.

(** ** Wall-clock time *)

Definition datetime := Z.
Definition timedelta := Z.

Definition US_PER_SECOND : Z := 1000000.
Definition US_PER_MINUTE : Z := 60 * US_PER_SECOND.
Definition US_PER_HOUR : Z := 60 * US_PER_MINUTE.
Definition US_PER_DAY : Z := 24 * US_PER_HOUR.

(** [HALF_HOUR = timedelta(minutes=30)] and [timedelta(days=1)]. *)
Definition HALF_HOUR : timedelta := 30 * US_PER_MINUTE.
Definition ONE_DAY : timedelta := US_PER_DAY.

(** [datetime.min] is 0001-01-01T00:00 (ordinal 1); [datetime.max] is
    9999-12-31T23:59:59.999999 (ordinal 3652059). *)
Definition MINORDINAL : Z := 1.
Definition MAXORDINAL : Z := 3652059.

Definition dt_in_range (d : Z) : bool :=
  bool_decide (MINORDINAL * US_PER_DAY <= d < (MAXORDINAL + 1) * US_PER_DAY).

(** [dt + td]: out of the representable years it raises [OverflowError]. *)
Definition dt_add (d : datetime) (td : timedelta) : result datetime :=
  if dt_in_range (d + td) then Ok (d + td) else Raise OverflowError.

Definition dt_hour (d : datetime) : Z := (d / US_PER_HOUR) mod 24.
Definition dt_minute (d : datetime) : Z := (d / US_PER_MINUTE) mod 60.

(** [dt.replace(minute=m, second=0, microsecond=0)]: date and hour kept. *)
Definition dt_replace_minute (d : datetime) (m : Z) : datetime :=
  d - d mod US_PER_HOUR + m * US_PER_MINUTE.

(** *** Calendar: year, month, day to ordinal (as CPython's [_ymd2ord]) *)

Definition is_leap (y : Z) : bool :=
  bool_decide (y mod 4 = 0) && (negb (bool_decide (y mod 100 = 0)) || bool_decide (y mod 400 = 0)).

Definition days_before_year (year : Z) : Z :=
  let y := year - 1 in y * 365 + y / 4 - y / 100 + y / 400.

Definition days_in_month (year month : Z) : Z :=
  if bool_decide (month = 2) then (if is_leap year then 29 else 28)
  else if bool_decide (month = 4 \/ month = 6 \/ month = 9 \/ month = 11) then 30
  else 31.

Fixpoint days_before_month_aux (year : Z) (k : nat) : Z :=
  match k with
  | O => 0
  | S k' => days_before_month_aux year k' + days_in_month year (Z.of_nat k)
  end.

Definition days_before_month (year month : Z) : Z :=
  days_before_month_aux year (Z.to_nat (month - 1)).

Definition ymd2ord (year month day : Z) : Z :=
  days_before_year year + days_before_month year month + day.

(** *** [datetime.strptime(date_str, "%Y-%m-%d")]

    The format compiles to the regular expression
    [(\d\d\d\d)-(1[0-2]|0[1-9]|[1-9])-(3[01]|[12]\d|0[1-9]|[1-9]| [1-9])]
    matched at the start of the string; the whole string must be consumed.
    Digits are the ASCII ones here. *)

Definition digit_of (a : ascii) : option Z :=
  let n := Z.of_nat (nat_of_ascii a) in
  if bool_decide (48 <= n <= 57) then Some (n - 48) else None.

Definition is_char (c : ascii) (a : ascii) : bool := bool_decide (a = c).

(** The alternatives of [%m], in the order the pattern tries them. *)
Definition match_month (s : list ascii) : list (Z * list ascii) :=
  (match s with
   | a :: b :: r =>
       match digit_of a, digit_of b with
       | Some 1, Some y => if bool_decide (y <= 2) then [(10 + y, r)] else []
       | Some 0, Some y => if bool_decide (1 <= y) then [(y, r)] else []
       | _, _ => []
       end
   | _ => []
   end) ++
  (match s with
   | a :: r =>
       match digit_of a with
       | Some x => if bool_decide (1 <= x) then [(x, r)] else []
       | None => []
       end
   | [] => []
   end).

(** The first alternative of [%d] that matches. *)
Definition match_day (s : list ascii) : option (Z * list ascii) :=
  let two :=
    match s with
    | a :: b :: r =>
        match digit_of a, digit_of b with
        | Some 3, Some y => if bool_decide (y <= 1) then Some (30 + y, r) else None
        | Some 0, Some y => if bool_decide (1 <= y) then Some (y, r) else None
        | Some x, Some y => if bool_decide (x <= 2) then Some (10 * x + y, r) else None
        | None, Some y =>
            if is_char " "%char a && bool_decide (1 <= y) then Some (y, r) else None
        | _, None => None
        end
    | _ => None
    end in
  match two with
  | Some m => Some m
  | None =>
      match s with
      | a :: r =>
          match digit_of a with
          | Some x => if bool_decide (1 <= x) then Some (x, r) else None
          | None => None
          end
      | [] => None
      end
  end.

Definition match_year (s : list ascii) : option (Z * list ascii) :=
  match s with
  | a :: b :: c :: d :: r =>
      match digit_of a, digit_of b, digit_of c, digit_of d with
      | Some x3, Some x2, Some x1, Some x0 =>
          Some (1000 * x3 + 100 * x2 + 10 * x1 + x0, r)
      | _, _, _, _ => None
      end
  | _ => None
  end.

Definition expect_dash (s : list ascii) : option (list ascii) :=
  match s with
  | a :: r => if is_char "-"%char a then Some r else None
  | [] => None
  end.

(** Month alternatives are tried in order until the rest of the pattern
    matches; text left over after the match is "unconverted data". *)
Fixpoint match_month_day (cands : list (Z * list ascii)) : option (Z * Z * list ascii) :=
  match cands with
  | [] => None
  | (m, r) :: cands' =>
      match expect_dash r ≫= match_day with
      | Some (d, r') => Some (m, d, r')
      | None => match_month_day cands'
      end
  end.

Definition strptime_ymd (date_str : string) : option (Z * Z * Z) :=
  '(y, r) ← match_year (list_ascii_of_string date_str);
  r ← expect_dash r;
  '(m, d, r) ← match_month_day (match_month r);
  match r with
  | [] => Some (y, m, d)
  | _ :: _ => None
  end.

Definition valid_ymd (y m d : Z) : bool :=
  bool_decide (1 <= y <= 9999) && bool_decide (1 <= m <= 12)
  && bool_decide (1 <= d <= days_in_month y m).

(** [_date_to_dt]: midnight of the date, in [TZ]. *)
Definition date_to_dt (date_str : string) : result datetime :=
  match strptime_ymd date_str with
  | Some (y, m, d) =>
      if valid_ymd y m d then Ok (ymd2ord y m d * US_PER_DAY) else Raise ValueError
  | None => Raise ValueError
  end.

(** The instant [h:mi:s.us] of the day that starts at [day_start]. *)
Definition at_time (day_start : datetime) (h mi s us : Z) : datetime :=
  day_start + h * US_PER_HOUR + mi * US_PER_MINUTE + s * US_PER_SECOND + us.

(** ** Slot keys *)

(** [str(n)] for an [int]: decimal digits, ["-"] in front of a negative. *)
Definition py_str_int (n : Z) : string := NilZero.string_of_int (Z.to_int n).

(** The format [{n:02d}]: zero-padded to two characters. *)
Definition fmt_02d (n : Z) : string :=
  let s := py_str_int n in
  if bool_decide (String.length s < 2)%nat then String "0" s else s.

(** [_time_str_from_dt]. *)
Definition time_str_from_dt (dt : datetime) : string :=
  fmt_02d (dt_hour dt) +:+ ":" +:+ fmt_02d (dt_minute dt).

(** [_round_down_to_half_hour]. *)
Definition round_down_to_half_hour (dt : datetime) : datetime :=
  let minute := if bool_decide (dt_minute dt < 30) then 0 else 30 in
  dt_replace_minute dt minute.

(** [_iter_half_hours]: the loop
    [while cur < end: times.append(cur); cur += HALF_HOUR].
    The stride is constant, so the number of passes is known before the
    loop starts; that number is the recursion bound. *)
Fixpoint half_hours_loop (passes : nat) (cur end_ : datetime) (times : list datetime)
  : result (list datetime) :=
  match passes with
  | O => Ok times
  | S passes' =>
      if bool_decide (cur < end_) then
        cur' ← dt_add cur HALF_HOUR;
        half_hours_loop passes' cur' end_ (times ++ [cur])
      else Ok times
  end.

Definition passes_needed (cur end_ : datetime) : nat :=
  Z.to_nat ((end_ - cur + HALF_HOUR - 1) / HALF_HOUR).

Definition iter_half_hours (day_start : datetime) : result (list datetime) :=
  end_ ← dt_add day_start ONE_DAY;
  half_hours_loop (passes_needed day_start end_) day_start end_ [].

(** ** Slot maps and intervals *)

(** [int(slots.get(key, 1))]: the values of a slot map are already [int]. *)
Definition slot_status (slots : gmap string Z) (key : string) : Z :=
  default 1 (slots !! key).

Record Interval := { start : datetime; end_ : datetime }.

Record walk_state := {
  intervals : list Interval;
  in_off : bool;
  off_start : option datetime
}.

(** [intervals.append(Interval(start=off_start, end=e))].  [off_start] is
    [None] only while [in_off] is false ([state_tracks] holds along the
    walk), so the [None] case is never taken: see [walk_day_spec]. *)
Definition append_interval (ivs : list Interval) (s : option datetime) (e : datetime)
  : result (list Interval) :=
  match s with
  | Some s => Ok (ivs ++ [{| start := s; end_ := e |}])
  | None => Raise TypeError
  end.

(** One pass of the loop of [_slots_to_off_intervals], at index [i] and
    boundary [t]; [len] is [len(times)]. *)
Definition walk_step (slots : gmap string Z) (day_start : datetime) (len : nat)
    (i : nat) (t : datetime) (st : walk_state) : result walk_state :=
  let key := time_str_from_dt t in
  let status := slot_status slots key in
  let is_off := bool_decide (status = 2) in
  let st1 :=
    if is_off && negb (in_off st)
    then {| intervals := intervals st; in_off := true; off_start := Some t |}
    else st in
  st2 ←
    (if negb is_off && in_off st1
     then ivs ← append_interval (intervals st1) (off_start st1) t;
          Ok {| intervals := ivs; in_off := false; off_start := None |}
     else Ok st1);
  if bool_decide (i = (len - 1)%nat) && in_off st2
  then day_end ← dt_add day_start ONE_DAY;
       ivs ← append_interval (intervals st2) (off_start st2) day_end;
       Ok {| intervals := ivs; in_off := in_off st2; off_start := off_start st2 |}
  else Ok st2.

(** [for i, t in enumerate(times)]. *)
Fixpoint walk (slots : gmap string Z) (day_start : datetime) (len : nat)
    (its : list (nat * datetime)) (st : walk_state) : result walk_state :=
  match its with
  | [] => Ok st
  | (i, t) :: its' =>
      st' ← walk_step slots day_start len i t st;
      walk slots day_start len its' st'
  end.

Definition enumerate {A} (l : list A) : list (nat * A) := zip (seq 0 (length l)) l.

Definition walk_init : walk_state :=
  {| intervals := []; in_off := false; off_start := None |}.

(** The state in which the loop of [_slots_to_off_intervals] ends. *)
Definition walk_day (date_str : string) (slots : gmap string Z) : result walk_state :=
  day_start ← date_to_dt date_str;
  times ← iter_half_hours day_start;
  walk slots day_start (length times) (enumerate times) walk_init.

(** [_slots_to_off_intervals]. *)
Definition slots_to_off_intervals (date_str : string) (slots : gmap string Z)
  : result (list Interval) :=
  st ← walk_day date_str slots;
  Ok (intervals st).

(** [_total_minutes].  [total_seconds()] is the microsecond count divided by
    [10**6]; floor division by 60 of that quotient is floor division of the
    microsecond count by [60 * 10**6]. *)
Definition interval_minutes (it : Interval) : Z := (end_ it - start it) / US_PER_MINUTE.

Definition total_minutes (ivs : list Interval) : Z :=
  fold_left (fun total it => total + interval_minutes it) ivs 0.

(** ** Schedule evaluation *)

(** [sorted(l, key=lambda x: x.start)]: a stable sort on the start. *)
Fixpoint insert_by_start (x : Interval) (l : list Interval) : list Interval :=
  match l with
  | [] => [x]
  | y :: l' =>
      if bool_decide (start x <= start y) then x :: y :: l'
      else y :: insert_by_start x l'
  end.

Definition sorted_by_start (l : list Interval) : list Interval :=
  foldr insert_by_start [] l.

(** The loop of [_find_next_outage]. *)
Fixpoint first_start_after (now : datetime) (l : list Interval) : option datetime :=
  match l with
  | [] => None
  | it :: l' => if bool_decide (start it > now) then Some (start it) else first_start_after now l'
  end.

(** [_find_next_outage]. *)
Definition find_next_outage (now : datetime) (today_off tomorrow_off : list Interval)
  : option datetime :=
  let all_intervals := sorted_by_start (today_off ++ tomorrow_off) in
  first_start_after now all_intervals.

(** [_is_now_has_power].  The chained comparison
    [today_start <= now_rounded < today_start + timedelta(days=1)] computes
    its right end only when the left comparison holds. *)
Definition is_now_has_power (now : datetime) (date_today : string) (slots_today : gmap string Z)
  : result bool :=
  let now_rounded := round_down_to_half_hour now in
  today_start ← date_to_dt date_today;
  in_day ←
    (if bool_decide (today_start <= now_rounded)
     then day_end ← dt_add today_start ONE_DAY; Ok (bool_decide (now_rounded < day_end))
     else Ok false);
  if negb in_day then Ok true
  else
    let key := time_str_from_dt now_rounded in
    let status := slot_status slots_today key in
    Ok (bool_decide (status = 1)).

(** *** Floats

    [timedelta.total_seconds()] is a [float]: the microsecond count divided
    by [10**6], correctly rounded.  A finite float is held as [m * 2 ^ e];
    rounding is to the nearest float of 53 bits, ties to the even one.  Two
    datetimes are less than 3.2e11 seconds apart, so the quotients and sums
    of the code stay far from the ends of the exponent range, where floats
    lose precision or overflow; those ends are not modelled. *)
Record float64 := { mant : Z; expo : Z }.

(** [n / d] rounded to the nearest integer, a tie to the even one. *)
Definition round_half_even (n d : Z) : Z :=
  let q := n / d in
  let r := n mod d in
  if bool_decide (2 * r < d) then q
  else if bool_decide (d < 2 * r) then q + 1
  else if Z.even q then q else q + 1.

(** Numerator and denominator of [num / den / 2 ^ e]. *)
Definition scaled_num (num e : Z) : Z := if bool_decide (0 <= e) then num else num * 2 ^ (- e).
Definition scaled_den (den e : Z) : Z := if bool_decide (0 <= e) then den * 2 ^ e else den.

(** The exponent at which a positive [num / den] has an integer part of 53
    bits: [2 ^ 52 <= num / den / 2 ^ e < 2 ^ 53]. *)
Definition binade (num den : Z) : Z :=
  let e := Z.log2 num - Z.log2 den - 52 in
  if bool_decide (2 ^ 52 * scaled_den den e <= scaled_num num e) then e else e - 1.

(** The float nearest to [num / den], for a positive [den]. *)
Definition round_ratio (num den : Z) : float64 :=
  if bool_decide (num = 0) then {| mant := 0; expo := 0 |}
  else
    let e := binade (Z.abs num) den in
    let m := round_half_even (scaled_num (Z.abs num) e) (scaled_den den e) in
    {| mant := Z.sgn num * m; expo := e |}.

(** [float(n)] for a small [int], and [td.total_seconds()]. *)
Definition float_of_int (n : Z) : float64 := {| mant := n; expo := 0 |}.

Definition total_seconds (td : timedelta) : float64 := round_ratio td US_PER_SECOND.

(** [x + y]: the exact sum, rounded. *)
Definition float_add (x y : float64) : float64 :=
  let e := Z.min (expo x) (expo y) in
  let sum := mant x * 2 ^ (expo x - e) + mant y * 2 ^ (expo y - e) in
  if bool_decide (0 <= e) then round_ratio (sum * 2 ^ e) 1 else round_ratio sum (2 ^ (- e)).

(** [int(x // k)] for a positive integer [k].  CPython computes the
    quotient from [fmod(x, k)], which is exact, as [(x - mod) / k]; below
    [2 ** 53] the difference and its quotient are exact too, so the result
    is the floor of the exact quotient. *)
Definition float_floordiv (x : float64) (k : Z) : Z :=
  if bool_decide (0 <= expo x) then (mant x * 2 ^ expo x) / k
  else mant x / (k * 2 ^ (- expo x)).

(** The minutes-until computation of [get_schedule]:
    [int(((next_outage_start - now).total_seconds() + 59) // 60)], then
    [max(delta_min, 0)]. *)
Definition delta_min (next_outage_start now : datetime) : Z :=
  float_floordiv (float_add (total_seconds (next_outage_start - now)) (float_of_int 59)) 60.

Definition next_outage_in_minutes (next_outage_start : option datetime) (now : datetime)
  : option Z :=
  match next_outage_start with
  | Some s => Some (Z.max (delta_min s now) 0)
  | None => None
  end.

(** ** Change fingerprint *)

(** SHA-256 (FIPS 180-4) on 32-bit words held in [Z]. *)
Definition WORD : Z := 2 ^ 32.
Definition add32 (a b : Z) : Z := (a + b) mod WORD.
Definition rotr (n x : Z) : Z := Z.lor (Z.shiftr x n) (Z.shiftl x (32 - n) mod WORD).
Definition not32 (x : Z) : Z := Z.lxor x (WORD - 1).
Definition Ch (x y z : Z) : Z := Z.lxor (Z.land x y) (Z.land (not32 x) z).
Definition Maj (x y z : Z) : Z := Z.lxor (Z.lxor (Z.land x y) (Z.land x z)) (Z.land y z).
Definition Sigma0 (x : Z) : Z := Z.lxor (Z.lxor (rotr 2 x) (rotr 13 x)) (rotr 22 x).
Definition Sigma1 (x : Z) : Z := Z.lxor (Z.lxor (rotr 6 x) (rotr 11 x)) (rotr 25 x).
Definition sigma0 (x : Z) : Z := Z.lxor (Z.lxor (rotr 7 x) (rotr 18 x)) (Z.shiftr x 3).
Definition sigma1 (x : Z) : Z := Z.lxor (Z.lxor (rotr 17 x) (rotr 19 x)) (Z.shiftr x 10).

(** The first 64 primes. *)
Definition first_primes : list Z :=
  [2; 3; 5; 7; 11; 13; 17; 19; 23; 29; 31; 37; 41; 43; 47; 53; 59; 61; 67; 71; 73; 79;
   83; 89; 97; 101; 103; 107; 109; 113; 127; 131; 137; 139; 149; 151; 157; 163; 167;
   173; 179; 181; 191; 193; 197; 199; 211; 223; 227; 229; 233; 239; 241; 251; 257; 263;
   269; 271; 277; 281; 283; 293; 307; 311].

(** Integer cube root, bit by bit. *)
Fixpoint cube_root_bits (n : nat) (x acc : Z) : Z :=
  match n with
  | O => acc
  | S n' =>
      let c := acc + 2 ^ Z.of_nat n' in
      cube_root_bits n' x (if bool_decide (c * c * c <= x) then c else acc)
  end.

(** The first 32 bits of the fractional parts of the square roots (initial
    state) and cube roots (round constants) of the first primes. *)
Definition frac_sqrt32 (p : Z) : Z := Z.sqrt (p * 2 ^ 64) mod WORD.
Definition frac_cbrt32 (p : Z) : Z := cube_root_bits 40 (p * 2 ^ 96) 0 mod WORD.

Definition K256 : list Z := Eval vm_compute in map frac_cbrt32 first_primes.
Definition H256 : list Z := Eval vm_compute in map frac_sqrt32 (take 8 first_primes).

(** [s.encode("utf-8")]: a string is held as its bytes. *)
Definition bytes_of_string (s : string) : list Z :=
  map (fun a => Z.of_nat (nat_of_ascii a)) (list_ascii_of_string s).

(** The [n] low bytes of [x], most significant first. *)
Definition be_bytes (n : nat) (x : Z) : list Z :=
  map (fun i => Z.shiftr x (8 * Z.of_nat (n - 1 - i)) mod 256) (seq 0 n).

(** Padding: a one bit, zeros, and the bit length on 8 bytes, up to a
    multiple of 64 bytes. *)
Definition sha_pad (msg : list Z) : list Z :=
  let len := Z.of_nat (length msg) in
  msg ++ [128] ++ replicate (Z.to_nat ((55 - len) mod 64)) 0 ++ be_bytes 8 (8 * len).

(** The first [count] chunks of [n] elements. *)
Fixpoint split_every (n count : nat) (l : list Z) : list (list Z) :=
  match count with
  | O => []
  | S count' => take n l :: split_every n count' (drop n l)
  end.

(** The sixteen big-endian words of a block. *)
Definition be_word (bs : list Z) : Z := fold_left (fun acc b => acc * 256 + b) bs 0.

Definition block_words (block : list Z) : list Z :=
  map be_word (split_every 4 16 block).

(** The message schedule, latest word first while it is extended. *)
Fixpoint extend_schedule (n : nat) (rw : list Z) : list Z :=
  match n with
  | O => rw
  | S n' =>
      let w := add32 (add32 (sigma1 (nth 1 rw 0)) (nth 6 rw 0))
                     (add32 (sigma0 (nth 14 rw 0)) (nth 15 rw 0)) in
      extend_schedule n' (w :: rw)
  end.

Definition schedule (block : list Z) : list Z :=
  rev (extend_schedule 48 (rev (block_words block))).

(** The eight working words, one round, and the compression of a block. *)
Definition sha_state : Type := Z * Z * Z * Z * Z * Z * Z * Z.

Definition sha_round (st : sha_state) (kw : Z * Z) : sha_state :=
  let '(a, b, c, d, e, f, g, h) := st in
  let t1 := add32 (add32 (add32 h (Sigma1 e)) (add32 (Ch e f g) kw.1)) kw.2 in
  let t2 := add32 (Sigma0 a) (Maj a b c) in
  (add32 t1 t2, a, b, c, add32 d t1, e, f, g).

Definition compress (st : sha_state) (block : list Z) : sha_state :=
  let '(a, b, c, d, e, f, g, h) := fold_left sha_round (zip K256 (schedule block)) st in
  let '(a0, b0, c0, d0, e0, f0, g0, h0) := st in
  (add32 a0 a, add32 b0 b, add32 c0 c, add32 d0 d,
   add32 e0 e, add32 f0 f, add32 g0 g, add32 h0 h).

Definition sha_init : sha_state :=
  match H256 with
  | [a; b; c; d; e; f; g; h] => (a, b, c, d, e, f, g, h)
  | _ => (0, 0, 0, 0, 0, 0, 0, 0)
  end.

Definition sha256_state (msg : list Z) : sha_state :=
  let padded := sha_pad msg in
  fold_left compress (split_every 64 (length padded / 64) padded) sha_init.

(** The digest as a 256-bit number. *)
Definition digest_number (st : sha_state) : Z :=
  let '(a, b, c, d, e, f, g, h) := st in
  ((((((a * WORD + b) * WORD + c) * WORD + d) * WORD + e) * WORD + f) * WORD + g) * WORD + h.

Definition sha256 (msg : list Z) : Z := digest_number (sha256_state msg).

Definition hex_digit (n : Z) : ascii :=
  ascii_of_nat (Z.to_nat (if bool_decide (n < 10) then 48 + n else 87 + n)).

(** [n] lower-case hexadecimal digits of [x], most significant first. *)
Fixpoint hex_fixed (n : nat) (x : Z) : string :=
  match n with
  | O => EmptyString
  | S n' => String (hex_digit (Z.shiftr x (4 * Z.of_nat n') mod 16)) (hex_fixed n' x)
  end.

(** [hashlib.sha256(data).hexdigest()]. *)
Definition sha256_hexdigest (data : list Z) : string := hex_fixed 64 (sha256 data).

(** [sep.join(parts)]. *)
Fixpoint join (sep : string) (parts : list string) : string :=
  match parts with
  | [] => ""
  | p :: rest =>
      match rest with
      | [] => p
      | _ :: _ => p +:+ sep +:+ join sep rest
      end
  end.

(** The text [f"{date_str} {key}="] in front of a slot's status. *)
Definition slot_prefix (date_str : string) (t : datetime) : string :=
  date_str +:+ " " +:+ time_str_from_dt t +:+ "=".

(** One part of the normalized text: [f"{date_str} {key}={status}"]. *)
Definition slot_part (date_str : string) (slots : gmap string Z) (t : datetime) : string :=
  slot_prefix date_str t +:+ py_str_int (slot_status slots (time_str_from_dt t)).

(** [_slots_normalized_for_hash]. *)
Definition slots_normalized_for_hash (date_str : string) (slots : gmap string Z)
  : result string :=
  day_start ← date_to_dt date_str;
  times ← iter_half_hours day_start;
  Ok (join "|" (map (slot_part date_str slots) times)).

(** The text that [_hash_schedule] hashes. *)
Definition schedule_text (date_today : string) (slots_today : gmap string Z)
    (date_tomorrow : string) (slots_tomorrow : gmap string Z) : result string :=
  today ← slots_normalized_for_hash date_today slots_today;
  tomorrow ← slots_normalized_for_hash date_tomorrow slots_tomorrow;
  Ok (today +:+ "||" +:+ tomorrow).

(** [_hash_schedule]. *)
Definition hash_schedule (date_today : string) (slots_today : gmap string Z)
    (date_tomorrow : string) (slots_tomorrow : gmap string Z) : result string :=
  s ← schedule_text date_today slots_today date_tomorrow slots_tomorrow;
  Ok (sha256_hexdigest (bytes_of_string s)).

(** ** The payload and slot extraction *)

(** A Python [float]: a finite value [m * 2 ^ e], a NaN or an infinity. *)
Inductive pyfloat :=
  | FFinite (m e : Z)
  | FNaN
  | FInf (negative : bool).

(** A value of the decoded JSON document. *)
#[local] Unset Elimination Schemes.
Inductive json :=
  | JNull
  | JBool (b : bool)
  | JInt (n : Z)
  | JFloat (f : pyfloat)
  | JStr (s : string)
  | JList (l : list json)
  | JDict (d : gmap string json).
#[local] Set Elimination Schemes.

(** Truth value of an object, as [or] tests it. *)
Definition truthy (v : json) : bool :=
  match v with
  | JNull => false
  | JBool b => b
  | JInt n => negb (bool_decide (n = 0))
  | JFloat (FFinite m _) => negb (bool_decide (m = 0))
  | JFloat _ => true
  | JStr s => negb (bool_decide (s = ""%string))
  | JList l => match l with [] => false | _ :: _ => true end
  | JDict d => match map_to_list d with [] => false | _ :: _ => true end
  end.

(** [v or {}]. *)
Definition or_empty_dict (v : json) : json := if truthy v then v else JDict ∅.

(** [v.get(key, dflt)]: only a dict has the method. *)
Definition json_get (v : json) (key : string) (dflt : json) : result json :=
  match v with
  | JDict d => Ok (default dflt (d !! key))
  | _ => Raise AttributeError
  end.

(** The values [for r in v] runs through: the elements of a list, the keys
    of a dict, the characters of a string; nothing else is iterable. *)
Definition json_iter (v : json) : result (list json) :=
  match v with
  | JList l => Ok l
  | JDict d => Ok (map (fun kv => JStr kv.1) (map_to_list d))
  | JStr s => Ok (map (fun c => JStr (String c "")) (list_ascii_of_string s))
  | _ => Raise TypeError
  end.

(** [v == s] for a [str] [s]. *)
Definition json_eq_str (v : json) (s : string) : bool :=
  match v with
  | JStr s' => bool_decide (s' = s)
  | _ => false
  end.

(** The loop of [_extract_region_block]. *)
Fixpoint find_region (regions : list json) (region_cpu : string) : result json :=
  match regions with
  | [] => Raise ValueError
  | r :: regions' =>
      cpu ← json_get r "cpu" JNull;
      if json_eq_str cpu region_cpu then Ok r else find_region regions' region_cpu
  end.

(** [_extract_region_block]. *)
Definition extract_region_block (payload : json) (region_cpu : string) : result json :=
  regions ← json_get payload "regions" (JList []);
  rs ← json_iter regions;
  find_region rs region_cpu.

(** *** [int(s)] for a [str]

    CPython first rewrites the text to ASCII: a character above 127 that
    is white space becomes a blank, one with a decimal value becomes that
    digit, and any other stops the conversion.  The ASCII text is then read
    as surrounding ASCII white space, a sign, and decimal digits with single
    underscores between them; a text with more digits than the limit of
    integer string conversion (4300 unless it is reconfigured) is refused.
    The tables are those of Unicode 14.0, as in CPython 3.11. *)

(** The code points of a text held as UTF-8 bytes; [None] for bytes that
    are not UTF-8, which no [str] has. *)
Definition byte_code (a : ascii) : Z := Z.of_nat (nat_of_ascii a).

Definition continuation (a : ascii) : option Z :=
  let b := byte_code a in
  if bool_decide (128 <= b < 192) then Some (b - 128) else None.

Fixpoint utf8_decode (s : list ascii) : option (list Z) :=
  match s with
  | [] => Some []
  | a :: r =>
      let b := byte_code a in
      if bool_decide (b < 128) then cons b <$> utf8_decode r
      else if bool_decide (194 <= b < 224) then
        match r with
        | a1 :: r1 =>
            c1 ← continuation a1;
            cons ((b - 192) * 64 + c1) <$> utf8_decode r1
        | _ => None
        end
      else if bool_decide (224 <= b < 240) then
        match r with
        | a1 :: a2 :: r2 =>
            c1 ← continuation a1; c2 ← continuation a2;
            cons ((b - 224) * 4096 + c1 * 64 + c2) <$> utf8_decode r2
        | _ => None
        end
      else if bool_decide (240 <= b < 245) then
        match r with
        | a1 :: a2 :: a3 :: r3 =>
            c1 ← continuation a1; c2 ← continuation a2; c3 ← continuation a3;
            cons ((b - 240) * 262144 + c1 * 4096 + c2 * 64 + c3) <$> utf8_decode r3
        | _ => None
        end
      else None
  end.

(** The white space above 127 ([Py_UNICODE_ISSPACE]). *)
Definition UNICODE_SPACES : list Z :=
  [133; 160; 5760; 8192; 8193; 8194; 8195; 8196; 8197; 8198; 8199; 8200; 8201; 8202;
   8232; 8233; 8239; 8287; 12288].

(** The digit zero of each run of ten decimal digits above 127
    ([Py_UNICODE_TODECIMAL]): Arabic-Indic, Devanagari, fullwidth, the
    mathematical digits and the others. *)
Definition DECIMAL_ZEROS : list Z :=
  [1632; 1776; 1984; 2406; 2534; 2662; 2790; 2918; 3046; 3174; 3302; 3430; 3558; 3664;
   3792; 3872; 4160; 4240; 6112; 6160; 6470; 6608; 6784; 6800; 6992; 7088; 7232; 7248;
   42528; 43216; 43264; 43472; 43504; 43600; 44016; 65296; 66720; 68912; 69734; 69872;
   69942; 70096; 70384; 70736; 70864; 71248; 71360; 71472; 71904; 72016; 72784; 73040;
   73120; 92768; 92864; 93008; 120782; 120792; 120802; 120812; 120822; 123200; 123632;
   125264; 130032].

Definition decimal_value (cp : Z) : option Z :=
  (fun zero => cp - zero) <$> head (filter (fun zero => zero <= cp < zero + 10) DECIMAL_ZEROS).

(** The ASCII character a code point is rewritten to. *)
Definition to_ascii (cp : Z) : option ascii :=
  if bool_decide (cp <= 127) then Some (ascii_of_nat (Z.to_nat cp))
  else if bool_decide (cp ∈ UNICODE_SPACES) then Some " "%char
  else (fun d => ascii_of_nat (Z.to_nat (48 + d))) <$> decimal_value cp.

Fixpoint transform_to_ascii (cps : list Z) : option (list ascii) :=
  match cps with
  | [] => Some []
  | cp :: cps' => a ← to_ascii cp; cons a <$> transform_to_ascii cps'
  end.

(** The limit of integer string conversion
    ([sys.int_info.default_max_str_digits]). *)
Definition MAX_STR_DIGITS : Z := 4300.

(** The ASCII white space the reading skips ([Py_ISSPACE]). *)
Definition is_py_space (a : ascii) : bool :=
  let n := Z.of_nat (nat_of_ascii a) in bool_decide (9 <= n <= 13 \/ n = 32).

Fixpoint lstrip (s : list ascii) : list ascii :=
  match s with
  | c :: r => if is_py_space c then lstrip r else s
  | [] => []
  end.

Definition strip (s : list ascii) : list ascii := rev (lstrip (rev (lstrip s))).

Fixpoint parse_digits (acc : Z) (s : list ascii) : option Z :=
  match s with
  | [] => Some acc
  | c :: r =>
      match digit_of c with
      | Some x => parse_digits (10 * acc + x) r
      | None =>
          if is_char "_" c then
            match r with
            | c2 :: r2 =>
                match digit_of c2 with
                | Some x => parse_digits (10 * acc + x) r2
                | None => None
                end
            | [] => None
            end
          else None
      end
  end.

Definition parse_unsigned (s : list ascii) : option Z :=
  match s with
  | c :: r => x ← digit_of c; parse_digits x r
  | [] => None
  end.

(** The reading of the ASCII text ([PyLong_FromString] in base 10). *)
Definition long_from_string (s : list ascii) : option Z :=
  match strip s with
  | c :: r =>
      if is_char "-" c then Z.opp <$> parse_unsigned r
      else if is_char "+" c then parse_unsigned r
      else parse_unsigned (c :: r)
  | [] => None
  end.

(** The number of digits of the ASCII text. *)
Definition count_digits (s : list ascii) : Z :=
  Z.of_nat (length (filter (fun c => is_Some (digit_of c)) s)).

Definition int_of_str (s : string) : option Z :=
  cps ← utf8_decode (list_ascii_of_string s);
  t ← transform_to_ascii cps;
  if bool_decide (MAX_STR_DIGITS < count_digits t) then None else long_from_string t.

(** [int(x)] for a [float]: truncation toward zero. *)
Definition int_of_float (f : pyfloat) : option Z :=
  match f with
  | FFinite m e => Some (if bool_decide (0 <= e) then m * 2 ^ e else Z.quot m (2 ^ (- e)))
  | FNaN => None
  | FInf _ => None
  end.

(** [int(v)]; [None] when it raises (the loop catches every [Exception]). *)
Definition py_int (v : json) : option Z :=
  match v with
  | JNull => None
  | JBool b => Some (if b then 1 else 0)
  | JInt n => Some n
  | JFloat f => int_of_float f
  | JStr s => int_of_str s
  | JList _ => None
  | JDict _ => None
  end.

(** The body of the loop over [day_slots.items()]. *)
Definition normalize_slot (k : string) (v : json) (normalized : gmap string Z)
  : gmap string Z :=
  match py_int v with
  | Some n => <[k := n]> normalized
  | None => normalized
  end.

(** [d.items()]. *)
Definition json_items (v : json) : result (gmap string json) :=
  match v with
  | JDict d => Ok d
  | _ => Raise AttributeError
  end.

(** [_extract_slots]. *)
Definition extract_slots (region_block : json) (group_name date_str : string)
  : result (gmap string Z) :=
  schedule ← json_get region_block "schedule" (JDict ∅);
  group_block ← json_get (or_empty_dict schedule) group_name (JDict ∅);
  day_slots ← json_get (or_empty_dict group_block) date_str (JDict ∅);
  items ← json_items (or_empty_dict day_slots);
  Ok (map_fold normalize_slot ∅ items).


(** ** The raw-payload cache *)

(** What the upstream answers to the GET: nothing within the timeout, or a
    status and a body served as JSON, [None] when the body does not decode
    as a JSON document. *)
Inductive upstream_reply :=
  | NoResponse
  | Response (status : Z) (body : option json).

(** The request of [_fetch_raw]: [session.get], [raise_for_status()] (an
    error for a status of 400 and above) and [resp.json()]. *)
Definition http_get_json (reply : upstream_reply) : result json :=
  match reply with
  | NoResponse => Raise TimeoutError
  | Response status body =>
      if bool_decide (400 <= status) then Raise (ClientResponseError status)
      else match body with
           | Some data => Ok data
           | None => Raise JSONDecodeError
           end
  end.

(** The process state [_fetch_raw] works on: [_RAW_CACHE], region to
    [(expires_epoch, raw_json)], and the number of upstream requests made. *)
Record world := {
  raw_cache : gmap string (Z * json);
  requests : nat
}.

(** [_fetch_raw]. [now] is the reading of [time.time()], [reply] what the
    upstream answers if it is asked, [ttl] is [CACHE_TTL_SECONDS]. *)
Definition fetch_raw (ttl : Z) (now : Z) (reply : upstream_reply) (region_cpu : string)
    (w : world) : result json * world :=
  let cached := raw_cache w !! region_cpu in
  match cached with
  | Some (expires, data) =>
      if bool_decide (expires > now) then (Ok data, w)
      else
        match http_get_json reply with
        | Ok data =>
            (Ok data, {| raw_cache := <[region_cpu := (now + ttl, data)]> (raw_cache w);
                         requests := S (requests w) |})
        | Raise e => (Raise e, {| raw_cache := raw_cache w; requests := S (requests w) |})
        end
  | None =>
      match http_get_json reply with
      | Ok data =>
          (Ok data, {| raw_cache := <[region_cpu := (now + ttl, data)]> (raw_cache w);
                       requests := S (requests w) |})
      | Raise e => (Raise e, {| raw_cache := raw_cache w; requests := S (requests w) |})
      end
  end.

(** ** The schedule of a group *)

(** [str(v)] for a value of the payload: a string is itself, [None], the
    booleans and the integers have their Python text.  The text of a float,
    a list or a dict is left to [repr_other]; the code hands the result to
    [strptime] and to dict lookups only. *)
Definition py_str (repr_other : json -> string) (v : json) : string :=
  match v with
  | JNull => "None"
  | JBool true => "True"
  | JBool false => "False"
  | JInt n => py_str_int n
  | JStr s => s
  | _ => repr_other v
  end.

(** The dict [get_schedule] returns, one field for each key. *)
Module Schedule.
Record t := {
  region : string;
  group : string;
  date_today : string;
  date_tomorrow : string;
  now_has_power : bool;
  today_off : list Interval;
  tomorrow_off : list Interval;
  total_off_today_minutes : Z;
  next_outage_start_dt : option datetime;
  next_outage_in_minutes : option Z;
  schedule_hash : string;
  region_name_ua : json
}.
End Schedule.

(** The body of [get_schedule] once the payload is there; [now] is the
    reading of [datetime.now(TZ)]. *)
Definition schedule_of_payload (repr_other : json -> string) (payload : json)
    (now : datetime) (group_name region_cpu : string) : result Schedule.t :=
  today_v ← json_get payload "date_today" JNull;
  let date_today := py_str repr_other today_v in
  tomorrow_v ← json_get payload "date_tomorrow" JNull;
  let date_tomorrow := py_str repr_other tomorrow_v in
  region_block ← extract_region_block payload region_cpu;
  slots_today ← extract_slots region_block group_name date_today;
  slots_tomorrow ← extract_slots region_block group_name date_tomorrow;
  today_off ← slots_to_off_intervals date_today slots_today;
  tomorrow_off ← slots_to_off_intervals date_tomorrow slots_tomorrow;
  now_has_power ← is_now_has_power now date_today slots_today;
  let next_outage_start := find_next_outage now today_off tomorrow_off in
  schedule_hash ← hash_schedule date_today slots_today date_tomorrow slots_tomorrow;
  name_ua ← json_get region_block "name_ua" JNull;
  Ok {| Schedule.region := region_cpu;
        Schedule.group := group_name;
        Schedule.date_today := date_today;
        Schedule.date_tomorrow := date_tomorrow;
        Schedule.now_has_power := now_has_power;
        Schedule.today_off := today_off;
        Schedule.tomorrow_off := tomorrow_off;
        Schedule.total_off_today_minutes := total_minutes today_off;
        Schedule.next_outage_start_dt := next_outage_start;
        Schedule.next_outage_in_minutes := next_outage_in_minutes next_outage_start now;
        Schedule.schedule_hash := schedule_hash;
        Schedule.region_name_ua := name_ua |}.

(** [get_schedule].  [clock] is the reading of [time.time()] and [reply]
    the upstream's answer, as for [fetch_raw]. *)
Definition get_schedule (repr_other : json -> string) (ttl clock : Z) (reply : upstream_reply)
    (now : datetime) (group_name region_cpu : string) (w : world)
  : result Schedule.t * world :=
  let fetched := fetch_raw ttl clock reply region_cpu w in
  (payload ← fetched.1; schedule_of_payload repr_other payload now group_name region_cpu,
   fetched.2).

(** ** The status card ([bot.py]) *)

(** [_fmt_minutes]: [//] and [%] are floor division and its remainder, and
    an [int] is true when it is not 0. *)
Definition fmt_minutes (total_min : option Z) : string :=
  match total_min with
  | None => "—"
  | Some total =>
      let h := total / 60 in
      let m := total mod 60 in
      if negb (bool_decide (h = 0)) && negb (bool_decide (m = 0))
      then py_str_int h +:+ " год " +:+ py_str_int m +:+ " хв"
      else if negb (bool_decide (h = 0)) then py_str_int h +:+ " год"
      else py_str_int m +:+ " хв"
  end.

(** The line feed, and the line [f"🔌 {start}–{end}"] of an interval;
    [strftime("%H:%M")] is the text [_time_str_from_dt] builds. *)
Definition LF : string := String "010" "".

Definition interval_line (it : Interval) : string :=
  "🔌 " +:+ time_str_from_dt (start it) +:+ "–" +:+ time_str_from_dt (end_ it).

(** [_fmt_intervals]. *)
Definition fmt_intervals (intervals : list Interval) : string :=
  match intervals with
  | [] => "✅ Відключень не заплановано"
  | _ :: _ => join LF (map interval_line intervals)
  end.

(** ** The keyboards and the callback data ([bot.py]) *)

Definition VALID_GROUPS : list string :=
  ["1.1"; "1.2"; "2.1"; "2.2"; "3.1"; "3.2"; "4.1"; "4.2"; "5.1"; "5.2"; "6.1"; "6.2"]%string.

(** [InlineKeyboardButton(text, callback_data=...)]; an
    [InlineKeyboardMarkup] is its rows of buttons. *)
Module Button.
Record t := { text : string; callback_data : string }.
End Button.

Definition keyboard := list (list Button.t).

(** [build_keyboard]. *)
Definition build_keyboard (group_name : string) (notify_enabled : bool) : keyboard :=
  let notify_label :=
    if notify_enabled then "🔔 Сповіщення: ВКЛ"%string else "🔕 Сповіщення: ВИКЛ"%string in
  [[{| Button.text := "🔄 Оновити"; Button.callback_data := "refresh" |}];
   [{| Button.text := notify_label; Button.callback_data := "toggle_notify" |}];
   [{| Button.text := "🧩 Обрати групу"; Button.callback_data := "open_groups" |}]].

(** The loop of [build_groups_keyboard] over the groups, on the rows
    finished and the row being filled.  [current_group] is the chat's
    [group_name] column, [None] while it is [NULL]. *)
Fixpoint groups_loop (current_group : option string) (groups : list string)
    (rows : keyboard) (row : list Button.t) : keyboard * list Button.t :=
  match groups with
  | [] => (rows, row)
  | g :: groups' =>
      let text := if bool_decide (Some g = current_group) then ("✅ " +:+ g)%string else g in
      let row := row ++ [{| Button.text := text; Button.callback_data := "group:" +:+ g |}] in
      if bool_decide (length row = 2%nat)
      then groups_loop current_group groups' (rows ++ [row]) []
      else groups_loop current_group groups' rows row
  end.

(** [build_groups_keyboard]. *)
Definition build_groups_keyboard (current_group : option string) : keyboard :=
  let filled := groups_loop current_group VALID_GROUPS [] [] in
  let rows :=
    match filled.2 with
    | [] => filled.1
    | _ :: _ => filled.1 ++ [filled.2]
    end in
  rows ++ [[{| Button.text := "⬅️ Назад"; Button.callback_data := "back_main" |}]].

(** The white space [str.strip()] removes: the UTF-8 bytes of each code
    point for which [str.isspace()] holds. *)
Definition WHITESPACE : list (list ascii) :=
  map (map (fun z => ascii_of_nat (Z.to_nat z)))
    [[9]; [10]; [11]; [12]; [13]; [28]; [29]; [30]; [31]; [32];
     [194; 133]; [194; 160]; [225; 154; 128];
     [226; 128; 128]; [226; 128; 129]; [226; 128; 130]; [226; 128; 131]; [226; 128; 132];
     [226; 128; 133]; [226; 128; 134]; [226; 128; 135]; [226; 128; 136]; [226; 128; 137];
     [226; 128; 138]; [226; 128; 168]; [226; 128; 169]; [226; 128; 175]; [226; 129; 159];
     [227; 128; 128]].

(** The text after one leading white-space character, if there is one. *)
Fixpoint drop_space (spaces : list (list ascii)) (s : list ascii) : option (list ascii) :=
  match spaces with
  | [] => None
  | sp :: spaces' =>
      if bool_decide (take (length sp) s = sp) then Some (drop (length sp) s)
      else drop_space spaces' s
  end.

Fixpoint drop_spaces (spaces : list (list ascii)) (passes : nat) (s : list ascii) : list ascii :=
  match passes with
  | O => s
  | S passes' =>
      match drop_space spaces s with
      | Some s' => drop_spaces spaces passes' s'
      | None => s
      end
  end.

(** [s.strip()], on the bytes of a well-formed text: leading white space
    goes, then trailing white space, found from the end with each
    character's bytes reversed. *)
Definition str_strip (s : string) : string :=
  let l := list_ascii_of_string s in
  let l := drop_spaces WHITESPACE (length l) l in
  let r := drop_spaces (map (@rev ascii) WHITESPACE) (length l) (rev l) in
  string_of_list_ascii (rev r).

(** [s.split(sep, 1)[1]] for a one-character [sep]: the text after its
    first occurrence; [None] when there is none (an [IndexError]). *)
Fixpoint after_first (sep : ascii) (s : string) : option string :=
  match s with
  | EmptyString => None
  | String c s' => if bool_decide (c = sep) then Some s' else after_first sep s'
  end.

(** What [on_callback] goes on to do once the query is answered and the
    chat row is there: the branch its chain of tests on [query.data]
    takes. *)
Inductive callback_branch :=
  | RenderCard
  | ToggleNotifyThenRender
  | ShowGroups
  | SetGroupThenRender (g : string)
  | ReplyInvalidGroup
  | NoBranch.

(** The tests of [on_callback], in their order; [query_data] is
    [query.data], which may be [None]. *)
Definition on_callback_branch (query_data : option string) : callback_branch :=
  let data := default ""%string query_data in
  if bool_decide (data = "refresh"%string) then RenderCard
  else if bool_decide (data = "toggle_notify"%string) then ToggleNotifyThenRender
  else if bool_decide (data = "open_groups"%string) then ShowGroups
  else if bool_decide (data = "back_main"%string) then RenderCard
  else if String.prefix "group:" data then
    match after_first ":" data with
    | Some rest =>
        let g := str_strip rest in
        if bool_decide (g ∈ VALID_GROUPS) then SetGroupThenRender g else ReplyInvalidGroup
    | None => NoBranch
    end
  else NoBranch.

(** * Vocabulary of the properties *)

(** ** Slots of a day *)

(** The key of the [k]-th half-hour boundary of a day, and the 48 keys. *)
Definition slot_key (k : nat) : string := time_str_from_dt (Z.of_nat k * HALF_HOUR).

Definition half_hour_keys : list string := map slot_key (seq 0 48).

(** The boundary [k] half-hours after [day_start]. *)
Definition boundary (day_start : datetime) (k : nat) : datetime :=
  day_start + Z.of_nat k * HALF_HOUR.

(** Whether a slot map records an outage at a key. *)
Definition is_off_at (slots : gmap string Z) (key : string) : bool :=
  bool_decide (slot_status slots key = 2).

(** The number of the 48 keys whose status is 2. *)
Definition off_slot_count (slots : gmap string Z) : Z :=
  Z.of_nat (length (filter (fun key => is_off_at slots key = true) half_hour_keys)).

(** ** Runs of off slots *)

(** The run that ends at slot [i], when one is under way since [open]. *)
Definition closing (open : option nat) (i : nat) : list (nat * nat) :=
  match open with
  | Some s => [(s, i)]
  | None => []
  end.

(** The runs of consecutive off slots among the [n] slots from index [i],
    as index pairs [(first slot, slot after the last)]; [open] is the first
    slot of a run already under way at [i]. *)
Fixpoint off_runs (off : nat -> bool) (i n : nat) (open : option nat) : list (nat * nat) :=
  match n with
  | O => closing open i
  | S n' =>
      if off i then off_runs off (S i) n' (Some (default i open))
      else closing open i ++ off_runs off (S i) n' None
  end.

(** The interval a run covers on the day that starts at [d]. *)
Definition run_interval (d : datetime) (r : nat * nat) : Interval :=
  {| start := boundary d r.1; end_ := boundary d r.2 |}.

(** The off flag the loop computes at the [k]-th boundary of the day [d]. *)
Definition off_in (slots : gmap string Z) (d : datetime) (k : nat) : bool :=
  is_off_at slots (time_str_from_dt (boundary d k)).

(** The loop state at a walk position: in an outage since slot [s], or not
    in one. *)
Definition state_tracks (d : datetime) (st : walk_state) (open : option nat) : Prop :=
  match open with
  | Some s => in_off st = true /\ off_start st = Some (boundary d s)
  | None => in_off st = false
  end.

(** A run under way started before the slot the walk is at. *)
Definition open_before (open : option nat) (i : nat) : Prop :=
  forall s, open = Some s -> (s < i)%nat.

(** The number of slots in a run, and in a list of runs. *)
Definition run_slots (r : nat * nat) : Z := Z.of_nat r.2 - Z.of_nat r.1.

Definition runs_slots (l : list (nat * nat)) : Z :=
  foldr (fun r acc => run_slots r + acc) 0 l.

(** The number of off slots among the [n] slots from index [i]. *)
Definition count_off (off : nat -> bool) (i n : nat) : Z :=
  Z.of_nat (length (filter (fun k => off k = true) (seq i n))).

(** The off flag of the [k]-th slot of a day and the runs of its 48 slots. *)
Definition day_off (slots : gmap string Z) (k : nat) : bool := is_off_at slots (slot_key k).

Definition day_runs (slots : gmap string Z) : list (nat * nat) :=
  off_runs (day_off slots) 0 48 None.

(** ** Intervals, instants and worked inputs *)

(** Start before end; in list order the starts ascend, no interval reaches
    into a later one, and none ends where a later one starts. *)
Definition well_formed_intervals (ivs : list Interval) : Prop :=
  (forall it, it ∈ ivs -> start it < end_ it) /\
  (forall (i j : nat) (a b : Interval),
      ivs !! i = Some a -> ivs !! j = Some b -> (i < j)%nat ->
      start a < start b /\ end_ a <= start b /\ end_ a <> start b).

(** Worked slot maps: two off slots between two on slots; the last slot
    of the day off; the last hour off; the first slot off. *)
Definition example_merge_slots : gmap string Z :=
  list_to_map [("09:30", 1); ("10:00", 2); ("10:30", 2); ("11:00", 1)]%string.

Definition last_slot_off : gmap string Z := {[ "23:30"%string := 2 ]}.

(** A list of intervals in ascending order of start. *)
Definition ascending_starts : list Interval -> Prop :=
  StronglySorted (fun a b => start a <= start b).

(** The duration rounded up to whole minutes, as the specification words
    the minutes-until value. *)
Definition ceil_minutes (td : timedelta) : Z := - ((- td) / US_PER_MINUTE).

(** Midnight of 2026-02-11, the day of the worked examples. *)
Definition feb11 : datetime := 739658 * US_PER_DAY.

Definition evening_off : gmap string Z := list_to_map [("23:00", 2); ("23:30", 2)]%string.
Definition midnight_off : gmap string Z := {[ "00:00"%string := 2 ]}.

(** ** Fingerprint text *)

(** Two slot maps with the same effective status at each of the 48 keys. *)
Definition same_effective_status (a b : gmap string Z) : Prop :=
  forall key, key ∈ half_hour_keys -> slot_status a key = slot_status b key.



(** A text without the separator character. *)
Fixpoint no_bar (s : string) : Prop :=
  match s with
  | EmptyString => True
  | String c s' => c <> "|"%char /\ no_bar s'
  end.

(** A text that is empty or starts with the separator character. *)
Definition bar_or_end (t : string) : Prop := t = ""%string \/ exists r, t = String "|" r.

(** Fields [(prefix, status)], each written as the prefix and the decimal
    status, separated by ["|"] and followed by [tail]. *)
Fixpoint render_fields (tail : string) (fs : list (string * Z)) : string :=
  match fs with
  | [] => tail
  | f :: rest =>
      f.1 +:+ (py_str_int f.2 +:+
               match rest with
               | [] => tail
               | _ :: _ => String "|" (render_fields tail rest)
               end)
  end.

(** One field on its own: a part of the normalized text. *)
Definition field_text (f : string * Z) : string := f.1 +:+ py_str_int f.2.

(** The 48 fields of a day: the prefix and the effective status of each
    slot. *)
Definition day_fields (date_str : string) (slots : gmap string Z) (d : datetime)
  : list (string * Z) :=
  map (fun k => (slot_prefix date_str (boundary d k), slot_status slots (slot_key k)))
      (seq 0 48).


(** ** Payload shape and cache states *)

(** A region block whose identifier is [region_cpu]. *)
Definition region_matches (r : json) (region_cpu : string) : Prop :=
  exists d, r = JDict d /\ d !! "cpu"%string = Some (JStr region_cpu).

(** A JSON object. *)
Definition is_dict (v : json) : Prop :=
  match v with
  | JDict _ => True
  | _ => False
  end.

(** The dict found under [key], empty when the key is absent or its value
    is falsy; [None] when the value is truthy and not a dict. *)
Definition child (d : gmap string json) (key : string) : option (gmap string json) :=
  match or_empty_dict (default (JDict ∅) (d !! key)) with
  | JDict c => Some c
  | _ => None
  end.

(** The raw slots of a group and date in a region block. *)
Definition day_block (block : gmap string json) (group_name date_str : string)
  : option (gmap string json) :=
  schedule ← child block "schedule"; group_block ← child schedule group_name;
  child group_block date_str.






(** A payload with one region, and a schedule with one group, one date and
    one slot. *)
Definition sample_payload (schedule : json) : json :=
  JDict {[ "regions"%string :=
    JList [JDict (list_to_map [("cpu", JStr "dnipro"); ("schedule", schedule)]%string)] ]}.


(** An entry of the region that has not expired at [now]. *)
Definition live_entry (w : world) (region_cpu : string) (now : Z) (data : json) : Prop :=
  exists expires, raw_cache w !! region_cpu = Some (expires, data) /\ expires > now.

(** A cache that holds an entry for one region, expiring at 1000. *)
Definition cached_world : world :=
  {| raw_cache := {[ "dnipro"%string := (1000, sample_payload JNull) ]}; requests := 1 |}.

(** ** Slots, runs and instants of a day *)

(** Slot [k] of a day is an outage slot: the status under its key is 2. *)
Definition off_slot (slots : gmap string Z) (k : nat) : Prop :=
  slot_status slots (slot_key k) = 2.

(** The slots [j .. m - 1] are a maximal run of outage slots among the 48
    of a day: all off, with an on slot or an end of the day on each side. *)
Definition maximal_off_run (slots : gmap string Z) (j m : nat) : Prop :=
  (j < m)%nat /\ (m <= 48)%nat /\
  (forall x, (j <= x < m)%nat -> off_slot slots x) /\
  (j = 0%nat \/ ~ off_slot slots (j - 1)) /\
  (m = 48%nat \/ ~ off_slot slots m).

(** Slot [k] opens an outage: it is off and the slot before it, when the
    day has one, is not. *)
Definition run_start (slots : gmap string Z) (k : nat) : Prop :=
  off_slot slots k /\ (k = 0%nat \/ ~ off_slot slots (k - 1)).

(** An instant within an interval, and within one of a list. *)
Definition covers (it : Interval) (t : datetime) : Prop := start it <= t < end_ it.

Definition in_outage (ivs : list Interval) (t : datetime) : Prop :=
  exists it, it ∈ ivs /\ covers it t.

(** The status under the key of the half-hour an instant falls in. *)
Definition status_at (slots : gmap string Z) (now : datetime) : Z :=
  slot_status slots (time_str_from_dt (round_down_to_half_hour now)).

(** ** A worked feed *)

(** A payload for 2026-02-11 with one region and one group, whose slot
    "10:00" of today is off; the reply that delivers it; a cache that holds
    nothing. *)
Definition feed_block : gmap string json :=
  list_to_map
    [("cpu", JStr "dnipro"); ("name_ua", JStr "Dnipro");
     ("schedule",
      JDict {[ "2.1"%string :=
        JDict {[ "2026-02-11"%string := JDict {[ "10:00"%string := JInt 2 ]} ]} ]})]%string.

Definition feed_dict : gmap string json :=
  list_to_map
    [("date_today", JStr "2026-02-11"); ("date_tomorrow", JStr "2026-02-12");
     ("regions", JList [JDict feed_block])]%string.

Definition feed_payload : json := JDict feed_dict.

Definition feed_reply : upstream_reply := Response 200 (Some feed_payload).

Definition empty_world : world := {| raw_cache := ∅; requests := 0 |}.

(** No text for floats, lists and dicts: the worked feed has none where
    [str] is applied. *)
Definition no_repr (v : json) : string := "".

(** The fingerprint of the worked feed's schedule for group 2.1. *)
Definition feed_hash : string :=
  "3006be390452789d377b1e1391a47e1d996df61e7da591fb8539f8125b4a5d3c".

(** The schedule of group 2.1 at 09:00 of 2026-02-11, from the worked feed. *)
Definition feed_schedule : Schedule.t :=
  {| Schedule.region := "dnipro";
     Schedule.group := "2.1";
     Schedule.date_today := "2026-02-11";
     Schedule.date_tomorrow := "2026-02-12";
     Schedule.now_has_power := true;
     Schedule.today_off :=
       [{| start := at_time feb11 10 0 0 0; end_ := at_time feb11 10 30 0 0 |}];
     Schedule.tomorrow_off := [];
     Schedule.total_off_today_minutes := 30;
     Schedule.next_outage_start_dt := Some (at_time feb11 10 0 0 0);
     Schedule.next_outage_in_minutes := Some 60;
     Schedule.schedule_hash := feed_hash;
     Schedule.region_name_ua := JStr "Dnipro" |}.

(** ** Texts *)

(** A text in which the character [c] does not occur. *)
Fixpoint avoids (c : ascii) (s : string) : Prop :=
  match s with
  | EmptyString => True
  | String x s' => x <> c /\ avoids c s'
  end.

(** The characters of the decimal text of an integer. *)
Definition is_decimal_char (c : ascii) : bool :=
  bool_decide (c ∈ list_ascii_of_string "-0123456789").

(** The line of a run of off slots: the keys of its first slot and of the
    slot after its last, which is "00:00" again at the end of the day. *)
Definition run_line (r : nat * nat) : string :=
  "🔌 " +:+ slot_key r.1 +:+ "–" +:+ slot_key (r.2 mod 48).

(** ** Buttons *)

(** The button of a group in the group picker. *)
Definition group_button (current_group : option string) (g : string) : Button.t :=
  {| Button.text := if bool_decide (Some g = current_group) then ("✅ " +:+ g)%string else g;
     Button.callback_data := "group:" +:+ g |}.

Definition back_button : Button.t :=
  {| Button.text := "⬅️ Назад"; Button.callback_data := "back_main" |}.

(** The buttons of a keyboard, row after row. *)
Definition buttons (kb : keyboard) : list Button.t := concat kb.

(** * Properties *)

(** ** Results *)

Lemma bind_Ok {A B} (m : result A) (f : A -> result B) (b : B) :
  m ≫= f = Ok b -> exists a, m = Ok a /\ f a = Ok b.
Proof. destruct m as [a|e]; simpl; [eauto | discriminate]. Qed.


Lemma bind_Ok_l {A B} (a : A) (f : A -> result B) : Ok a ≫= f = f a.
Proof. reflexivity. Qed.


Ltac inv_bind H :=
  let a := fresh "a" in
  let Ha := fresh "Ha" in
  apply bind_Ok in H; destruct H as (a & Ha & H).

(** ** Calendar and clock arithmetic *)

Ltac unfold_units :=
  unfold boundary, at_time, ONE_DAY, HALF_HOUR, US_PER_DAY, US_PER_HOUR, US_PER_MINUTE,
    US_PER_SECOND, MINORDINAL, MAXORDINAL in *.

Lemma dt_hour_day_shift (ord t : Z) : dt_hour (ord * US_PER_DAY + t) = dt_hour t.
Proof.
  unfold dt_hour. replace (ord * US_PER_DAY + t) with (t + (24 * ord) * US_PER_HOUR)
    by (unfold_units; lia).
  rewrite Z.div_add by (unfold_units; lia).
  replace (t / US_PER_HOUR + 24 * ord) with (t / US_PER_HOUR + ord * 24) by lia.
  apply Z.mod_add. lia.
Qed.

Lemma dt_minute_day_shift (ord t : Z) : dt_minute (ord * US_PER_DAY + t) = dt_minute t.
Proof.
  unfold dt_minute. replace (ord * US_PER_DAY + t) with (t + (1440 * ord) * US_PER_MINUTE)
    by (unfold_units; lia).
  rewrite Z.div_add by (unfold_units; lia).
  replace (t / US_PER_MINUTE + 1440 * ord) with (t / US_PER_MINUTE + (24 * ord) * 60) by lia.
  apply Z.mod_add. lia.
Qed.

(** The key depends on the time of day only. *)
Lemma time_str_day_shift (ord t : Z) :
  time_str_from_dt (ord * US_PER_DAY + t) = time_str_from_dt t.
Proof.
  unfold time_str_from_dt. now rewrite dt_hour_day_shift, dt_minute_day_shift.
Qed.

Lemma time_str_boundary (ord : Z) (k : nat) :
  time_str_from_dt (boundary (ord * US_PER_DAY) k) = slot_key k.
Proof. apply time_str_day_shift. Qed.

(** The keys are the 48 strings "00:00", "00:30", ..., "23:30". *)
Lemma half_hour_keys_eq :
  half_hour_keys =
  ["00:00"; "00:30"; "01:00"; "01:30"; "02:00"; "02:30"; "03:00"; "03:30";
   "04:00"; "04:30"; "05:00"; "05:30"; "06:00"; "06:30"; "07:00"; "07:30";
   "08:00"; "08:30"; "09:00"; "09:30"; "10:00"; "10:30"; "11:00"; "11:30";
   "12:00"; "12:30"; "13:00"; "13:30"; "14:00"; "14:30"; "15:00"; "15:30";
   "16:00"; "16:30"; "17:00"; "17:30"; "18:00"; "18:30"; "19:00"; "19:30";
   "20:00"; "20:30"; "21:00"; "21:30"; "22:00"; "22:30"; "23:00"; "23:30"]%string.
Proof. vm_compute. reflexivity. Qed.

Lemma days_before_month_nonneg (y : Z) (k : nat) : 0 <= days_before_month_aux y k.
Proof.
  induction k as [|k IH]; simpl; [lia|].
  unfold days_in_month. repeat case_bool_decide; destruct (is_leap y); lia.
Qed.

(** A date that parses is the midnight of a day of the calendar. *)
Lemma date_to_dt_midnight (date_str : string) (d : datetime) :
  date_to_dt date_str = Ok d ->
  exists ord, d = ord * US_PER_DAY /\ MINORDINAL <= ord.
Proof.
  unfold date_to_dt. destruct (strptime_ymd date_str) as [[[y m] dd]|]; [|discriminate].
  destruct (valid_ymd y m dd) eqn:Hv; [|discriminate].
  intros [= <-]. exists (ymd2ord y m dd). split; [reflexivity|].
  unfold valid_ymd in Hv. apply andb_prop in Hv as [Hv Hd]. apply andb_prop in Hv as [Hy Hm].
  apply bool_decide_eq_true in Hy, Hm, Hd.
  unfold ymd2ord, days_before_month, days_before_year, MINORDINAL.
  pose proof (days_before_month_nonneg y (Z.to_nat (m - 1))).
  Z.to_euclidean_division_equations. lia.
Qed.

(** ** The half-hour boundaries of a day *)

Lemma dt_add_in_range (d : datetime) (td : timedelta) :
  dt_in_range (d + td) = true -> dt_add d td = Ok (d + td).
Proof. unfold dt_add. now intros ->. Qed.

Lemma dt_add_Ok (d : datetime) (td : timedelta) (r : datetime) :
  dt_add d td = Ok r -> r = d + td /\ dt_in_range (d + td) = true.
Proof. unfold dt_add. destruct (dt_in_range (d + td)); [intros [= <-]; auto | discriminate]. Qed.

(** With [n] boundaries left before [end_], the loop appends exactly those
    [n], whatever bound at least [n] it is run with. *)
Lemma half_hours_loop_spec (n extra : nat) :
  forall (cur end_ : datetime) (times : list datetime),
    MINORDINAL * US_PER_DAY <= cur ->
    end_ = cur + Z.of_nat n * HALF_HOUR ->
    end_ < (MAXORDINAL + 1) * US_PER_DAY ->
    half_hours_loop (n + extra) cur end_ times = Ok (times ++ map (boundary cur) (seq 0 n)).
Proof.
  induction n as [|n IH]; intros cur e times Hmin He Hmax.
  - simpl. rewrite app_nil_r. destruct extra; simpl; [reflexivity|].
    rewrite bool_decide_eq_false_2 by lia. reflexivity.
  - simpl. rewrite bool_decide_eq_true_2 by (unfold_units; lia).
    rewrite dt_add_in_range.
    2:{ unfold dt_in_range. apply bool_decide_eq_true. unfold_units. lia. }
    simpl. rewrite IH; [| unfold_units; lia | lia | lia].
    f_equal. rewrite <- app_assoc. simpl. f_equal. f_equal.
    + unfold boundary. lia.
    + rewrite <- seq_shift, map_map. apply map_ext. intros k. unfold boundary. lia.
Qed.

Lemma iter_half_hours_eq (d : datetime) :
  MINORDINAL * US_PER_DAY <= d ->
  dt_in_range (d + ONE_DAY) = true ->
  iter_half_hours d = Ok (map (boundary d) (seq 0 48)).
Proof.
  intros Hmin Hr. unfold iter_half_hours. rewrite dt_add_in_range by assumption. simpl.
  assert (passes_needed d (d + ONE_DAY) = (48 + 0)%nat) as ->.
  { unfold passes_needed. replace (d + ONE_DAY - d + HALF_HOUR - 1) with (ONE_DAY + HALF_HOUR - 1) by lia.
    reflexivity. }
  apply bool_decide_eq_true in Hr.
  rewrite half_hours_loop_spec; [reflexivity | assumption | reflexivity | lia].
Qed.

Lemma enumerate_boundaries (d : datetime) (a n : nat) :
  zip (seq a n) (map (boundary d) (seq a n)) = map (fun k => (k, boundary d k)) (seq a n).
Proof. revert a. induction n as [|n IH]; intros a; simpl; [reflexivity|]. now rewrite IH. Qed.

(** ** Interval derivation: the loop and the runs of off slots *)

Section Walk.
Variable slots : gmap string Z.
Variable d : datetime.
Variable len : nat.
Hypothesis day_length : Z.of_nat len * HALF_HOUR = ONE_DAY.
Hypothesis day_end_in_range : dt_in_range (d + ONE_DAY) = true.

Let off := off_in slots d.

(** One pass of the loop, away from the last index. *)
Lemma walk_step_inner (k : nat) (st : walk_state) (open : option nat) :
  state_tracks d st open -> k <> (len - 1)%nat ->
  exists st',
    walk_step slots d len k (boundary d k) st = Ok st' /\
    intervals st' = intervals st ++ map (run_interval d) (if off k then [] else closing open k) /\
    state_tracks d st' (if off k then Some (default k open) else None).
Proof.
  intros Hst Hk. unfold walk_step.
  change (bool_decide (slot_status slots (time_str_from_dt (boundary d k)) = 2)) with (off k).
  destruct (off k) eqn:Hoff, open as [s|]; simpl in Hst; simpl.
  - destruct Hst as [Hin Hs]. rewrite Hin. simpl. rewrite Hin. simpl.
    rewrite bool_decide_eq_false_2 by assumption. simpl.
    eexists; split; [reflexivity|]. rewrite app_nil_r. auto.
  - rewrite Hst. simpl. rewrite bool_decide_eq_false_2 by assumption. simpl.
    eexists; split; [reflexivity|]. simpl. rewrite app_nil_r. auto.
  - destruct Hst as [Hin Hs]. rewrite Hin. simpl. rewrite Hs. simpl.
    rewrite andb_false_r.
    eexists; split; [reflexivity|]. simpl. auto.
  - rewrite Hst. simpl. rewrite Hst. simpl. rewrite andb_false_r.
    eexists; split; [reflexivity|]. rewrite app_nil_r. auto.
Qed.

(** The pass at the last index, where a run still open is closed at the
    start of the next day. *)
Lemma walk_step_last (k : nat) (st : walk_state) (open : option nat) :
  state_tracks d st open -> S k = len ->
  exists st',
    walk_step slots d len k (boundary d k) st = Ok st' /\
    intervals st' = intervals st ++ map (run_interval d) (off_runs off k 1 open) /\
    in_off st' = off k.
Proof.
  intros Hst Hk. unfold walk_step.
  change (bool_decide (slot_status slots (time_str_from_dt (boundary d k)) = 2)) with (off k).
  assert (boundary d (S k) = d + ONE_DAY) as Hend.
  { unfold boundary. rewrite Hk. lia. }
  assert (k = (len - 1)%nat) as Hlast by lia.
  destruct (off k) eqn:Hoff, open as [s|]; simpl in Hst; simpl; rewrite Hoff; simpl.
  - destruct Hst as [Hin Hs]. rewrite Hin. simpl. rewrite Hin. simpl.
    rewrite bool_decide_eq_true_2 by assumption. simpl.
    rewrite dt_add_in_range by assumption. simpl. rewrite Hs. simpl.
    eexists; split; [reflexivity|]. simpl. unfold run_interval. simpl. rewrite Hend. auto.
  - rewrite Hst. simpl. rewrite bool_decide_eq_true_2 by assumption. simpl.
    rewrite dt_add_in_range by assumption. simpl.
    eexists; split; [reflexivity|]. simpl. unfold run_interval. simpl. rewrite Hend. auto.
  - destruct Hst as [Hin Hs]. rewrite Hin. simpl. rewrite Hs. simpl.
    rewrite andb_false_r.
    eexists; split; [reflexivity|]. simpl. auto.
  - rewrite Hst. simpl. rewrite Hst. simpl. rewrite andb_false_r.
    eexists; split; [reflexivity|]. rewrite app_nil_r. auto.
Qed.

(** The loop from index [k] on appends the runs of the remaining slots. *)
Lemma walk_off_runs (n : nat) :
  forall (k : nat) (st : walk_state) (open : option nat),
    state_tracks d st open -> (k + S n)%nat = len ->
    exists st',
      walk slots d len (map (fun j => (j, boundary d j)) (seq k (S n))) st = Ok st' /\
      intervals st' = intervals st ++ map (run_interval d) (off_runs off k (S n) open) /\
      in_off st' = off (k + n)%nat.
Proof.
  induction n as [|n IH]; intros k st open Hst Hk.
  - destruct (walk_step_last k st open Hst) as (st' & Hstep & Hiv & Hin); [lia|].
    exists st'. cbn [seq map walk]. rewrite Hstep. simpl.
    rewrite Nat.add_0_r. auto.
  - destruct (walk_step_inner k st open Hst) as (st1 & Hstep & Hiv & Htr); [lia|].
    destruct (IH (S k) st1 _ Htr) as (st' & Hwalk & Hiv' & Hin); [lia|].
    exists st'. split; [|split].
    + change (seq k (S (S n))) with (k :: seq (S k) (S n)).
      cbn [map walk]. rewrite Hstep. exact Hwalk.
    + rewrite Hiv', Hiv, <- app_assoc, <- map_app. f_equal. f_equal.
      change (off_runs off k (S (S n)) open) with
        (if off k then off_runs off (S k) (S n) (Some (default k open))
         else closing open k ++ off_runs off (S k) (S n) None).
      destruct (off k); reflexivity.
    + rewrite Hin. f_equal. lia.
Qed.
End Walk.

(** ** Runs of off slots *)

Lemma open_before_next (off : nat -> bool) (open : option nat) (i : nat) :
  open_before open i -> open_before (Some (default i open)) (S i).
Proof. intros H s [= <-]. destruct open as [s|]; simpl; [specialize (H s eq_refl)|]; lia. Qed.

Lemma open_before_None (i : nat) : open_before None i.
Proof. intros s [=]. Qed.

Section Runs.
Variable off : nat -> bool.

(** Every run is non-empty, lies within the slots walked, and does not
    start before the run under way (or the first slot walked). *)
Lemma off_runs_bounds (n : nat) :
  forall (i : nat) (open : option nat) (j m : nat),
    open_before open i ->
    (j, m) ∈ off_runs off i n open ->
    (default i open <= j)%nat /\ (j < m)%nat /\ (m <= i + n)%nat.
Proof.
  induction n as [|n IH]; intros i open j m Hop Hin; simpl in Hin.
  - destruct open as [s|]; simpl in *; [|by apply elem_of_nil in Hin].
    apply list_elem_of_singleton in Hin as [= -> ->]. specialize (Hop s eq_refl). lia.
  - destruct (off i).
    + apply IH in Hin; [|by apply open_before_next].
      simpl in Hin. lia.
    + apply elem_of_app in Hin as [Hin|Hin].
      * destruct open as [s|]; simpl in *; [|by apply elem_of_nil in Hin].
        apply list_elem_of_singleton in Hin as [= -> ->]. specialize (Hop s eq_refl). lia.
      * apply IH in Hin; [|apply open_before_None]. simpl in Hin.
        destruct open as [s|]; simpl; [specialize (Hop s eq_refl)|]; lia.
Qed.

(** Runs come in order and are separated by at least one on slot. *)
Lemma off_runs_separated (n : nat) :
  forall (i : nat) (open : option nat),
    open_before open i ->
    StronglySorted (fun a b : nat * nat => (a.2 < b.1)%nat) (off_runs off i n open).
Proof.
  induction n as [|n IH]; intros i open Hop; simpl.
  - destruct open; simpl; repeat constructor.
  - destruct (off i).
    + apply IH. by apply open_before_next.
    + destruct open as [s|]; simpl; [|apply IH, open_before_None].
      constructor; [apply IH, open_before_None|].
      apply Forall_forall. intros [j m] Hin.
      apply off_runs_bounds in Hin; [|apply open_before_None]. simpl in *. lia.
Qed.

Lemma count_off_S (i n : nat) :
  count_off off i (S n) = (if off i then 1 else 0) + count_off off (S i) n.
Proof.
  unfold count_off. cbn [seq]. rewrite filter_cons.
  destruct (decide (off i = true)) as [->|Hf].
  - simpl. lia.
  - destruct (off i); [done|]. lia.
Qed.

Lemma runs_slots_app (l1 l2 : list (nat * nat)) :
  runs_slots (l1 ++ l2) = runs_slots l1 + runs_slots l2.
Proof. unfold runs_slots. induction l1 as [|r l1 IH]; simpl; [lia|]. rewrite IH. lia. Qed.

(** The runs cover exactly the off slots. *)
Lemma off_runs_total (n : nat) :
  forall (i : nat) (open : option nat),
    runs_slots (off_runs off i n open) =
    count_off off i n + match open with Some s => Z.of_nat i - Z.of_nat s | None => 0 end.
Proof.
  induction n as [|n IH]; intros i open.
  - destruct open; simpl; unfold run_slots, count_off; simpl; lia.
  - rewrite count_off_S. simpl. destruct (off i).
    + rewrite IH. destruct open; simpl; lia.
    + rewrite runs_slots_app, IH. destruct open; simpl; unfold run_slots; simpl; lia.
Qed.

(** A run starts at an off slot that follows an on slot or opens the walk. *)
Lemma off_runs_start (n : nat) :
  forall (i : nat) (open : option nat) (j m : nat),
    (j, m) ∈ off_runs off i n open ->
    open = Some j \/
    ((i <= j)%nat /\ off j = true /\
     ((j = i /\ open = None) \/ ((i < j)%nat /\ off (j - 1)%nat = false))).
Proof.
  induction n as [|n IH]; intros i open j m Hin; simpl in Hin.
  - destruct open as [s|]; simpl in *; [|by apply elem_of_nil in Hin].
    apply list_elem_of_singleton in Hin as [= -> ->]. by left.
  - destruct (off i) eqn:Hoff.
    + apply IH in Hin as [[= Hj]|(Hle & Hj & [[_ [=]]|[Hlt Hp]])].
      * destruct open as [s|]; simpl in Hj; subst j; [by left|].
        right. repeat split; auto.
      * right. repeat split; [lia|done|]. right. split; [lia|done].
    + apply elem_of_app in Hin as [Hin|Hin].
      * destruct open as [s|]; simpl in *; [|by apply elem_of_nil in Hin].
        apply list_elem_of_singleton in Hin as [= -> ->]. by left.
      * apply IH in Hin as [[=]|(Hle & Hj & [[-> _]|[Hlt Hp]])].
        -- right. repeat split; [lia|done|]. right. split; [lia|].
           by replace (S i - 1)%nat with i by lia.
        -- right. repeat split; [lia|done|]. right. split; [lia|done].
Qed.

(** A run ends at an on slot or at the end of the walk, and all its slots
    from the first one walked are off. *)
Lemma off_runs_end (n : nat) :
  forall (i : nat) (open : option nat) (j m : nat),
    (j, m) ∈ off_runs off i n open ->
    (m = (i + n)%nat \/ off m = false) /\
    (forall x, (i <= x < m)%nat -> (j <= x)%nat -> off x = true).
Proof.
  induction n as [|n IH]; intros i open j m Hin; simpl in Hin.
  - destruct open as [s|]; simpl in *; [|by apply elem_of_nil in Hin].
    apply list_elem_of_singleton in Hin as [= -> ->]. split; [left; lia|]. intros; lia.
  - destruct (off i) eqn:Hoff.
    + apply IH in Hin as [Hm Hall]. split; [destruct Hm; [left; lia|by right]|].
      intros x Hx Hjx. destruct (decide (x = i)) as [->|]; [done|]. apply Hall; lia.
    + apply elem_of_app in Hin as [Hin|Hin].
      * destruct open as [s|]; simpl in *; [|by apply elem_of_nil in Hin].
        apply list_elem_of_singleton in Hin as [= -> ->]. split; [by right|]. intros; lia.
      * pose proof Hin as Hb. apply off_runs_bounds in Hb; [|apply open_before_None].
        apply IH in Hin as [Hm Hall]. split; [destruct Hm; [left; lia|by right]|].
        intros x Hx Hjx. simpl in Hb. apply Hall; lia.
Qed.

(** A run under way is the first one listed. *)
Lemma off_runs_open_head (n : nat) :
  forall (i s : nat), exists m rest, off_runs off i n (Some s) = (s, m) :: rest.
Proof.
  induction n as [|n IH]; intros i s; simpl; [by eauto|].
  destruct (off i); [apply IH | by eauto].
Qed.

(** When the last slot walked is off, the last run ends after it. *)
Lemma off_runs_last (n : nat) :
  forall (i : nat) (open : option nat),
    (n = 0%nat -> open <> None) ->
    ((0 < n)%nat -> off (i + n - 1)%nat = true) ->
    exists init s, off_runs off i n open = init ++ [(s, (i + n)%nat)].
Proof.
  induction n as [|n IH]; intros i open H0 Hlast; simpl.
  - destruct open as [s|]; [|by destruct H0]. exists [], s. simpl. do 3 f_equal. lia.
  - specialize (Hlast ltac:(lia)).
    replace (i + S n)%nat with (S i + n)%nat by lia.
    destruct (off i) eqn:Hoff.
    + apply IH; [done|]. intros Hn. rewrite <- Hlast. f_equal. lia.
    + destruct n as [|n'].
      { replace (i + 1 - 1)%nat with i in Hlast by lia. congruence. }
      destruct (IH (S i) None) as (init & s & ->); [done| |].
      { intros _. rewrite <- Hlast. f_equal. lia. }
      exists (closing open i ++ init), s. by rewrite app_assoc.
Qed.

(** Every maximal run of off slots is listed. *)
Lemma off_runs_open_closes (n : nat) :
  forall (i s m : nat),
    (i <= m <= i + n)%nat ->
    (forall x, (i <= x < m)%nat -> off x = true) ->
    (m = (i + n)%nat \/ off m = false) ->
    (s, m) ∈ off_runs off i n (Some s).
Proof.
  induction n as [|n IH]; intros i s m Hm Hall Hend; simpl.
  - replace m with i by lia. apply list_elem_of_singleton. done.
  - destruct (off i) eqn:Hoff.
    + simpl. apply IH; [|intros; apply Hall; lia|destruct Hend; [left; lia|by right]].
      destruct (decide (m = i)) as [->|]; [|lia].
      destruct Hend; [lia|congruence].
    + destruct (decide (m = i)) as [->|]; [simpl; constructor|].
      rewrite Hall in Hoff by lia. done.
Qed.

Lemma off_runs_complete (n : nat) :
  forall (i : nat) (open : option nat) (j m : nat),
    (i <= j < m)%nat -> (m <= i + n)%nat ->
    (forall x, (j <= x < m)%nat -> off x = true) ->
    ((j = i /\ open = None) \/ ((i < j)%nat /\ off (j - 1)%nat = false)) ->
    (m = (i + n)%nat \/ off m = false) ->
    (j, m) ∈ off_runs off i n open.
Proof.
  induction n as [|n IH]; intros i open j m Hj Hm Hall Hstart Hend; [lia|]. simpl.
  destruct (decide (j = i)) as [->|Hne].
  - destruct Hstart as [[_ ->]|[? _]]; [|lia].
    rewrite Hall by lia. simpl.
    apply off_runs_open_closes; [lia|intros; apply Hall; lia|destruct Hend; [left; lia|by right]].
  - assert ((j = S i /\ off i = false) \/ (S i < j)%nat /\ off (j - 1)%nat = false) as Hs.
    { destruct Hstart as [[? _]|[Hlt Hp]]; [lia|].
      destruct (decide (j = S i)) as [->|]; [left|right; split; [lia|done]].
      split; [done|]. by replace (S i - 1)%nat with i in Hp by lia. }
    destruct (off i) eqn:Hoff.
    + apply IH; [lia|lia|done| |destruct Hend; [left; lia|by right]].
      destruct Hs as [[_ [=]]|Hs]; by right.
    + apply elem_of_app. right.
      apply IH; [lia|lia|done| |destruct Hend; [left; lia|by right]].
      destruct Hs as [[-> _]|Hs]; [by left|by right].
Qed.

Lemma off_runs_ext (g : nat -> bool) (n : nat) :
  (forall k, off k = g k) ->
  forall i open, off_runs off i n open = off_runs g i n open.
Proof.
  intros Hfg. induction n as [|n IH]; intros i open; simpl; [done|].
  rewrite <- Hfg, !IH. done.
Qed.
End Runs.

(** ** The intervals of a day *)

Lemma off_in_day_off (slots : gmap string Z) (ord : Z) (k : nat) :
  off_in slots (ord * US_PER_DAY) k = day_off slots k.
Proof. unfold off_in, day_off. by rewrite time_str_boundary. Qed.

Lemma day_runs_off_in (slots : gmap string Z) (ord : Z) :
  off_runs (off_in slots (ord * US_PER_DAY)) 0 48 None = day_runs slots.
Proof. unfold day_runs. apply off_runs_ext. intros k. apply off_in_day_off. Qed.

(** For a date whose next day exists the walk ends, in the state the runs
    of off slots describe. *)
Lemma walk_day_spec (date_str : string) (slots : gmap string Z) (d : datetime) :
  date_to_dt date_str = Ok d ->
  dt_in_range (d + ONE_DAY) = true ->
  exists st,
    walk_day date_str slots = Ok st /\
    intervals st = map (run_interval d) (day_runs slots) /\
    in_off st = day_off slots 47.
Proof.
  intros Hd Hr. unfold walk_day. rewrite Hd, bind_Ok_l.
  destruct (date_to_dt_midnight _ _ Hd) as (ord & -> & Hord).
  rewrite iter_half_hours_eq, bind_Ok_l; [|unfold_units; lia|done].
  unfold enumerate. rewrite List.length_map, List.length_seq, enumerate_boundaries.
  assert (Z.of_nat 48 * HALF_HOUR = ONE_DAY) as Hlen by reflexivity.
  assert (state_tracks (ord * US_PER_DAY) walk_init None) as Hinit by reflexivity.
  assert ((0 + 48)%nat = 48%nat) as Hall by reflexivity.
  destruct (walk_off_runs slots (ord * US_PER_DAY) 48 Hlen Hr 47 0 walk_init None Hinit Hall)
    as (st & Hw & Hiv & Hin).
  exists st. split; [exact Hw|]. split.
  - rewrite Hiv. change (intervals walk_init) with (@nil Interval). rewrite app_nil_l.
    apply (f_equal (map (run_interval (ord * US_PER_DAY)))), day_runs_off_in.
  - rewrite Hin. apply off_in_day_off.
Qed.

Lemma walk_day_inv (date_str : string) (slots : gmap string Z) (st : walk_state) :
  walk_day date_str slots = Ok st ->
  exists d, date_to_dt date_str = Ok d /\ dt_in_range (d + ONE_DAY) = true.
Proof.
  unfold walk_day. intros H. inv_bind H. inv_bind H.
  exists a. split; [done|]. unfold iter_half_hours in Ha0. inv_bind Ha0.
  by apply dt_add_Ok in Ha1 as [_ ?].
Qed.

Lemma slots_to_off_intervals_spec (date_str : string) (slots : gmap string Z)
    (ivs : list Interval) :
  slots_to_off_intervals date_str slots = Ok ivs <->
  exists d, date_to_dt date_str = Ok d /\ dt_in_range (d + ONE_DAY) = true /\
            ivs = map (run_interval d) (day_runs slots).
Proof.
  unfold slots_to_off_intervals. split.
  - intros H. inv_bind H. injection H as <-.
    destruct (walk_day_inv _ _ _ Ha) as (d & Hd & Hr). exists d. split; [done|]. split; [done|].
    destruct (walk_day_spec date_str slots d Hd Hr) as (st & Hw & Hiv & _). congruence.
  - intros (d & Hd & Hr & ->).
    destruct (walk_day_spec date_str slots d Hd Hr) as (st & -> & <- & _). done.
Qed.

(** The derivation returns for every date that parses, the last
    representable day apart (its next day is out of range). *)
Lemma slots_to_off_intervals_returns (date_str : string) (slots : gmap string Z) (d : datetime) :
  date_to_dt date_str = Ok d ->
  d + ONE_DAY < (MAXORDINAL + 1) * US_PER_DAY ->
  exists ivs, slots_to_off_intervals date_str slots = Ok ivs.
Proof.
  intros Hd Hr. eexists. apply slots_to_off_intervals_spec. exists d. split; [done|]. split; [|done].
  destruct (date_to_dt_midnight _ _ Hd) as (ord & -> & Hord).
  apply bool_decide_eq_true. unfold_units. lia.
Qed.

Lemma StronglySorted_map {A B} (f : A -> B) (R1 : A -> A -> Prop) (R2 : B -> B -> Prop)
    (l : list A) :
  (forall x y, R1 x y -> R2 (f x) (f y)) ->
  StronglySorted R1 l -> StronglySorted R2 (map f l).
Proof.
  intros Hf. induction 1 as [|x l Hl IH Hx]; simpl; constructor; [done|].
  apply Forall_forall. intros y Hy. apply list_elem_of_In, in_map_iff in Hy as (z & <- & Hz).
  rewrite Forall_forall in Hx. apply Hf, Hx. by apply list_elem_of_In.
Qed.

Lemma StronglySorted_lookup {A} (R : A -> A -> Prop) (l : list A) :
  StronglySorted R l ->
  forall (i j : nat) (a b : A), l !! i = Some a -> l !! j = Some b -> (i < j)%nat -> R a b.
Proof.
  induction 1 as [|x l Hl IH Hx]; intros i j a b Hi Hj Hij; [done|].
  destruct j as [|j]; [lia|]. simpl in Hj. destruct i as [|i]; simpl in Hi.
  - injection Hi as ->. rewrite Forall_forall in Hx. apply Hx. by eapply list_elem_of_lookup_2.
  - eapply IH; eauto. lia.
Qed.

Lemma boundary_lt (d : datetime) (j m : nat) : (j < m)%nat -> boundary d j < boundary d m.
Proof. unfold_units. lia. Qed.

Lemma run_interval_minutes (d : datetime) (r : nat * nat) :
  interval_minutes (run_interval d r) = 30 * run_slots r.
Proof.
  unfold interval_minutes, run_interval, run_slots, boundary. simpl.
  replace (d + Z.of_nat r.2 * HALF_HOUR - (d + Z.of_nat r.1 * HALF_HOUR))
    with ((30 * (Z.of_nat r.2 - Z.of_nat r.1)) * US_PER_MINUTE) by (unfold_units; lia).
  apply Z.div_mul. done.
Qed.

Lemma total_minutes_from (ivs : list Interval) (acc : Z) :
  fold_left (fun total it => total + interval_minutes it) ivs acc =
  acc + total_minutes ivs.
Proof.
  unfold total_minutes. revert acc. induction ivs as [|it ivs IH]; intros acc; simpl; [lia|].
  rewrite IH, (IH (0 + _)). lia.
Qed.

Lemma total_minutes_cons (it : Interval) (ivs : list Interval) :
  total_minutes (it :: ivs) = interval_minutes it + total_minutes ivs.
Proof. unfold total_minutes at 1. simpl. apply total_minutes_from. Qed.

Lemma total_minutes_runs (d : datetime) (runs : list (nat * nat)) :
  total_minutes (map (run_interval d) runs) = 30 * runs_slots runs.
Proof.
  induction runs as [|r runs IH]; [done|]. cbn [map].
  rewrite total_minutes_cons, run_interval_minutes, IH. unfold runs_slots. simpl. lia.
Qed.

Lemma off_slot_count_eq (slots : gmap string Z) :
  off_slot_count slots = count_off (day_off slots) 0 48.
Proof.
  unfold off_slot_count, count_off, half_hour_keys. f_equal.
  generalize (seq 0 48). intros l. induction l as [|k l IH]; [done|].
  cbn [map]. rewrite !filter_cons. unfold day_off at 1.
  destruct (decide (is_off_at slots (slot_key k) = true)); simpl; by rewrite IH.
Qed.

Arguments off_runs : simpl never.

(** ** Derived intervals: shape, order, totals *)

Lemma run_intervals_well_formed (d : datetime) (off : nat -> bool) (n : nat) :
  well_formed_intervals (map (run_interval d) (off_runs off 0 n None)).
Proof.
  assert (forall it, it ∈ map (run_interval d) (off_runs off 0 n None) -> start it < end_ it) as Hlt.
  { intros it Hit. apply list_elem_of_In, in_map_iff in Hit as ([j m] & <- & Hin).
    apply list_elem_of_In, off_runs_bounds in Hin; [|apply open_before_None].
    apply boundary_lt. simpl. lia. }
  split; [exact Hlt|].
  intros i j a b Ha Hb Hij.
  assert (end_ a < start b) as Hsep.
  { eapply (StronglySorted_lookup (fun x y => end_ x < start y)); [|exact Ha|exact Hb|exact Hij].
    eapply StronglySorted_map; [|apply off_runs_separated, open_before_None].
    intros [j1 m1] [j2 m2] Hr. apply boundary_lt. exact Hr. }
  assert (start a < end_ a) by (apply Hlt; by eapply list_elem_of_lookup_2).
  lia.
Qed.

(** C9. Every interval derived for a day has [start < end]; the sequence is
    ordered by start, its intervals do not overlap, and no interval ends
    where a later one starts.  Off slots at "10:00" and "10:30" between on
    slots at "09:30" and "11:00" give the one interval from 10:00 to 11:00,
    which is the whole result when the map holds these four entries only. *)
Theorem derived_intervals_well_formed (date_str : string) (slots : gmap string Z)
    (ivs : list Interval) :
  slots_to_off_intervals date_str slots = Ok ivs ->
  well_formed_intervals ivs /\
  (forall d, date_to_dt date_str = Ok d ->
     let merged := {| start := at_time d 10 0 0 0; end_ := at_time d 11 0 0 0 |} in
     (slot_status slots "10:00" = 2 -> slot_status slots "10:30" = 2 ->
      slot_status slots "09:30" <> 2 -> slot_status slots "11:00" <> 2 ->
      merged ∈ ivs) /\
     (slots = example_merge_slots -> ivs = [merged])).
Proof.
  intros H. apply slots_to_off_intervals_spec in H as (d & Hd & Hr & ->).
  split; [apply run_intervals_well_formed|].
  intros d' Hd'. assert (d' = d) as -> by congruence. cbv zeta.
  assert (run_interval d (20%nat, 22%nat) =
          {| start := at_time d 10 0 0 0; end_ := at_time d 11 0 0 0 |}) as Hiv.
  { unfold run_interval. cbn [fst snd]. f_equal; unfold_units; lia. }
  split.
  - intros H1 H2 H3 H4. rewrite <- Hiv.
    apply list_elem_of_In, in_map, list_elem_of_In. unfold day_runs.
    apply off_runs_complete; [lia|lia| | |].
    + intros x Hx. assert (x = 20%nat \/ x = 21%nat) as [->| ->] by lia;
        unfold day_off, is_off_at; apply bool_decide_eq_true.
      * exact H1.
      * exact H2.
    + right. split; [lia|]. unfold day_off, is_off_at. apply bool_decide_eq_false. exact H3.
    + right. unfold day_off, is_off_at. apply bool_decide_eq_false. exact H4.
  - intros ->. rewrite <- Hiv.
    assert (day_runs example_merge_slots = [(20%nat, 22%nat)]) as -> by (vm_compute; reflexivity).
    reflexivity.
Qed.

(** C2, as the code has it. The total minutes of the intervals derived
    from a slot map are a non-negative multiple of 30: 30 minutes for each
    of the 48 keys whose status is 2. *)
Theorem total_minutes_counts_off_slots (date_str : string) (slots : gmap string Z)
    (ivs : list Interval) :
  slots_to_off_intervals date_str slots = Ok ivs ->
  0 <= total_minutes ivs /\
  (30 | total_minutes ivs) /\
  total_minutes ivs = 30 * off_slot_count slots.
Proof.
  intros H. apply slots_to_off_intervals_spec in H as (d & Hd & Hr & ->).
  assert (total_minutes (map (run_interval d) (day_runs slots)) = 30 * off_slot_count slots) as ->.
  { rewrite total_minutes_runs. unfold day_runs. rewrite off_runs_total, off_slot_count_eq. lia. }
  split; [unfold off_slot_count; lia|]. split; [|reflexivity].
  exists (off_slot_count slots). lia.
Qed.

(** C1. When the walk over the 48 boundaries of a date ends with the
    in-outage flag set, the last derived interval ends at the start of the
    next calendar day.  A slot map whose only entry is "23:30" = 2 gives the
    single interval from 23:30 to 00:00 of the next day, 30 minutes in
    total. *)
Theorem open_interval_closes_at_next_day (date_str : string) (slots : gmap string Z)
    (d : datetime) :
  date_to_dt date_str = Ok d ->
  dt_in_range (d + ONE_DAY) = true ->
  (exists st,
     walk_day date_str slots = Ok st /\
     slots_to_off_intervals date_str slots = Ok (intervals st) /\
     (in_off st = true ->
      exists init s, intervals st = init ++ [{| start := s; end_ := d + ONE_DAY |}])) /\
  (let last := {| start := at_time d 23 30 0 0; end_ := d + ONE_DAY |} in
   slots_to_off_intervals date_str last_slot_off = Ok [last] /\
   total_minutes [last] = 30).
Proof.
  intros Hd Hr. split.
  - destruct (walk_day_spec date_str slots d Hd Hr) as (st & Hw & Hiv & Hin).
    exists st. split; [exact Hw|]. split; [unfold slots_to_off_intervals; by rewrite Hw|].
    intros Hoff. rewrite Hin in Hoff.
    destruct (off_runs_last (day_off slots) 48 0 None) as (init & s & Hruns); [lia|intros _; exact Hoff|].
    exists (map (run_interval d) init), (boundary d s).
    assert (run_interval d (s, (0 + 48)%nat) =
            {| start := boundary d s; end_ := d + ONE_DAY |}) as Hlast.
    { unfold run_interval. cbn [fst snd]. f_equal; unfold_units; lia. }
    rewrite Hiv. unfold day_runs. rewrite Hruns, map_app. cbn [map]. by rewrite Hlast.
  - cbv zeta.
    assert (run_interval d (47%nat, 48%nat) =
            {| start := at_time d 23 30 0 0; end_ := d + ONE_DAY |}) as Hiv.
    { unfold run_interval. cbn [fst snd]. f_equal; unfold_units; lia. }
    split.
    + apply slots_to_off_intervals_spec. exists d. split; [exact Hd|]. split; [exact Hr|].
      assert (day_runs last_slot_off = [(47%nat, 48%nat)]) as -> by (vm_compute; reflexivity).
      cbn [map]. by rewrite Hiv.
    + rewrite <- Hiv. rewrite <- (app_nil_r [_]).
      change [run_interval d (47%nat, 48%nat)] with (map (run_interval d) [(47%nat, 48%nat)]).
      rewrite app_nil_r, total_minutes_runs. reflexivity.
Qed.

(** ** Next outage *)

Lemma insert_by_start_perm (x : Interval) (l : list Interval) :
  insert_by_start x l ≡ₚ x :: l.
Proof.
  induction l as [|y l IH]; simpl; [done|].
  case_bool_decide; [done|]. rewrite IH. apply Permutation_swap.
Qed.

Lemma sorted_by_start_perm (l : list Interval) : sorted_by_start l ≡ₚ l.
Proof.
  induction l as [|x l IH]; simpl; [done|].
  rewrite insert_by_start_perm. by rewrite IH.
Qed.

Lemma insert_by_start_sorted (x : Interval) (l : list Interval) :
  ascending_starts l -> ascending_starts (insert_by_start x l).
Proof.
  unfold ascending_starts. induction 1 as [|y l Hl IH Hy]; simpl.
  - repeat constructor.
  - case_bool_decide as Hxy.
    + constructor; [by constructor|]. constructor; [done|].
      eapply Forall_impl; [exact Hy|]. simpl. intros z Hz. lia.
    + constructor; [exact IH|].
      rewrite insert_by_start_perm. constructor; [lia|done].
Qed.

Lemma sorted_by_start_sorted (l : list Interval) : ascending_starts (sorted_by_start l).
Proof.
  induction l as [|x l IH]; simpl; [constructor|]. by apply insert_by_start_sorted.
Qed.

(** The loop returns the start of the first listed interval that starts
    after [now]. *)
Lemma first_start_after_head (now : datetime) (l : list Interval) :
  first_start_after now l = start <$> head (filter (fun it => now < start it) l).
Proof.
  induction l as [|it l IH]; simpl; [done|]. rewrite filter_cons.
  case_bool_decide; destruct (decide (now < start it)); try lia; [done|exact IH].
Qed.

Lemma first_start_after_Some (now : datetime) (l : list Interval) (s : datetime) :
  first_start_after now l = Some s ->
  exists l1 it l2, l = l1 ++ it :: l2 /\ start it = s /\ now < s /\
                   Forall (fun x => start x <= now) l1.
Proof.
  induction l as [|it l IH]; simpl; [done|]. case_bool_decide as Hit.
  - intros [= <-]. exists [], it, l. repeat split; [lia|constructor].
  - intros H. destruct (IH H) as (l1 & it' & l2 & -> & Hs & Hlt & Hall).
    exists (it :: l1), it', l2. repeat split; [done|done|]. constructor; [lia|done].
Qed.

Lemma first_start_after_None (now : datetime) (l : list Interval) :
  first_start_after now l = None <-> forall it, it ∈ l -> start it <= now.
Proof.
  induction l as [|it l IH]; simpl.
  - split; [|done]. intros _ x Hx. by apply elem_of_nil in Hx.
  - case_bool_decide as Hit; split.
    + done.
    + intros H. specialize (H it ltac:(constructor)). lia.
    + intros H x Hx. apply elem_of_cons in Hx as [->|Hx]; [lia|]. by apply IH.
    + intros H. apply IH. intros x Hx. apply H. by constructor.
Qed.

(** What the search returns: the least start after [now], if there is one. *)
Lemma find_next_outage_Some (now : datetime) (today_off tomorrow_off : list Interval)
    (s : datetime) :
  find_next_outage now today_off tomorrow_off = Some s ->
  now < s /\
  (exists it, it ∈ today_off ++ tomorrow_off /\ start it = s) /\
  (forall it, it ∈ today_off ++ tomorrow_off -> now < start it -> s <= start it).
Proof.
  unfold find_next_outage. intros H.
  pose proof (sorted_by_start_perm (today_off ++ tomorrow_off)) as Hperm.
  pose proof (sorted_by_start_sorted (today_off ++ tomorrow_off)) as Hsort.
  destruct (first_start_after_Some _ _ _ H) as (l1 & it & l2 & Heq & Hs & Hlt & Hall).
  rewrite Heq in Hperm, Hsort. split; [done|]. split.
  - exists it. split; [|done]. rewrite <- Hperm. apply elem_of_app. right. constructor.
  - intros x Hx Hfut. rewrite <- Hperm in Hx.
    apply elem_of_app in Hx as [Hx|Hx].
    + rewrite Forall_forall in Hall. specialize (Hall x Hx). lia.
    + apply elem_of_cons in Hx as [->|Hx]; [lia|].
      apply StronglySorted_app_1_r in Hsort.
      apply StronglySorted_inv in Hsort as [_ Hle].
      rewrite Forall_forall in Hle. specialize (Hle x Hx). lia.
Qed.

Lemma find_next_outage_None (now : datetime) (today_off tomorrow_off : list Interval) :
  find_next_outage now today_off tomorrow_off = None <->
  forall it, it ∈ today_off ++ tomorrow_off -> start it <= now.
Proof.
  unfold find_next_outage. rewrite first_start_after_None.
  split; intros H it Hit; apply H.
  - by rewrite sorted_by_start_perm.
  - by rewrite <- sorted_by_start_perm.
Qed.

Lemma find_next_outage_least (now : datetime) (today_off tomorrow_off : list Interval)
    (s : datetime) :
  (exists it, it ∈ today_off ++ tomorrow_off /\ start it = s) ->
  now < s ->
  (forall it, it ∈ today_off ++ tomorrow_off -> now < start it -> s <= start it) ->
  find_next_outage now today_off tomorrow_off = Some s.
Proof.
  intros (it & Hit & Hs) Hlt Hmin.
  destruct (find_next_outage now today_off tomorrow_off) as [s'|] eqn:Hf.
  - apply find_next_outage_Some in Hf as (Hlt' & (it' & Hit' & Hs') & Hmin').
    f_equal. specialize (Hmin it' Hit'). specialize (Hmin' it Hit). lia.
  - rewrite find_next_outage_None in Hf. specialize (Hf it Hit). lia.
Qed.

(** C3. The next-outage search returns the start of the first interval, in
    the list of both days sorted by ascending start, that starts strictly
    after [now]: the least such start.  An interval that contains [now] is
    never the one returned, and when no interval starts after [now] the
    result is [None]. *)
Theorem next_outage_first_future_start (now : datetime)
    (today_off tomorrow_off : list Interval) :
  let merged := sorted_by_start (today_off ++ tomorrow_off) in
  let result := find_next_outage now today_off tomorrow_off in
  merged ≡ₚ today_off ++ tomorrow_off /\
  ascending_starts merged /\
  result = start <$> head (filter (fun it => now < start it) merged) /\
  (forall s, result = Some s ->
     now < s /\
     (exists it, it ∈ today_off ++ tomorrow_off /\ start it = s) /\
     (forall it, it ∈ today_off ++ tomorrow_off -> now < start it -> s <= start it)) /\
  (forall it, it ∈ today_off ++ tomorrow_off ->
     start it <= now < end_ it -> result <> Some (start it)) /\
  (result = None <-> forall it, it ∈ today_off ++ tomorrow_off -> start it <= now).
Proof.
  cbv zeta. split; [apply sorted_by_start_perm|]. split; [apply sorted_by_start_sorted|].
  split; [apply first_start_after_head|]. split; [intros s; apply find_next_outage_Some|].
  split; [|apply find_next_outage_None].
  intros it Hit [Hle _] H. apply find_next_outage_Some in H as [Hlt _]. lia.
Qed.

(** ** An outage that runs across midnight *)

Lemma off_runs_S (off : nat -> bool) (i n : nat) (open : option nat) :
  off_runs off i (S n) open =
  if off i then off_runs off (S i) n (Some (default i open))
  else closing open i ++ off_runs off (S i) n None.
Proof. reflexivity. Qed.

Lemma day_runs_first_off (slots : gmap string Z) :
  day_off slots 0 = true -> exists m rest, day_runs slots = (0%nat, m) :: rest.
Proof.
  intros H. unfold day_runs. rewrite off_runs_S, H. apply off_runs_open_head.
Qed.

(** With the slots from [k] on all off, no run starts after slot [k], and
    the last run reaches the end of the walk. *)
Lemma off_runs_trailing_off (off : nat -> bool) (n k : nat) :
  (k < n)%nat ->
  (forall x, (k <= x < n)%nat -> off x = true) ->
  (forall j m, (j, m) ∈ off_runs off 0 n None -> (j <= k)%nat) /\
  (exists s, (s, n) ∈ off_runs off 0 n None /\ (s <= k)%nat).
Proof.
  intros Hk Hoff.
  assert (forall j m, (j, m) ∈ off_runs off 0 n None -> (j <= k)%nat) as Hstart.
  { intros j m Hin.
    pose proof (off_runs_bounds off n 0 None j m (open_before_None 0) Hin) as (_ & Hjm & Hm).
    apply off_runs_start in Hin as [[=]|(_ & _ & [[-> _]|[Hpos Hprev]])]; [lia|].
    destruct (decide (j <= k)%nat) as [|Hgt]; [done|].
    rewrite Hoff in Hprev by lia. done. }
  split; [exact Hstart|].
  destruct (off_runs_last off n 0 None) as (init & s & Hruns); [lia| |].
  { intros _. apply Hoff. lia. }
  assert ((s, n) ∈ off_runs off 0 n None) as Hin.
  { rewrite Hruns. apply elem_of_app. right. constructor. }
  exists s. split; [exact Hin|]. by eapply Hstart.
Qed.

Lemma day_runs_trailing_off (slots : gmap string Z) (k : nat) :
  (k < 48)%nat ->
  (forall x, (k <= x < 48)%nat -> day_off slots x = true) ->
  (forall j m, (j, m) ∈ day_runs slots -> (j <= k)%nat) /\
  (exists s, (s, 48%nat) ∈ day_runs slots /\ (s <= k)%nat).
Proof. exact (off_runs_trailing_off (day_off slots) 48 k). Qed.

Lemma elem_of_run_intervals (d : datetime) (runs : list (nat * nat)) (it : Interval) :
  it ∈ map (run_interval d) runs <-> exists r, r ∈ runs /\ it = run_interval d r.
Proof.
  rewrite list_elem_of_In, in_map_iff. split.
  - intros (r & <- & Hr). exists r. by rewrite list_elem_of_In.
  - intros (r & Hr & ->). exists r. by rewrite <- list_elem_of_In.
Qed.

(** C10. While [now] lies in an outage that runs across midnight (today's
    slots from some slot on are all off, [now] is past the start of that
    slot, and tomorrow's "00:00" slot is off), today's intervals hold one
    that contains [now] and ends at midnight, and the next-outage search
    returns tomorrow's 00:00: the continuation of the outage under way. *)
Theorem outage_across_midnight_is_next
    (date_today date_tomorrow : string) (slots_today slots_tomorrow : gmap string Z)
    (today_off tomorrow_off : list Interval) (d now : datetime) (k : nat) :
  date_to_dt date_today = Ok d ->
  date_to_dt date_tomorrow = Ok (d + ONE_DAY) ->
  slots_to_off_intervals date_today slots_today = Ok today_off ->
  slots_to_off_intervals date_tomorrow slots_tomorrow = Ok tomorrow_off ->
  (k < 48)%nat ->
  (forall x, (k <= x < 48)%nat -> slot_status slots_today (slot_key x) = 2) ->
  slot_status slots_tomorrow "00:00" = 2 ->
  boundary d k <= now < d + ONE_DAY ->
  (exists it, it ∈ today_off /\ start it <= now < end_ it /\ end_ it = d + ONE_DAY) /\
  find_next_outage now today_off tomorrow_off = Some (d + ONE_DAY).
Proof.
  intros Hd Hd1 Htoday Htomorrow Hk Htrail Hfirst Hnow.
  apply slots_to_off_intervals_spec in Htoday as (d' & Hd' & _ & ->).
  assert (d' = d) as -> by congruence.
  apply slots_to_off_intervals_spec in Htomorrow as (d1 & Hd1' & _ & ->).
  assert (d1 = d + ONE_DAY) as -> by congruence.
  destruct (day_runs_trailing_off slots_today k Hk) as (Hstart & s & Hlast & Hs).
  { intros x Hx. unfold day_off, is_off_at. apply bool_decide_eq_true. by apply Htrail. }
  assert (boundary d s <= boundary d k) as Hsk by (unfold_units; lia).
  assert (boundary d 48 = d + ONE_DAY) as Hend by (unfold_units; lia).
  split.
  - exists (run_interval d (s, 48%nat)). split; [apply elem_of_run_intervals; eauto|].
    unfold run_interval. cbn [start end_ fst snd]. lia.
  - destruct (day_runs_first_off slots_tomorrow) as (m & rest & Hruns).
    { unfold day_off, is_off_at. apply bool_decide_eq_true. exact Hfirst. }
    apply find_next_outage_least; [|lia|].
    + exists (run_interval (d + ONE_DAY) (0%nat, m)). split.
      * apply elem_of_app. right. apply elem_of_run_intervals.
        exists (0%nat, m). split; [|done]. rewrite Hruns. constructor.
      * unfold run_interval. cbn [start fst]. unfold_units. lia.
    + intros it Hit Hfut. apply elem_of_app in Hit as [Hit|Hit];
        apply elem_of_run_intervals in Hit as ([j m'] & Hin & ->);
        unfold run_interval in *; cbn [start fst] in *.
      * specialize (Hstart j m' Hin).
        assert (boundary d j <= boundary d k) by (unfold_units; lia). lia.
      * unfold_units. lia.
Qed.

(** ** Current power *)

(** Rounding down gives the half-hour boundary that encloses the instant. *)
Lemma round_down_encloses (now : datetime) :
  let r := round_down_to_half_hour now in
  r <= now < r + HALF_HOUR /\ (HALF_HOUR | r).
Proof.
  cbv zeta. unfold round_down_to_half_hour, dt_minute, dt_replace_minute.
  case_bool_decide as Hm; (split; [|]); unfold_units.
  - Z.to_euclidean_division_equations. lia.
  - exists (2 * (now / 3600000000)). Z.to_euclidean_division_equations. lia.
  - Z.to_euclidean_division_equations. lia.
  - exists (2 * (now / 3600000000) + 1). Z.to_euclidean_division_equations. lia.
Qed.

(** The rounded instant lies in a day exactly when the instant does, and
    it is then the boundary of the slot the instant falls in. *)
Lemma round_down_in_day (now : datetime) (ord : Z) :
  let d := ord * US_PER_DAY in
  let r := round_down_to_half_hour now in
  ((d <= r < d + ONE_DAY) <-> (d <= now < d + ONE_DAY)) /\
  (d <= now -> r = boundary d (Z.to_nat ((now - d) / HALF_HOUR))).
Proof.
  cbv zeta. destruct (round_down_encloses now) as [Hr [q Hq]]. cbv zeta in Hr.
  set (r := round_down_to_half_hour now) in *. clearbody r. subst r.
  unfold_units. split; [split; lia|].
  intros Hle. rewrite Z2Nat.id by (Z.to_euclidean_division_equations; lia).
  Z.to_euclidean_division_equations. lia.
Qed.

Lemma is_now_has_power_eval (now : datetime) (date_today : string)
    (slots_today : gmap string Z) (d : datetime) :
  date_to_dt date_today = Ok d ->
  dt_in_range (d + ONE_DAY) = true ->
  is_now_has_power now date_today slots_today =
  Ok (if bool_decide (d <= round_down_to_half_hour now < d + ONE_DAY)
      then bool_decide (slot_status slots_today (time_str_from_dt (round_down_to_half_hour now)) = 1)
      else true).
Proof.
  intros Hd Hr. unfold is_now_has_power. rewrite Hd, bind_Ok_l.
  set (r := round_down_to_half_hour now).
  destruct (decide (d <= r)) as [H1|H1].
  - rewrite (bool_decide_eq_true_2 (d <= r)) by done.
    rewrite dt_add_in_range, !bind_Ok_l by done.
    destruct (decide (r < d + ONE_DAY)) as [H2|H2].
    + rewrite (bool_decide_eq_true_2 (r < d + ONE_DAY)) by done.
      by rewrite (bool_decide_eq_true_2 (d <= r < d + ONE_DAY)) by lia.
    + rewrite (bool_decide_eq_false_2 (r < d + ONE_DAY)) by done.
      by rewrite (bool_decide_eq_false_2 (d <= r < d + ONE_DAY)) by lia.
  - rewrite (bool_decide_eq_false_2 (d <= r)) by done. rewrite bind_Ok_l.
    by rewrite (bool_decide_eq_false_2 (d <= r < d + ONE_DAY)) by lia.
Qed.

(** C4. The current-power check rounds [now] down to the half-hour boundary
    that encloses it.  If that boundary lies within the day of the date it
    answers whether the status of the boundary's slot, 1 when the key is
    absent, is 1; if the boundary lies outside the day it answers power-on.
    The boundary is in the day exactly when [now] is, and its key is that of
    the slot [now] falls in.  At 10:15 with slot "10:00" = 2 the answer is
    no power. *)
Theorem current_power_from_enclosing_slot (now : datetime) (date_today : string)
    (slots_today : gmap string Z) (d : datetime) :
  date_to_dt date_today = Ok d ->
  dt_in_range (d + ONE_DAY) = true ->
  let r := round_down_to_half_hour now in
  (r <= now < r + HALF_HOUR /\ (HALF_HOUR | r)) /\
  ((d <= r < d + ONE_DAY) <-> (d <= now < d + ONE_DAY)) /\
  (d <= r < d + ONE_DAY ->
   time_str_from_dt r = slot_key (Z.to_nat ((now - d) / HALF_HOUR)) /\
   is_now_has_power now date_today slots_today =
   Ok (bool_decide (default 1 (slots_today !! time_str_from_dt r) = 1))) /\
  (~ (d <= r < d + ONE_DAY) -> is_now_has_power now date_today slots_today = Ok true) /\
  (now = at_time d 10 15 0 0 -> slots_today !! "10:00"%string = Some 2 ->
   is_now_has_power now date_today slots_today = Ok false).
Proof.
  intros Hd Hr. cbv zeta.
  destruct (date_to_dt_midnight _ _ Hd) as (ord & -> & Hord).
  destruct (round_down_in_day now ord) as [Hiff Hkey]. cbv zeta in Hiff, Hkey.
  pose proof (is_now_has_power_eval now date_today slots_today _ Hd Hr) as Heval.
  split; [apply round_down_encloses|]. split; [exact Hiff|].
  assert (forall k : nat, ord * US_PER_DAY <= now ->
            k = Z.to_nat ((now - ord * US_PER_DAY) / HALF_HOUR) ->
            time_str_from_dt (round_down_to_half_hour now) = slot_key k) as Hslot.
  { intros k Hle ->. rewrite Hkey by done. apply time_str_boundary. }
  split; [|split].
  - intros Hin. split; [apply Hslot; [lia|done]|].
    rewrite Heval. by rewrite bool_decide_eq_true_2.
  - intros Hout. rewrite Heval. by rewrite bool_decide_eq_false_2.
  - intros -> Hs. rewrite Heval.
    assert (ord * US_PER_DAY <= at_time (ord * US_PER_DAY) 10 15 0 0 < ord * US_PER_DAY + ONE_DAY)
      as Hday by (unfold_units; lia).
    rewrite bool_decide_eq_true_2 by (by apply Hiff).
    rewrite (Hslot 20%nat); [|lia|].
    + change (slot_key 20) with "10:00"%string. unfold slot_status. rewrite Hs. done.
    + replace (at_time (ord * US_PER_DAY) 10 15 0 0 - ord * US_PER_DAY) with 36900000000
        by (unfold_units; lia).
      reflexivity.
Qed.

(** ** Minutes until the next outage *)

Lemma next_outage_in_minutes_nonneg (next_outage_start : option datetime) (now : datetime)
    (n : Z) :
  next_outage_in_minutes next_outage_start now = Some n -> 0 <= n.
Proof. destruct next_outage_start; simpl; [intros [= <-]; lia | done]. Qed.

Lemma date_to_dt_feb11 : date_to_dt "2026-02-11" = Ok feb11.
Proof. vm_compute. reflexivity. Qed.

Lemma date_to_dt_feb12 : date_to_dt "2026-02-12" = Ok (feb11 + ONE_DAY).
Proof. vm_compute. reflexivity. Qed.

(** C8, at the input where the code leaves the claim. From 09:58:59.5 to an
    outage at 10:00:00 there are 60.5 seconds: the code answers 1 minute,
    the ceiling is 2. *)
Theorem minutes_until_below_ceiling :
  let now := at_time feb11 9 58 59 500000 in
  let next_outage_start := at_time feb11 10 0 0 0 in
  now < next_outage_start /\
  next_outage_start - now = 60 * US_PER_SECOND + 500000 /\
  next_outage_in_minutes (Some next_outage_start) now = Some 1 /\
  ceil_minutes (next_outage_start - now) = 2.
Proof. cbv zeta. repeat split; vm_compute; reflexivity. Qed.

(** ** Worked instances *)

(** C2 as the specification words it (1800 per off slot) fails: one off
    slot gives 30 minutes. *)
Lemma total_minutes_not_1800_per_slot :
  let ivs := [{| start := at_time feb11 23 30 0 0; end_ := feb11 + ONE_DAY |}] in
  slots_to_off_intervals "2026-02-11" last_slot_off = Ok ivs /\
  off_slot_count last_slot_off = 1 /\
  total_minutes ivs = 30 /\
  total_minutes ivs <> 1800 * off_slot_count last_slot_off.
Proof. cbv zeta. repeat split; try (vm_compute; reflexivity). vm_compute. discriminate. Qed.

(** The total of one off slot, by the theorem. *)
Lemma total_minutes_counts_off_slots_witness :
  let ivs := [{| start := at_time feb11 23 30 0 0; end_ := feb11 + ONE_DAY |}] in
  slots_to_off_intervals "2026-02-11" last_slot_off = Ok ivs /\
  total_minutes ivs = 30 * off_slot_count last_slot_off.
Proof.
  cbv zeta.
  assert (slots_to_off_intervals "2026-02-11" last_slot_off =
          Ok [{| start := at_time feb11 23 30 0 0; end_ := feb11 + ONE_DAY |}]) as H
    by (vm_compute; reflexivity).
  split; [exact H|].
  exact (proj2 (proj2 (total_minutes_counts_off_slots _ _ _ H))).
Defined.

(** The last slot of 2026-02-11 off: one interval, closed at midnight. *)
Lemma open_interval_closes_at_next_day_witness :
  date_to_dt "2026-02-11" = Ok feb11 /\
  dt_in_range (feb11 + ONE_DAY) = true /\
  slots_to_off_intervals "2026-02-11" last_slot_off =
    Ok [{| start := at_time feb11 23 30 0 0; end_ := feb11 + ONE_DAY |}].
Proof.
  assert (dt_in_range (feb11 + ONE_DAY) = true) as Hr by (vm_compute; reflexivity).
  split; [exact date_to_dt_feb11|]. split; [exact Hr|].
  exact (proj1 (proj2 (open_interval_closes_at_next_day
                         "2026-02-11" last_slot_off feb11 date_to_dt_feb11 Hr))).
Defined.

(** The merged interval of 2026-02-11 is well formed. *)
Lemma derived_intervals_well_formed_witness :
  let ivs := [{| start := at_time feb11 10 0 0 0; end_ := at_time feb11 11 0 0 0 |}] in
  slots_to_off_intervals "2026-02-11" example_merge_slots = Ok ivs /\
  well_formed_intervals ivs.
Proof.
  cbv zeta.
  assert (slots_to_off_intervals "2026-02-11" example_merge_slots =
          Ok [{| start := at_time feb11 10 0 0 0; end_ := at_time feb11 11 0 0 0 |}]) as H
    by (vm_compute; reflexivity).
  split; [exact H|].
  exact (proj1 (derived_intervals_well_formed _ _ _ H)).
Defined.

(** 10:15 on 2026-02-11 with slot "10:00" off: no power. *)
Lemma current_power_from_enclosing_slot_witness :
  date_to_dt "2026-02-11" = Ok feb11 /\
  dt_in_range (feb11 + ONE_DAY) = true /\
  is_now_has_power (at_time feb11 10 15 0 0) "2026-02-11" {[ "10:00"%string := 2 ]} = Ok false.
Proof.
  assert (dt_in_range (feb11 + ONE_DAY) = true) as Hr by (vm_compute; reflexivity).
  split; [exact date_to_dt_feb11|]. split; [exact Hr|].
  apply (current_power_from_enclosing_slot (at_time feb11 10 15 0 0) "2026-02-11"
           {[ "10:00"%string := 2 ]} feb11 date_to_dt_feb11 Hr).
  - reflexivity.
  - vm_compute. reflexivity.
Defined.

(** At 23:45 of an evening outage that goes on after midnight, the next
    outage reported is 00:00. *)
Lemma outage_across_midnight_is_next_witness :
  let today_off := [{| start := at_time feb11 23 0 0 0; end_ := feb11 + ONE_DAY |}] in
  let tomorrow_off :=
    [{| start := feb11 + ONE_DAY; end_ := at_time (feb11 + ONE_DAY) 0 30 0 0 |}] in
  let now := at_time feb11 23 45 0 0 in
  date_to_dt "2026-02-11" = Ok feb11 /\
  date_to_dt "2026-02-12" = Ok (feb11 + ONE_DAY) /\
  slots_to_off_intervals "2026-02-11" evening_off = Ok today_off /\
  slots_to_off_intervals "2026-02-12" midnight_off = Ok tomorrow_off /\
  (forall x, (46 <= x < 48)%nat -> slot_status evening_off (slot_key x) = 2) /\
  slot_status midnight_off "00:00" = 2 /\
  boundary feb11 46 <= now < feb11 + ONE_DAY /\
  find_next_outage now today_off tomorrow_off = Some (feb11 + ONE_DAY).
Proof.
  cbv zeta.
  assert (slots_to_off_intervals "2026-02-11" evening_off =
          Ok [{| start := at_time feb11 23 0 0 0; end_ := feb11 + ONE_DAY |}]) as H1
    by (vm_compute; reflexivity).
  assert (slots_to_off_intervals "2026-02-12" midnight_off =
          Ok [{| start := feb11 + ONE_DAY; end_ := at_time (feb11 + ONE_DAY) 0 30 0 0 |}]) as H2
    by (vm_compute; reflexivity).
  assert (forall x, (46 <= x < 48)%nat -> slot_status evening_off (slot_key x) = 2) as H3.
  { intros x Hx. assert (x = 46%nat \/ x = 47%nat) as [->| ->] by lia; vm_compute; reflexivity. }
  assert (slot_status midnight_off "00:00" = 2) as H4 by (vm_compute; reflexivity).
  assert (boundary feb11 46 <= at_time feb11 23 45 0 0 < feb11 + ONE_DAY) as H5
    by (vm_compute; split; [discriminate|reflexivity]).
  repeat (split; [first [exact date_to_dt_feb11 | exact date_to_dt_feb12 | assumption]|]).
  exact (proj2 (outage_across_midnight_is_next _ _ _ _ _ _ feb11 _ 46
                  date_to_dt_feb11 date_to_dt_feb12 H1 H2 ltac:(lia) H3 H4 H5)).
Defined.

(** ** Change fingerprint *)

(** The model of SHA-256 on the test vectors of the standard. *)
Lemma sha256_test_vectors :
  sha256_hexdigest (bytes_of_string "abc") =
    "ba7816bf8f01cfea414140de5dae2223b00361a396177a9cb410ff61f20015ad"%string /\
  sha256_hexdigest (bytes_of_string "") =
    "e3b0c44298fc1c149afbf4c8996fb92427ae41e4649b934ca495991b7852b855"%string /\
  sha256_hexdigest
    (bytes_of_string "abcdbcdecdefdefgefghfghighijhijkijkljklmklmnlmnomnopnopq") =
    "248d6a61d20638b8e5c026930c3e6039a33ce45964ff2167f6ecedd419db06c1"%string.
Proof. repeat split; vm_compute; reflexivity. Qed.

(** *** The digest takes one of [2 ^ 256] values *)







(** *** Text of an integer *)

Lemma to_int_not_nil (z : Z) : Z.to_int z <> Decimal.Pos Decimal.Nil /\ Z.to_int z <> Decimal.Neg Decimal.Nil.
Proof.
  destruct z as [|p|p]; simpl; split; try discriminate;
    intros [= H]; by apply Unsigned.to_uint_nonnil in H.
Qed.

Lemma py_str_int_inj (a b : Z) : py_str_int a = py_str_int b -> a = b.
Proof.
  unfold py_str_int. intros H. apply (f_equal NilZero.int_of_string) in H.
  destruct (to_int_not_nil a), (to_int_not_nil b).
  rewrite !NilZero.isi in H by done. injection H as H. by apply DecimalZ.to_int_inj.
Qed.

Lemma no_bar_uint (d : Decimal.uint) : no_bar (NilEmpty.string_of_uint d).
Proof. induction d; simpl; (split; [discriminate|done]) || done. Qed.

Lemma no_bar_py_str_int (z : Z) : no_bar (py_str_int z).
Proof.
  unfold py_str_int, NilZero.string_of_int, NilZero.string_of_uint.
  destruct (Z.to_int z) as [d|d]; [|split; [discriminate|]];
    (destruct d; [simpl; split; [discriminate|done] | apply no_bar_uint ..]).
Qed.

Lemma String_inj (c : ascii) (x y : string) : String c x = String c y -> x = y.
Proof. by intros [= ->]. Qed.

Lemma str_app_cons (x : ascii) (a b : string) : String x a +:+ b = String x (a +:+ b).
Proof. reflexivity. Qed.

Lemma str_app_assoc (a b c : string) : (a +:+ b) +:+ c = a +:+ (b +:+ c).
Proof. induction a as [|x a IH]; [done|]. by rewrite !str_app_cons, IH. Qed.

Lemma str_app_empty_r (a : string) : a +:+ "" = a.
Proof. induction a as [|x a IH]; [done|]. by rewrite str_app_cons, IH. Qed.

(** Two texts free of the separator, each followed by a separator or the
    end, are told apart by what follows them. *)
Lemma split_at_bar (u : string) :
  forall (u' t t' : string),
    no_bar u -> no_bar u' -> bar_or_end t -> bar_or_end t' ->
    u +:+ t = u' +:+ t' -> u = u' /\ t = t'.
Proof.
  induction u as [|c u IH]; intros u' t t' Hu Hu' Ht Ht' Heq.
  - destruct u' as [|c' u']; [done|]. rewrite str_app_cons in Heq.
    change ("" +:+ t) with t in Heq. destruct Hu' as [Hc _].
    destruct Ht as [->|[r ->]]; [done|]. injection Heq as <- _. done.
  - destruct u' as [|c' u']; rewrite ?str_app_cons in Heq.
    + change ("" +:+ t') with t' in Heq. destruct Hu as [Hc _].
      destruct Ht' as [->|[r ->]]; [done|]. injection Heq as -> _. done.
    + destruct Hu as [_ Hu], Hu' as [_ Hu']. injection Heq as -> Heq.
      destruct (IH u' t t' Hu Hu' Ht Ht' Heq) as [-> ->]. done.
Qed.

(** *** The normalized text as a row of fields *)

Lemma join_render (tail : string) (fs : list (string * Z)) :
  fs <> [] -> join "|" (map field_text fs) +:+ tail = render_fields tail fs.
Proof.
  induction fs as [|f fs IH]; [done|]. intros _. destruct fs as [|g fs].
  - change (join "|" (map field_text [f])) with (field_text f).
    unfold field_text. by rewrite str_app_assoc.
  - change (join "|" (map field_text (f :: g :: fs)))
      with (field_text f +:+ "|" +:+ join "|" (map field_text (g :: fs))).
    rewrite !str_app_assoc, IH by done. unfold field_text at 1. by rewrite str_app_assoc.
Qed.

Lemma render_fields_inj (fs : list (string * Z)) :
  forall (fs' : list (string * Z)) (tail tail' : string),
    map fst fs = map fst fs' -> bar_or_end tail -> bar_or_end tail' ->
    render_fields tail fs = render_fields tail' fs' ->
    map snd fs = map snd fs' /\ tail = tail'.
Proof.
  induction fs as [|[pre x] fs IH]; intros fs' tail tail' Hpre Ht Ht' Heq;
    destruct fs' as [|[pre' x'] fs']; try discriminate; [done|].
  injection Hpre as <- Hpre. cbn [render_fields fst snd] in Heq.
  apply String.app_inj in Heq.
  apply split_at_bar in Heq as [Hx Hrest]; [|apply no_bar_py_str_int..| |].
  - apply py_str_int_inj in Hx as <-.
    destruct fs as [|g fs], fs' as [|g' fs']; try discriminate; [done|].
    injection Hrest as Hrest. destruct (IH _ _ _ Hpre Ht Ht' Hrest) as [Hs ->].
    cbn [map snd] in Hs |- *. split; [congruence|done].
  - destruct fs; [done|right; eauto].
  - destruct fs'; [done|right; eauto].
Qed.

(** *** The normalized text of a day *)

Lemma iter_half_hours_inv (d : datetime) (times : list datetime) :
  MINORDINAL * US_PER_DAY <= d ->
  iter_half_hours d = Ok times ->
  times = map (boundary d) (seq 0 48) /\ dt_in_range (d + ONE_DAY) = true.
Proof.
  intros Hmin H. assert (dt_in_range (d + ONE_DAY) = true) as Hr.
  { unfold iter_half_hours in H. inv_bind H. by apply dt_add_Ok in Ha as [_ ?]. }
  rewrite iter_half_hours_eq in H by done. by injection H as <-.
Qed.

Lemma slots_normalized_spec (date_str : string) (slots : gmap string Z) (n : string) :
  slots_normalized_for_hash date_str slots = Ok n <->
  exists d, date_to_dt date_str = Ok d /\ dt_in_range (d + ONE_DAY) = true /\
            n = join "|" (map field_text (day_fields date_str slots d)).
Proof.
  assert (forall ord, map (slot_part date_str slots) (map (boundary (ord * US_PER_DAY)) (seq 0 48)) =
                      map field_text (day_fields date_str slots (ord * US_PER_DAY))) as Hparts.
  { intros ord. unfold day_fields. rewrite !map_map. apply map_ext. intros k.
    unfold slot_part, field_text. cbn [fst snd]. by rewrite time_str_boundary. }
  unfold slots_normalized_for_hash. split.
  - intros H. inv_bind H. inv_bind H. injection H as <-.
    destruct (date_to_dt_midnight _ _ Ha) as (ord & -> & Hord).
    apply iter_half_hours_inv in Ha0 as [-> Hr]; [|unfold_units; lia].
    exists (ord * US_PER_DAY). by rewrite Hparts.
  - intros (d & Hd & Hr & ->). rewrite Hd, bind_Ok_l.
    destruct (date_to_dt_midnight _ _ Hd) as (ord & -> & Hord).
    rewrite iter_half_hours_eq, bind_Ok_l by (done || unfold_units; lia).
    by rewrite Hparts.
Qed.

Lemma day_fields_nonempty (date_str : string) (slots : gmap string Z) (d : datetime) :
  day_fields date_str slots d <> [].
Proof.
  intros H. apply (f_equal length) in H. unfold day_fields in H.
  rewrite List.length_map, List.length_seq in H. discriminate.
Qed.

Lemma day_fields_prefixes (date_str : string) (a b : gmap string Z) (d : datetime) :
  map fst (day_fields date_str a d) = map fst (day_fields date_str b d).
Proof. unfold day_fields. by rewrite !map_map. Qed.

Lemma day_fields_statuses (date_str : string) (a b : gmap string Z) (d : datetime) :
  map snd (day_fields date_str a d) = map snd (day_fields date_str b d) <->
  same_effective_status a b.
Proof.
  unfold day_fields, same_effective_status, half_hour_keys. rewrite !map_map. cbn [snd].
  rewrite map_ext_in_iff. split.
  - intros H key Hkey. apply list_elem_of_In, in_map_iff in Hkey as (k & <- & Hk). by apply H.
  - intros H k Hk. apply H, list_elem_of_In, in_map, Hk.
Qed.

Lemma day_fields_same (date_str : string) (a b : gmap string Z) (d : datetime) :
  same_effective_status a b -> day_fields date_str a d = day_fields date_str b d.
Proof.
  intros H. unfold day_fields. apply map_ext_in. intros k Hk. f_equal.
  apply H, list_elem_of_In, in_map, Hk.
Qed.


Lemma schedule_text_Ok (date_today : string) (slots_today : gmap string Z)
    (date_tomorrow : string) (slots_tomorrow : gmap string Z) (t : string) :
  schedule_text date_today slots_today date_tomorrow slots_tomorrow = Ok t ->
  exists d1 d2,
    date_to_dt date_today = Ok d1 /\ date_to_dt date_tomorrow = Ok d2 /\
    t = render_fields (String "|" (String "|"
          (render_fields "" (day_fields date_tomorrow slots_tomorrow d2))))
          (day_fields date_today slots_today d1).
Proof.
  unfold schedule_text. intros H. inv_bind H. inv_bind H. injection H as <-.
  apply slots_normalized_spec in Ha as (d1 & Hd1 & _ & ->).
  apply slots_normalized_spec in Ha0 as (d2 & Hd2 & _ & ->).
  exists d1, d2. split; [done|]. split; [done|].
  rewrite <- (str_app_empty_r (join "|" (map field_text (day_fields date_tomorrow _ d2)))).
  rewrite (join_render "") by apply day_fields_nonempty.
  change ("||" +:+ ?x)%string with (String "|" (String "|" x)).
  rewrite join_render by apply day_fields_nonempty. done.
Qed.

(** Two schedules for the same dates have the same hashed text exactly when
    their effective statuses agree at all 48 keys of both days. *)
Lemma schedule_text_eq_iff (date_today date_tomorrow : string)
    (a a' b b' : gmap string Z) (t t' : string) :
  schedule_text date_today a date_tomorrow b = Ok t ->
  schedule_text date_today a' date_tomorrow b' = Ok t' ->
  t = t' <-> same_effective_status a a' /\ same_effective_status b b'.
Proof.
  intros Ht Ht'.
  apply schedule_text_Ok in Ht as (d1 & d2 & Hd1 & Hd2 & ->).
  apply schedule_text_Ok in Ht' as (d1' & d2' & Hd1' & Hd2' & ->).
  assert (d1' = d1) as -> by congruence. assert (d2' = d2) as -> by congruence.
  split.
  - intros Heq.
    apply render_fields_inj in Heq as [H1 Htail];
      [|apply day_fields_prefixes|right; eauto|right; eauto].
    do 2 apply String_inj in Htail.
    apply render_fields_inj in Htail as [H2 _];
      [|apply day_fields_prefixes|by left|by left].
    split; by eapply day_fields_statuses.
  - intros [H1 H2].
    by rewrite (day_fields_same date_today a a'), (day_fields_same date_tomorrow b b').
Qed.

(** *** The digest as text *)







(** ** Slot extraction *)

(** The loop over the items keeps the values [int] accepts. *)
Lemma normalize_fold (items : gmap string json) :
  map_fold normalize_slot ∅ items = omap py_int items.
Proof.
  apply (map_fold_weak_ind (fun r m => r = omap py_int m)); [by rewrite omap_empty|].
  intros k v m r Hk ->. unfold normalize_slot. rewrite omap_insert.
  destruct (py_int v); [done|]. rewrite delete_id; [done|]. by rewrite lookup_omap, Hk.
Qed.

Lemma extract_slots_spec (block : gmap string json) (group_name date_str : string) :
  extract_slots (JDict block) group_name date_str =
  match day_block block group_name date_str with
  | Some day => Ok (omap py_int day)
  | None => Raise AttributeError
  end.
Proof.
  unfold extract_slots, day_block, child. cbn [json_get]. rewrite bind_Ok_l.
  destruct (or_empty_dict (default (JDict ∅) (block !! "schedule"%string))) as [| | | | | |s];
    try reflexivity.
  cbn [json_get mbind option_bind]. rewrite bind_Ok_l.
  destruct (or_empty_dict (default (JDict ∅) (s !! group_name))) as [| | | | | |g];
    try reflexivity.
  cbn [json_get mbind option_bind]. rewrite bind_Ok_l.
  destruct (or_empty_dict (default (JDict ∅) (g !! date_str))) as [| | | | | |day];
    try reflexivity.
  cbn [json_items]. rewrite bind_Ok_l. by rewrite normalize_fold.
Qed.


Lemma region_matches_dict (d : gmap string json) (region_cpu : string) :
  json_eq_str (default JNull (d !! "cpu"%string)) region_cpu = true <->
  region_matches (JDict d) region_cpu.
Proof.
  unfold region_matches, json_eq_str. split.
  - intros H. exists d. split; [done|].
    destruct (d !! "cpu"%string) as [[| | | |s| |]|]; try discriminate.
    apply bool_decide_eq_true in H as ->. done.
  - intros (d' & [= <-] & ->). by apply bool_decide_eq_true.
Qed.


(** *** The values [int] accepts *)






























(** ** The raw-payload cache *)

Lemma fetch_raw_hit (ttl now : Z) (reply : upstream_reply) (region_cpu : string) (w : world)
    (data : json) :
  live_entry w region_cpu now data -> fetch_raw ttl now reply region_cpu w = (Ok data, w).
Proof.
  intros (expires & Hc & Hlive). unfold fetch_raw. rewrite Hc.
  by rewrite bool_decide_eq_true_2.
Qed.

Lemma fetch_raw_miss (ttl now : Z) (reply : upstream_reply) (region_cpu : string) (w : world) :
  (forall data, ~ live_entry w region_cpu now data) ->
  fetch_raw ttl now reply region_cpu w =
  match http_get_json reply with
  | Ok data =>
      (Ok data, {| raw_cache := <[region_cpu := (now + ttl, data)]> (raw_cache w);
                   requests := S (requests w) |})
  | Raise e => (Raise e, {| raw_cache := raw_cache w; requests := S (requests w) |})
  end.
Proof.
  intros Hdead. unfold fetch_raw. destruct (raw_cache w !! region_cpu) as [[expires data]|] eqn:Hc;
    [|done].
  case_bool_decide as Hlive; [|done]. destruct (Hdead data). by exists expires.
Qed.

(** C7, as the code has it. With an unexpired entry for the region, the
    call returns its payload whatever the upstream would answer, and leaves
    the cache and the count of upstream requests as they were.  Without one,
    a failing upstream request is raised to the caller as the transport's
    own exception, after one request and with the cache exactly as before
    the call: [TimeoutError] when no response comes in time,
    [ClientResponseError] for a status of 400 or above, [JSONDecodeError]
    for a body that is not JSON.  The first two are no [ValueError]; the
    third is one, as the error of a missing region is.  A payload that does
    arrive is stored and served until it expires, also when the upstream
    fails meanwhile. *)
Theorem fetch_raw_cache_discipline (ttl now : Z) (reply : upstream_reply)
    (region_cpu : string) (w : world) :
  (forall data, live_entry w region_cpu now data ->
     fetch_raw ttl now reply region_cpu w = (Ok data, w)) /\
  ((forall data, ~ live_entry w region_cpu now data) ->
   let raises e :=
     fetch_raw ttl now reply region_cpu w =
     (Raise e, {| raw_cache := raw_cache w; requests := S (requests w) |}) in
   (reply = NoResponse ->
    raises TimeoutError /\ isinstance_ValueError TimeoutError = false) /\
   (forall status body, reply = Response status body -> 400 <= status ->
      raises (ClientResponseError status) /\
      isinstance_ValueError (ClientResponseError status) = false) /\
   (forall status, reply = Response status None -> status < 400 ->
      raises JSONDecodeError /\ isinstance_ValueError JSONDecodeError = true) /\
   (forall status data, reply = Response status (Some data) -> status < 400 ->
      let w' := {| raw_cache := <[region_cpu := (now + ttl, data)]> (raw_cache w);
                   requests := S (requests w) |} in
      fetch_raw ttl now reply region_cpu w = (Ok data, w') /\
      forall later reply', later < now + ttl ->
        fetch_raw ttl later reply' region_cpu w' = (Ok data, w'))).
Proof.
  split; [intros data Hlive; by apply fetch_raw_hit|].
  intros Hdead. cbv zeta. rewrite (fetch_raw_miss ttl now reply region_cpu w Hdead).
  split; [|split; [|split]].
  - intros ->. done.
  - intros status body -> Hst. cbn [http_get_json]. by rewrite bool_decide_eq_true_2.
  - intros status -> Hst. cbn [http_get_json]. by rewrite bool_decide_eq_false_2 by lia.
  - intros status data -> Hst. cbn [http_get_json]. rewrite bool_decide_eq_false_2 by lia.
    split; [done|]. intros later reply' Hlater. apply fetch_raw_hit.
    exists (now + ttl). cbn [raw_cache]. rewrite lookup_insert_eq. split; [done|lia].
Qed.

(** C7 as worded fails on the error of a body that is not JSON: it is a
    [ValueError], the class of the error raised for a missing region, so
    [except ValueError] catches both. *)
Lemma feed_failure_not_distinct :
  fetch_raw 600 1000 (Response 200 None) "dnipro" cached_world =
    (Raise JSONDecodeError, {| raw_cache := raw_cache cached_world; requests := 2 |}) /\
  isinstance_ValueError JSONDecodeError = true /\
  extract_region_block (sample_payload JNull) "kyiv" = Raise ValueError /\
  isinstance_ValueError ValueError = true.
Proof. repeat split; vm_compute; reflexivity. Qed.

(** An entry one second from expiry is served with the upstream down; once
    it has expired, the timeout is raised and the cache keeps the entry. *)
Lemma fetch_raw_cache_discipline_witness :
  live_entry cached_world "dnipro" 999 (sample_payload JNull) /\
  fetch_raw 600 999 NoResponse "dnipro" cached_world = (Ok (sample_payload JNull), cached_world) /\
  (forall data, ~ live_entry cached_world "dnipro" 1000 data) /\
  fetch_raw 600 1000 NoResponse "dnipro" cached_world =
    (Raise TimeoutError, {| raw_cache := raw_cache cached_world; requests := 2 |}).
Proof.
  assert (live_entry cached_world "dnipro" 999 (sample_payload JNull)) as H.
  { exists 1000. split; [reflexivity|lia]. }
  assert (forall data, ~ live_entry cached_world "dnipro" 1000 data) as Hdead.
  { intros data (expires & Hc & Hexp). assert (expires = 1000) as -> by (vm_compute in Hc; congruence).
    lia. }
  split; [exact H|].
  split; [exact (proj1 (fetch_raw_cache_discipline 600 999 NoResponse "dnipro" cached_world) _ H)|].
  split; [exact Hdead|].
  exact (proj1 (proj1 (proj2 (fetch_raw_cache_discipline 600 1000 NoResponse "dnipro" cached_world)
                         Hdead) eq_refl)).
Defined.

(** ** A fingerprint worked out *)

(** The digest of a two-day schedule with two entries today, as [hashlib]
    gives it for the same text. *)
Lemma hash_schedule_sample :
  hash_schedule "2026-02-11" {[ "00:30"%string := 2; "23:30"%string := -7 ]} "2026-02-12" ∅ =
  Ok "1255af4d2ca3c479ff2fc2d76677117837a5e15724e2252c5bfec791a71f4005"%string.
Proof. vm_compute. reflexivity. Qed.

(** * Further properties *)

(** ** The half-hour boundaries and their keys *)

Lemma lookup_map_seq {A} (f : nat -> A) (n k : nat) :
  (k < n)%nat -> map f (seq 0 n) !! k = Some (f k).
Proof.
  intros Hk. change (map f (seq 0 n)) with (f <$> seq 0 n).
  rewrite list_lookup_fmap, lookup_seq_lt by done. done.
Qed.

Lemma elem_of_map_seq {A} (f : nat -> A) (n : nat) (x : A) :
  x ∈ map f (seq 0 n) <-> exists k, (k < n)%nat /\ x = f k.
Proof.
  rewrite list_elem_of_In, in_map_iff. split.
  - intros (k & <- & Hk). apply in_seq in Hk. exists k. split; [lia|done].
  - intros (k & Hk & ->). exists k. split; [done|]. apply in_seq. lia.
Qed.

(** X1. For a day start whose next day is representable, [_iter_half_hours]
    returns 48 instants: the [k]-th is [k] half-hours after the day start,
    and all lie within the day.  When the next day is not representable
    (the day start is in the last day of year 9999) it raises
    [OverflowError]. *)
Theorem iter_half_hours_boundaries (day_start : datetime) :
  MINORDINAL * US_PER_DAY <= day_start ->
  (dt_in_range (day_start + ONE_DAY) = true ->
   exists times,
     iter_half_hours day_start = Ok times /\
     length times = 48%nat /\
     (forall k, (k < 48)%nat -> times !! k = Some (day_start + Z.of_nat k * HALF_HOUR)) /\
     (forall t, t ∈ times -> day_start <= t < day_start + ONE_DAY)) /\
  (dt_in_range (day_start + ONE_DAY) = false ->
   iter_half_hours day_start = Raise OverflowError).
Proof.
  intros Hmin. split.
  - intros Hr. exists (map (boundary day_start) (seq 0 48)).
    split; [by apply iter_half_hours_eq|]. split; [by rewrite List.length_map, List.length_seq|].
    split.
    + intros k Hk. by apply (lookup_map_seq (boundary day_start)).
    + intros t Ht. apply elem_of_map_seq in Ht as (k & Hk & ->). unfold_units. lia.
  - intros Hr. unfold iter_half_hours, dt_add. by rewrite Hr.
Qed.

Lemma iter_half_hours_boundaries_witness :
  MINORDINAL * US_PER_DAY <= feb11 /\
  (dt_in_range (feb11 + ONE_DAY) = true ->
   exists times,
     iter_half_hours feb11 = Ok times /\
     length times = 48%nat /\
     (forall k, (k < 48)%nat -> times !! k = Some (feb11 + Z.of_nat k * HALF_HOUR)) /\
     (forall t, t ∈ times -> feb11 <= t < feb11 + ONE_DAY)).
Proof.
  assert (MINORDINAL * US_PER_DAY <= feb11) as H by (vm_compute; discriminate).
  split; [exact H|].
  exact (proj1 (iter_half_hours_boundaries feb11 H)).
Defined.

Lemma half_hour_keys_NoDup : NoDup half_hour_keys.
Proof. rewrite half_hour_keys_eq. apply (bool_decide_unpack _). vm_compute. reflexivity. Qed.

Lemma slot_key_inj (j k : nat) :
  (j < 48)%nat -> (k < 48)%nat -> slot_key j = slot_key k -> j = k.
Proof.
  intros Hj Hk Heq.
  apply (NoDup_lookup half_hour_keys j k (slot_key j) half_hour_keys_NoDup).
  - by apply (lookup_map_seq slot_key).
  - rewrite Heq. by apply (lookup_map_seq slot_key).
Qed.

(** Rounding down to the half hour takes off the time since the last
    multiple of 30 minutes. *)
Lemma round_down_eq (dt : datetime) :
  round_down_to_half_hour dt = dt - dt mod HALF_HOUR.
Proof.
  unfold round_down_to_half_hour, dt_minute, dt_replace_minute.
  case_bool_decide as Hm; unfold_units; Z.to_euclidean_division_equations; lia.
Qed.

(** The key of a multiple of 30 minutes is one of the 48 keys. *)
Lemma time_str_half_hour_multiple (q : Z) :
  exists k, (k < 48)%nat /\ time_str_from_dt (q * HALF_HOUR) = slot_key k.
Proof.
  exists (Z.to_nat (q mod 48)). split; [Z.to_euclidean_division_equations; lia|].
  unfold slot_key. rewrite Z2Nat.id by (Z.to_euclidean_division_equations; lia).
  rewrite <- (time_str_day_shift (q / 48) (q mod 48 * HALF_HOUR)). f_equal.
  unfold_units. Z.to_euclidean_division_equations. lia.
Qed.

(** X2. The keys of the 48 half-hour boundaries of a date are pairwise
    distinct, so each boundary reads its own entry of a slot map; and the
    key of any instant rounded down to the half hour is one of these 48
    keys. *)
Theorem slot_keys_distinct_and_total (date_str : string) (d : datetime) :
  date_to_dt date_str = Ok d ->
  (forall j k, (j < 48)%nat -> (k < 48)%nat ->
     time_str_from_dt (boundary d j) = time_str_from_dt (boundary d k) -> j = k) /\
  (forall now, exists k, (k < 48)%nat /\
     time_str_from_dt (round_down_to_half_hour now) = time_str_from_dt (boundary d k)).
Proof.
  intros Hd. destruct (date_to_dt_midnight _ _ Hd) as (ord & -> & _). split.
  - intros j k Hj Hk. rewrite !time_str_boundary. by apply slot_key_inj.
  - intros now. destruct (round_down_encloses now) as [_ [q Hq]]. cbv zeta in Hq.
    rewrite Hq. destruct (time_str_half_hour_multiple q) as (k & Hk & ->).
    exists k. by rewrite time_str_boundary.
Qed.

Lemma slot_keys_distinct_and_total_witness :
  date_to_dt "2026-02-11" = Ok feb11 /\
  exists k, (k < 48)%nat /\
    time_str_from_dt (round_down_to_half_hour (at_time feb11 10 15 0 0)) =
    time_str_from_dt (boundary feb11 k).
Proof.
  split; [exact date_to_dt_feb11|].
  exact (proj2 (slot_keys_distinct_and_total "2026-02-11" feb11 date_to_dt_feb11)
           (at_time feb11 10 15 0 0)).
Defined.

(** X3. Rounding down to the half hour is idempotent and monotone, moves
    an instant back by less than 30 minutes, and gives the same result for
    two instants exactly when they lie in the same half hour. *)
Theorem round_down_to_half_hour_stable (now later : datetime) :
  round_down_to_half_hour (round_down_to_half_hour now) = round_down_to_half_hour now /\
  (now <= later -> round_down_to_half_hour now <= round_down_to_half_hour later) /\
  0 <= now - round_down_to_half_hour now < HALF_HOUR /\
  (round_down_to_half_hour now = round_down_to_half_hour later <->
   now / HALF_HOUR = later / HALF_HOUR).
Proof.
  rewrite !round_down_eq. unfold_units.
  repeat split; try intros; Z.to_euclidean_division_equations; lia.
Qed.

(** ** Runs of off slots, continued *)

Lemma off_runs_0 (off : nat -> bool) (i : nat) (open : option nat) :
  off_runs off i 0 open = closing open i.
Proof. reflexivity. Qed.

Section MoreRuns.
Variable off : nat -> bool.

(** The run under way at slot [i] closes at [i] or later. *)
Lemma off_runs_open_head_bound (n : nat) :
  forall (i s : nat), exists m rest,
    off_runs off i n (Some s) = (s, m) :: rest /\ (i <= m)%nat.
Proof.
  induction n as [|n IH]; intros i s.
  - rewrite off_runs_0. exists i, []. done.
  - rewrite off_runs_S. change (default i (Some s)) with s. destruct (off i).
    + destruct (IH (S i) s) as (m & rest & -> & Hm). exists m, rest. split; [done|lia].
    + exists i, (off_runs off (S i) n None). done.
Qed.

(** Every off slot walked lies in one of the runs. *)
Lemma off_runs_cover (n : nat) :
  forall (i : nat) (open : option nat) (k : nat),
    open_before open i -> (i <= k < i + n)%nat -> off k = true ->
    exists j m, (j, m) ∈ off_runs off i n open /\ (j <= k < m)%nat.
Proof.
  induction n as [|n IH]; intros i open k Hop Hk Hoff; [lia|].
  rewrite off_runs_S. destruct (decide (k = i)) as [->|Hne].
  - rewrite Hoff.
    destruct (off_runs_open_head_bound n (S i) (default i open)) as (m & rest & -> & Hm).
    exists (default i open), m. split; [constructor|].
    destruct open as [s|]; simpl; [specialize (Hop s eq_refl)|]; lia.
  - destruct (off i).
    + apply IH; [by apply open_before_next|lia|done].
    + destruct (IH (S i) None k (open_before_None _)) as (j & m & Hin & Hjm); [lia|done|].
      exists j, m. split; [|done]. apply elem_of_app. by right.
Qed.

(** Runs are separated by on slots, so there are at most half as many as
    slots (one more when a run is under way). *)
Lemma off_runs_length (n : nat) :
  forall (i : nat) (open : option nat),
    (2 * length (off_runs off i n open) <= n + 1 + match open with Some _ => 1 | None => 0 end)%nat.
Proof.
  induction n as [|n IH]; intros i open.
  - rewrite off_runs_0. destruct open; simpl; lia.
  - rewrite off_runs_S. destruct (off i).
    + specialize (IH (S i) (Some (default i open))). simpl in IH. destruct open; lia.
    + rewrite length_app. specialize (IH (S i) None). simpl in IH.
      destruct open; simpl; lia.
Qed.

(** The runs depend on the flags of the slots walked only. *)
Lemma off_runs_ext_in (g : nat -> bool) (n : nat) :
  forall (i : nat) (open : option nat),
    (forall k, (i <= k < i + n)%nat -> off k = g k) ->
    off_runs off i n open = off_runs g i n open.
Proof.
  induction n as [|n IH]; intros i open Hfg; [done|].
  rewrite !off_runs_S, <- Hfg by lia.
  rewrite !IH by (intros; apply Hfg; lia). done.
Qed.

(** The runs of a walk from slot 0 are the maximal runs of off slots. *)
Lemma off_runs_iff (n j m : nat) :
  (j, m) ∈ off_runs off 0 n None <->
  (j < m)%nat /\ (m <= n)%nat /\
  (forall x, (j <= x < m)%nat -> off x = true) /\
  (j = 0%nat \/ off (j - 1)%nat = false) /\
  (m = n \/ off m = false).
Proof.
  split.
  - intros Hin.
    pose proof (off_runs_bounds off n 0 None j m (open_before_None 0) Hin) as (_ & Hjm & Hm).
    pose proof (off_runs_end off n 0 None j m Hin) as [Hend Hall].
    apply off_runs_start in Hin as [[=]|(_ & _ & Hstart)].
    split; [done|]. split; [lia|]. split; [intros x Hx; apply Hall; lia|]. split.
    + destruct Hstart as [[-> _]|[_ Hp]]; [by left|by right].
    + destruct Hend as [->|Hf]; [by left|by right].
  - intros (Hjm & Hm & Hall & Hstart & Hend).
    apply off_runs_complete; [lia|lia|done| |].
    + destruct (decide (j = 0%nat)) as [->|Hne]; [by left|].
      right. split; [lia|]. destruct Hstart; [lia|done].
    + destruct Hend as [->|Hf]; [by left|by right].
Qed.
End MoreRuns.

(** ** The derived intervals against the slot map *)

Lemma day_off_true (slots : gmap string Z) (k : nat) :
  day_off slots k = true <-> off_slot slots k.
Proof. unfold day_off, is_off_at, off_slot. apply bool_decide_eq_true. Qed.

Lemma day_off_false (slots : gmap string Z) (k : nat) :
  day_off slots k = false <-> ~ off_slot slots k.
Proof. unfold day_off, is_off_at, off_slot. apply bool_decide_eq_false. Qed.

Lemma day_runs_iff (slots : gmap string Z) (j m : nat) :
  (j, m) ∈ day_runs slots <-> maximal_off_run slots j m.
Proof.
  unfold day_runs, maximal_off_run. rewrite off_runs_iff.
  rewrite day_off_false. rewrite day_off_false.
  split; intros (H1 & H2 & H3 & H4 & H5); (split; [done|]); (split; [done|]);
    (split; [|done]); intros x Hx; apply day_off_true; by apply H3.
Qed.

(** X4. The intervals derived for a date are exactly the maximal runs of
    outage slots: an interval from boundary [j] to boundary [m] is derived
    if and only if the slots [j .. m - 1] all have status 2 and the slots on
    either side, where the day has them, do not. *)
Theorem derived_intervals_are_maximal_runs (date_str : string) (slots : gmap string Z)
    (ivs : list Interval) (d : datetime) :
  slots_to_off_intervals date_str slots = Ok ivs ->
  date_to_dt date_str = Ok d ->
  forall it,
    it ∈ ivs <->
    exists j m, maximal_off_run slots j m /\
                it = {| start := boundary d j; end_ := boundary d m |}.
Proof.
  intros H Hd it. apply slots_to_off_intervals_spec in H as (d' & Hd' & _ & ->).
  assert (d' = d) as -> by congruence.
  rewrite elem_of_run_intervals. split.
  - intros ([j m] & Hin & ->). exists j, m. split; [by apply day_runs_iff|done].
  - intros (j & m & Hrun & ->). exists (j, m). split; [by apply day_runs_iff|done].
Qed.

Lemma derived_intervals_are_maximal_runs_witness :
  let it := {| start := boundary feb11 47; end_ := boundary feb11 48 |} in
  slots_to_off_intervals "2026-02-11" last_slot_off = Ok [it] /\
  date_to_dt "2026-02-11" = Ok feb11 /\
  exists j m, maximal_off_run last_slot_off j m /\
              it = {| start := boundary feb11 j; end_ := boundary feb11 m |}.
Proof.
  cbv zeta.
  assert (slots_to_off_intervals "2026-02-11" last_slot_off =
          Ok [{| start := boundary feb11 47; end_ := boundary feb11 48 |}]) as H
    by (vm_compute; reflexivity).
  split; [exact H|]. split; [exact date_to_dt_feb11|].
  exact (proj1 (derived_intervals_are_maximal_runs _ _ _ _ H date_to_dt_feb11 _)
           (list_elem_of_here _ _)).
Defined.

(** The slot an instant of the day falls in. *)
Lemma slot_of_instant (ord : Z) (now : datetime) :
  let d := ord * US_PER_DAY in
  d <= now < d + ONE_DAY ->
  exists k, (k < 48)%nat /\ boundary d k <= now < boundary d (S k) /\
            time_str_from_dt (round_down_to_half_hour now) = slot_key k.
Proof.
  cbv zeta. intros Hday.
  destruct (round_down_in_day now ord) as [_ Hkey]. cbv zeta in Hkey.
  specialize (Hkey (proj1 Hday)).
  destruct (round_down_encloses now) as [Hr _]. cbv zeta in Hr.
  exists (Z.to_nat ((now - ord * US_PER_DAY) / HALF_HOUR)). split; [|split].
  - revert Hday. unfold_units. intros Hday. Z.to_euclidean_division_equations. lia.
  - rewrite Hkey in Hr. revert Hr. unfold_units. lia.
  - rewrite Hkey. apply time_str_boundary.
Qed.

Lemma in_outage_runs (ord : Z) (slots : gmap string Z) (now : datetime) (k : nat) :
  let d := ord * US_PER_DAY in
  boundary d k <= now < boundary d (S k) ->
  in_outage (map (run_interval d) (day_runs slots)) now <->
  exists j m, (j, m) ∈ day_runs slots /\ (j <= k < m)%nat.
Proof.
  cbv zeta. intros Hk. unfold in_outage, covers. split.
  - intros (it & Hit & Hnow). apply elem_of_run_intervals in Hit as ([j m] & Hin & ->).
    exists j, m. split; [done|]. revert Hk Hnow. unfold run_interval. cbn [start end_ fst snd].
    unfold_units. lia.
  - intros (j & m & Hin & Hjm). exists (run_interval (ord * US_PER_DAY) (j, m)).
    split; [apply elem_of_run_intervals; eauto|].
    revert Hk. unfold run_interval. cbn [start end_ fst snd]. unfold_units. lia.
Qed.

Lemma day_runs_bounds (slots : gmap string Z) (j m : nat) :
  (j, m) ∈ day_runs slots -> (j < m)%nat /\ (m <= 48)%nat.
Proof. intros H. apply day_runs_iff in H as (? & ? & _). done. Qed.

Lemma day_runs_cover (slots : gmap string Z) (k : nat) :
  (k < 48)%nat -> off_slot slots k ->
  exists j m, (j, m) ∈ day_runs slots /\ (j <= k < m)%nat.
Proof.
  intros Hk Hoff. apply day_off_true in Hoff.
  assert (0 <= k < 0 + 48)%nat as Hin by lia.
  exact (off_runs_cover (day_off slots) 48 0 None k (open_before_None 0) Hin Hoff).
Qed.

(** An instant lies inside an interval of the runs of a day exactly when
    it belongs to the day and its slot is off. *)
Lemma in_outage_day_runs (ord : Z) (slots : gmap string Z) (now : datetime) :
  let d := ord * US_PER_DAY in
  in_outage (map (run_interval d) (day_runs slots)) now <->
  (d <= now < d + ONE_DAY) /\ status_at slots now = 2.
Proof.
  cbv zeta.
  assert (boundary (ord * US_PER_DAY) 48 = ord * US_PER_DAY + ONE_DAY) as Hend
    by (unfold_units; lia).
  assert (forall j, ord * US_PER_DAY <= boundary (ord * US_PER_DAY) j) as Hstart
    by (intros j; unfold_units; lia).
  split.
  - intros Hout. assert (ord * US_PER_DAY <= now < ord * US_PER_DAY + ONE_DAY) as Hday.
    { destruct Hout as (it & Hit & Hnow). unfold covers in Hnow.
      apply elem_of_run_intervals in Hit as ([j m] & Hin & ->).
      revert Hnow. unfold run_interval. cbn [start end_ fst snd]. intros Hnow.
      apply day_runs_bounds in Hin as [Hjm Hm].
      assert (boundary (ord * US_PER_DAY) m <= boundary (ord * US_PER_DAY) 48)
        by (unfold_units; lia).
      specialize (Hstart j). lia. }
    split; [exact Hday|].
    destruct (slot_of_instant ord now Hday) as (k & Hk & Hnow & Hkey).
    apply (in_outage_runs ord slots now k Hnow) in Hout as (j & m & Hin & Hjm).
    unfold status_at. rewrite Hkey.
    apply day_runs_iff in Hin as (_ & _ & Hall & _). by apply Hall.
  - intros [Hday Hst].
    destruct (slot_of_instant ord now Hday) as (k & Hk & Hnow & Hkey).
    apply (in_outage_runs ord slots now k Hnow).
    apply day_runs_cover; [done|]. unfold status_at in Hst. by rewrite Hkey in Hst.
Qed.

Lemma in_outage_derived (date_str : string) (slots : gmap string Z)
    (ivs : list Interval) (d now : datetime) :
  slots_to_off_intervals date_str slots = Ok ivs ->
  date_to_dt date_str = Ok d ->
  (in_outage ivs now <-> (d <= now < d + ONE_DAY) /\ status_at slots now = 2).
Proof.
  intros H Hd. apply slots_to_off_intervals_spec in H as (d' & Hd' & _ & ->).
  assert (d' = d) as -> by congruence. clear Hd'.
  destruct (date_to_dt_midnight _ _ Hd) as (ord & -> & _).
  apply in_outage_day_runs.
Qed.

(** X5. An instant lies inside one of the intervals derived for a date
    exactly when it belongs to the day of that date and the slot it falls
    in has status 2; and every derived interval lies within that day, on
    half-hour boundaries. *)
Theorem instant_in_outage_iff_slot_off (date_str : string) (slots : gmap string Z)
    (ivs : list Interval) (d : datetime) :
  slots_to_off_intervals date_str slots = Ok ivs ->
  date_to_dt date_str = Ok d ->
  (forall now, in_outage ivs now <-> (d <= now < d + ONE_DAY) /\ status_at slots now = 2) /\
  (forall it, it ∈ ivs ->
     d <= start it /\ end_ it <= d + ONE_DAY /\
     (HALF_HOUR | start it - d) /\ (HALF_HOUR | end_ it - d)).
Proof.
  intros H Hd. split; [intros now; by eapply in_outage_derived|].
  apply slots_to_off_intervals_spec in H as (d' & Hd' & _ & ->).
  assert (d' = d) as -> by congruence. clear Hd'.
  intros it Hit. apply elem_of_run_intervals in Hit as ([j m] & Hin & ->).
  apply day_runs_bounds in Hin as [Hjm Hm]. unfold run_interval. cbn [start end_ fst snd].
  split; [unfold_units; lia|]. split; [unfold_units; lia|].
  split; [exists (Z.of_nat j)|exists (Z.of_nat m)]; unfold boundary; lia.
Qed.

Lemma instant_in_outage_iff_slot_off_witness :
  let ivs := [{| start := at_time feb11 23 30 0 0; end_ := feb11 + ONE_DAY |}] in
  slots_to_off_intervals "2026-02-11" last_slot_off = Ok ivs /\
  date_to_dt "2026-02-11" = Ok feb11 /\
  (in_outage ivs (at_time feb11 23 45 0 0) <->
   (feb11 <= at_time feb11 23 45 0 0 < feb11 + ONE_DAY) /\
   status_at last_slot_off (at_time feb11 23 45 0 0) = 2).
Proof.
  cbv zeta.
  assert (slots_to_off_intervals "2026-02-11" last_slot_off =
          Ok [{| start := at_time feb11 23 30 0 0; end_ := feb11 + ONE_DAY |}]) as H
    by (vm_compute; reflexivity).
  split; [exact H|]. split; [exact date_to_dt_feb11|].
  exact (proj1 (instant_in_outage_iff_slot_off _ _ _ _ H date_to_dt_feb11) _).
Defined.

(** Inside a derived interval the power flag is false. *)
Lemma power_flag_in_outage (now : datetime) (date_today : string)
    (slots_today : gmap string Z) (today_off : list Interval) (d : datetime) :
  slots_to_off_intervals date_today slots_today = Ok today_off ->
  date_to_dt date_today = Ok d ->
  exists has_power,
    is_now_has_power now date_today slots_today = Ok has_power /\
    (in_outage today_off now -> has_power = false).
Proof.
  intros H Hd. pose proof (in_outage_derived _ _ _ _ now H Hd) as Hout.
  apply slots_to_off_intervals_spec in H as (d' & Hd' & Hr & _).
  assert (d' = d) as -> by congruence. clear Hd'.
  rewrite (is_now_has_power_eval now date_today slots_today d Hd Hr).
  eexists. split; [reflexivity|]. intros Hin. apply Hout in Hin as [Hday Hst].
  destruct (date_to_dt_midnight _ _ Hd) as (ord & -> & _).
  destruct (round_down_in_day now ord) as [Hiff _]. cbv zeta in Hiff.
  rewrite bool_decide_eq_true_2 by (by apply Hiff).
  unfold status_at in Hst. rewrite Hst. done.
Qed.

(** X6. The power flag agrees with the derived intervals wherever the
    status is 1 or 2: inside a derived interval it is false, and for a
    status of 1 or 2 it is false only inside one.  For any other status in
    the day the flag is false although no interval covers the instant. *)
Theorem power_flag_and_outage_intervals (now : datetime) (date_today : string)
    (slots_today : gmap string Z) (today_off : list Interval) (d : datetime) :
  slots_to_off_intervals date_today slots_today = Ok today_off ->
  date_to_dt date_today = Ok d ->
  exists has_power,
    is_now_has_power now date_today slots_today = Ok has_power /\
    (in_outage today_off now -> has_power = false) /\
    (status_at slots_today now = 1 \/ status_at slots_today now = 2 ->
     (has_power = false <-> in_outage today_off now)) /\
    (has_power = false /\ ~ in_outage today_off now <->
     (d <= now < d + ONE_DAY) /\
     status_at slots_today now <> 1 /\ status_at slots_today now <> 2).
Proof.
  intros H Hd. pose proof (in_outage_derived _ _ _ _ now H Hd) as Hout.
  apply slots_to_off_intervals_spec in H as (d' & Hd' & Hr & _).
  assert (d' = d) as -> by congruence. clear Hd'.
  rewrite (is_now_has_power_eval now date_today slots_today d Hd Hr).
  destruct (date_to_dt_midnight _ _ Hd) as (ord & -> & _).
  destruct (round_down_in_day now ord) as [Hiff _]. cbv zeta in Hiff.
  fold (status_at slots_today now).
  eexists. split; [reflexivity|].
  case_bool_decide as Hday; [apply Hiff in Hday|rewrite Hiff in Hday].
  - rewrite bool_decide_eq_false. split; [|split].
    + intros Hin. apply Hout in Hin as [_ ->]. done.
    + intros [H1|H2]; rewrite Hout; split.
      * intros Hne. done.
      * intros [_ H2]. congruence.
      * intros _. done.
      * intros _. congruence.
    + rewrite Hout. split.
      * intros [H1 H2]. split; [done|]. split; [done|]. intros H3. by apply H2.
      * intros (_ & H1 & H2). split; [done|]. intros [_ ?]. done.
  - split; [|split].
    + intros Hin. apply Hout in Hin as [? _]. done.
    + intros _. rewrite Hout. split; [done|]. intros [? _]. done.
    + split; [intros [? _]; done|]. intros [? _]. done.
Qed.

Lemma power_flag_and_outage_intervals_witness :
  slots_to_off_intervals "2026-02-11" {[ "10:00"%string := 3 ]} = Ok [] /\
  date_to_dt "2026-02-11" = Ok feb11 /\
  is_now_has_power (at_time feb11 10 15 0 0) "2026-02-11" {[ "10:00"%string := 3 ]} = Ok false /\
  exists has_power,
    is_now_has_power (at_time feb11 10 15 0 0) "2026-02-11" {[ "10:00"%string := 3 ]} =
      Ok has_power /\
    (in_outage [] (at_time feb11 10 15 0 0) -> has_power = false) /\
    (status_at {[ "10:00"%string := 3 ]} (at_time feb11 10 15 0 0) = 1 \/
     status_at {[ "10:00"%string := 3 ]} (at_time feb11 10 15 0 0) = 2 ->
     (has_power = false <-> in_outage [] (at_time feb11 10 15 0 0))) /\
    (has_power = false /\ ~ in_outage [] (at_time feb11 10 15 0 0) <->
     (feb11 <= at_time feb11 10 15 0 0 < feb11 + ONE_DAY) /\
     status_at {[ "10:00"%string := 3 ]} (at_time feb11 10 15 0 0) <> 1 /\
     status_at {[ "10:00"%string := 3 ]} (at_time feb11 10 15 0 0) <> 2).
Proof.
  assert (slots_to_off_intervals "2026-02-11" {[ "10:00"%string := 3 ]} = Ok []) as H
    by (vm_compute; reflexivity).
  split; [exact H|]. split; [exact date_to_dt_feb11|].
  split; [vm_compute; reflexivity|].
  exact (power_flag_and_outage_intervals (at_time feb11 10 15 0 0) _ _ _ _ H date_to_dt_feb11).
Defined.

(** What the derivation evaluates to, errors included. *)
Lemma slots_to_off_intervals_eval (date_str : string) (slots : gmap string Z) :
  slots_to_off_intervals date_str slots =
  match date_to_dt date_str with
  | Ok d =>
      if dt_in_range (d + ONE_DAY) then Ok (map (run_interval d) (day_runs slots))
      else Raise OverflowError
  | Raise e => Raise e
  end.
Proof.
  destruct (date_to_dt date_str) as [d|e] eqn:Hd.
  - destruct (dt_in_range (d + ONE_DAY)) eqn:Hr.
    + apply slots_to_off_intervals_spec. by exists d.
    + unfold slots_to_off_intervals, walk_day. rewrite Hd, bind_Ok_l.
      unfold iter_half_hours, dt_add. by rewrite Hr.
  - unfold slots_to_off_intervals, walk_day. by rewrite Hd.
Qed.

Lemma slot_key_in_keys (k : nat) : (k < 48)%nat -> slot_key k ∈ half_hour_keys.
Proof. intros Hk. apply elem_of_map_seq. by exists k. Qed.

(** The runs of a day depend on which of the 48 keys have status 2. *)
Lemma day_runs_ext (a b : gmap string Z) :
  (forall key, key ∈ half_hour_keys -> (slot_status a key = 2 <-> slot_status b key = 2)) ->
  day_runs a = day_runs b.
Proof.
  intros Hab. apply off_runs_ext_in. intros k Hk. unfold day_off, is_off_at.
  apply bool_decide_ext, Hab, slot_key_in_keys. lia.
Qed.

(** X7. The derivation reads one thing from the slot map: which of the 48
    keys have status 2.  Two maps that agree on that give the same result
    (the same intervals or the same error), whatever other keys they hold
    and whatever their other statuses are. *)
Theorem derivation_reads_outage_flags_only (date_str : string) (a b : gmap string Z) :
  (forall key, key ∈ half_hour_keys -> (slot_status a key = 2 <-> slot_status b key = 2)) ->
  slots_to_off_intervals date_str a = slots_to_off_intervals date_str b.
Proof.
  intros Hab. rewrite !slots_to_off_intervals_eval.
  by rewrite (day_runs_ext a b Hab).
Qed.

Lemma derivation_reads_outage_flags_only_witness :
  let a : gmap string Z := list_to_map [("10:00", 2); ("10:15", 2); ("11:00", 0)]%string in
  let b : gmap string Z := list_to_map [("10:00", 2); ("12:00", 1); ("24:00", 2)]%string in
  (forall key, key ∈ half_hour_keys -> (slot_status a key = 2 <-> slot_status b key = 2)) /\
  slots_to_off_intervals "2026-02-11" a = slots_to_off_intervals "2026-02-11" b.
Proof.
  cbv zeta.
  assert (forall key, key ∈ half_hour_keys ->
            (slot_status (list_to_map [("10:00", 2); ("10:15", 2); ("11:00", 0)]%string) key = 2 <->
             slot_status (list_to_map [("10:00", 2); ("12:00", 1); ("24:00", 2)]%string) key = 2))
    as H.
  { apply Forall_forall. rewrite half_hour_keys_eq. apply (bool_decide_unpack _).
    vm_compute. reflexivity. }
  split; [exact H|].
  exact (derivation_reads_outage_flags_only "2026-02-11" _ _ H).
Defined.

Lemma count_off_le (off : nat -> bool) (i n : nat) : count_off off i n <= Z.of_nat n.
Proof.
  unfold count_off. pose proof (length_filter (fun k => off k = true) (seq i n)) as H.
  rewrite List.length_seq in H. lia.
Qed.

(** X8. A day gives at most 24 outage intervals and at most 1440 outage
    minutes, and it gives no interval exactly when none of the 48 keys has
    status 2. *)
Theorem derived_intervals_bounds (date_str : string) (slots : gmap string Z)
    (ivs : list Interval) :
  slots_to_off_intervals date_str slots = Ok ivs ->
  (length ivs <= 24)%nat /\
  total_minutes ivs <= 1440 /\
  (ivs = [] <-> forall key, key ∈ half_hour_keys -> slot_status slots key <> 2).
Proof.
  intros H. apply slots_to_off_intervals_spec in H as (d & Hd & Hr & ->).
  split; [|split].
  - rewrite List.length_map. unfold day_runs.
    pose proof (off_runs_length (day_off slots) 48 0 None) as Hlen.
    cbv beta iota in Hlen. lia.
  - rewrite total_minutes_runs. unfold day_runs. rewrite off_runs_total.
    pose proof (count_off_le (day_off slots) 0 48). lia.
  - split.
    + intros Hnil key Hkey Hoff. apply elem_of_map_seq in Hkey as (k & Hk & ->).
      destruct (day_runs_cover slots k Hk Hoff) as (j & m & Hin & _).
      apply map_eq_nil in Hnil. rewrite Hnil in Hin. by apply elem_of_nil in Hin.
    + intros Hnone. destruct (day_runs slots) as [|[j m] rest] eqn:Hruns; [done|].
      assert ((j, m) ∈ day_runs slots) as Hin by (rewrite Hruns; constructor).
      apply day_runs_iff in Hin as (Hjm & Hm & Hall & _).
      destruct (Hnone (slot_key j)); [apply slot_key_in_keys; lia|].
      apply Hall. lia.
Qed.

Lemma derived_intervals_bounds_witness :
  let ivs := [{| start := at_time feb11 10 0 0 0; end_ := at_time feb11 11 0 0 0 |}] in
  slots_to_off_intervals "2026-02-11" example_merge_slots = Ok ivs /\
  (length ivs <= 24)%nat /\ total_minutes ivs <= 1440.
Proof.
  cbv zeta.
  assert (slots_to_off_intervals "2026-02-11" example_merge_slots =
          Ok [{| start := at_time feb11 10 0 0 0; end_ := at_time feb11 11 0 0 0 |}]) as H
    by (vm_compute; reflexivity).
  split; [exact H|].
  pose proof (derived_intervals_bounds _ _ _ H) as (H1 & H2 & _).
  exact (conj H1 H2).
Defined.

(** ** Next outage, continued *)

(** X9. As time passes the next outage never moves back: a later query
    answers a start that is not earlier, answers none when the earlier
    query answered none, and answers the same start for as long as that
    start is still ahead. *)
Theorem next_outage_monotone (now later : datetime) (today_off tomorrow_off : list Interval) :
  now <= later ->
  (find_next_outage now today_off tomorrow_off = None ->
   find_next_outage later today_off tomorrow_off = None) /\
  (forall s s',
     find_next_outage now today_off tomorrow_off = Some s ->
     find_next_outage later today_off tomorrow_off = Some s' -> s <= s') /\
  (forall s,
     find_next_outage now today_off tomorrow_off = Some s -> later < s ->
     find_next_outage later today_off tomorrow_off = Some s).
Proof.
  intros Hle. split; [|split].
  - rewrite !find_next_outage_None. intros H it Hit. specialize (H it Hit). lia.
  - intros s s' Hs Hs'.
    apply find_next_outage_Some in Hs as (_ & _ & Hmin).
    apply find_next_outage_Some in Hs' as (Hlt & (it & Hit & <-) & _).
    apply Hmin; [done|lia].
  - intros s Hs Hlater.
    apply find_next_outage_Some in Hs as (_ & Hex & Hmin).
    apply find_next_outage_least; [done|done|].
    intros it Hit Hfut. apply Hmin; [done|lia].
Qed.

Lemma next_outage_monotone_witness :
  let today_off := [{| start := at_time feb11 10 0 0 0; end_ := at_time feb11 11 0 0 0 |}] in
  at_time feb11 9 0 0 0 <= at_time feb11 9 30 0 0 /\
  find_next_outage (at_time feb11 9 0 0 0) today_off [] = Some (at_time feb11 10 0 0 0) /\
  find_next_outage (at_time feb11 9 30 0 0) today_off [] = Some (at_time feb11 10 0 0 0).
Proof.
  cbv zeta.
  assert (at_time feb11 9 0 0 0 <= at_time feb11 9 30 0 0) as H by (vm_compute; discriminate).
  assert (find_next_outage (at_time feb11 9 0 0 0)
            [{| start := at_time feb11 10 0 0 0; end_ := at_time feb11 11 0 0 0 |}] [] =
          Some (at_time feb11 10 0 0 0)) as H1 by (vm_compute; reflexivity).
  assert (at_time feb11 9 30 0 0 < at_time feb11 10 0 0 0) as H2 by (vm_compute; reflexivity).
  split; [exact H|]. split; [exact H1|].
  exact (proj2 (proj2 (next_outage_monotone _ _ _ [] H)) _ H1 H2).
Defined.

(** X10. The search depends on the set of interval starts only: two pairs
    of lists with the same starts give the same answer, whatever the order
    of the intervals, the list each one is in, and their ends. *)
Theorem next_outage_depends_on_starts (now : datetime)
    (today_off tomorrow_off today_off' tomorrow_off' : list Interval) :
  (forall s, (exists it, it ∈ today_off ++ tomorrow_off /\ start it = s) <->
             (exists it, it ∈ today_off' ++ tomorrow_off' /\ start it = s)) ->
  find_next_outage now today_off tomorrow_off = find_next_outage now today_off' tomorrow_off'.
Proof.
  intros Hsame.
  destruct (find_next_outage now today_off tomorrow_off) as [s|] eqn:Hf.
  - apply find_next_outage_Some in Hf as (Hlt & Hex & Hmin).
    symmetry. apply find_next_outage_least; [by apply Hsame|done|].
    intros it Hit Hfut.
    destruct (proj2 (Hsame (start it))) as (it' & Hit' & Hs'); [by exists it|].
    rewrite <- Hs'. apply Hmin; [done|]. by rewrite Hs'.
  - symmetry. rewrite find_next_outage_None in Hf. apply find_next_outage_None.
    intros it Hit.
    destruct (proj2 (Hsame (start it))) as (it' & Hit' & Hs'); [by exists it|].
    rewrite <- Hs'. by apply Hf.
Qed.

Lemma same_start_singletons (a a' : Interval) :
  start a = start a' ->
  forall s, (exists it, it ∈ [a] ++ [] /\ start it = s) <->
            (exists it, it ∈ [] ++ [a'] /\ start it = s).
Proof.
  intros Heq s. cbn [app]. split; intros (it & Hit & <-);
    apply list_elem_of_singleton in Hit as ->.
  - exists a'. split; [by apply list_elem_of_singleton|done].
  - exists a. split; [by apply list_elem_of_singleton|done].
Qed.

Lemma next_outage_depends_on_starts_witness :
  let a := {| start := at_time feb11 10 0 0 0; end_ := at_time feb11 11 0 0 0 |} in
  let a' := {| start := at_time feb11 10 0 0 0; end_ := at_time feb11 12 30 0 0 |} in
  (forall s, (exists it, it ∈ [a] ++ [] /\ start it = s) <->
             (exists it, it ∈ [] ++ [a'] /\ start it = s)) /\
  find_next_outage feb11 [a] [] = find_next_outage feb11 [] [a'].
Proof.
  cbv zeta.
  assert (start {| start := at_time feb11 10 0 0 0; end_ := at_time feb11 11 0 0 0 |} =
          start {| start := at_time feb11 10 0 0 0; end_ := at_time feb11 12 30 0 0 |}) as Hs
    by (cbn [start]; reflexivity).
  pose proof (same_start_singletons _ _ Hs) as H.
  split; [exact H|].
  exact (next_outage_depends_on_starts feb11 _ _ _ _ H).
Defined.

(** ** Minutes until the next outage, continued *)

(** *** The float computation

    [total_seconds()] and [+ 59] round; the lemmas below bound what the
    rounding can do. *)

Lemma round_half_even_le (n d K : Z) : 0 < d -> n <= K * d -> round_half_even n d <= K.
Proof.
  intros Hd Hn. unfold round_half_even. cbv zeta.
  pose proof (Z.div_mod n d ltac:(lia)) as Hdiv. pose proof (Z.mod_pos_bound n d Hd) as Hmod.
  repeat case_bool_decide; try destruct (Z.even _); nia.
Qed.

Lemma round_half_even_ge (n d K : Z) : 0 < d -> K * d <= n -> K <= round_half_even n d.
Proof.
  intros Hd Hn. unfold round_half_even. cbv zeta.
  pose proof (Z.div_mod n d ltac:(lia)) as Hdiv. pose proof (Z.mod_pos_bound n d Hd) as Hmod.
  repeat case_bool_decide; try destruct (Z.even _); nia.
Qed.

Lemma scaled_nonpos (num den e : Z) :
  e <= 0 -> scaled_num num e = num * 2 ^ (- e) /\ scaled_den den e = den.
Proof.
  intros He. unfold scaled_num, scaled_den. case_bool_decide.
  - assert (e = 0) as -> by lia. simpl. lia.
  - done.
Qed.

Lemma binade_spec (num den : Z) :
  0 < num -> 0 < den ->
  2 ^ 52 * scaled_den den (binade num den) <= scaled_num num (binade num den).
Proof.
  intros Hnum Hden. unfold binade. cbv zeta. case_bool_decide as Hfirst; [done|]. clear Hfirst.
  destruct (Z.log2_spec num Hnum) as [Ha _]. destruct (Z.log2_spec den Hden) as [_ Hb].
  pose proof (Z.log2_nonneg num) as Ha0. pose proof (Z.log2_nonneg den) as Hb0.
  set (a := Z.log2 num) in *. set (b := Z.log2 den) in *.
  unfold scaled_num, scaled_den. case_bool_decide as He.
  - replace (2 ^ a) with (2 ^ 52 * 2 ^ (Z.succ b) * 2 ^ (a - b - 52 - 1)) in Ha
      by (rewrite <- !Z.pow_add_r by lia; f_equal; lia).
    pose proof (Z.pow_pos_nonneg 2 (a - b - 52 - 1) ltac:(lia) ltac:(lia)). nia.
  - assert (2 ^ 52 * 2 ^ (Z.succ b) = 2 ^ a * 2 ^ (- (a - b - 52 - 1))) as Heq
      by (rewrite <- !Z.pow_add_r by lia; f_equal; lia).
    pose proof (Z.pow_pos_nonneg 2 (- (a - b - 52 - 1)) ltac:(lia) ltac:(lia)). nia.
Qed.

Lemma binade_le (num den j : Z) :
  0 < num -> 0 < den -> 0 <= j <= 53 -> num < 2 ^ (53 - j) * den -> binade num den <= - j.
Proof.
  intros Hnum Hden Hj Hlt. pose proof (binade_spec num den Hnum Hden) as Hspec.
  destruct (decide (binade num den <= - j)) as [|Hgt]; [done|exfalso].
  set (e := binade num den) in *.
  assert (2 ^ (53 - j) <= 2 ^ (52 + e)) as Hpow by (apply Z.pow_le_mono_r; lia).
  unfold scaled_num, scaled_den in Hspec. case_bool_decide as He.
  - rewrite Z.pow_add_r in Hpow by lia. nia.
  - assert (2 ^ (52 + e) * 2 ^ (- e) = 2 ^ 52) as Heq
      by (rewrite <- Z.pow_add_r by lia; f_equal; lia).
    pose proof (Z.pow_pos_nonneg 2 (- e) ltac:(lia) ltac:(lia)). nia.
Qed.

(** Rounding does not cross a multiple of [2 ^ - j] that the format holds. *)
Lemma round_ratio_bounds (num den j : Z) :
  0 < num -> 0 < den -> 0 <= j <= 53 -> num < 2 ^ (53 - j) * den ->
  let f := round_ratio num den in
  expo f <= - j /\
  forall K, (num * 2 ^ j <= K * den -> mant f <= K * 2 ^ (- j - expo f)) /\
            (K * den <= num * 2 ^ j -> K * 2 ^ (- j - expo f) <= mant f).
Proof.
  intros Hnum Hden Hj Hlt. cbv zeta. unfold round_ratio.
  rewrite bool_decide_eq_false_2 by lia. cbv zeta. cbn [mant expo].
  rewrite (Z.abs_eq num) by lia. rewrite (Z.sgn_pos num) by lia.
  pose proof (binade_le num den j Hnum Hden Hj Hlt) as He.
  set (e := binade num den) in *. split; [done|].
  destruct (scaled_nonpos num den e ltac:(lia)) as [-> ->].
  assert (2 ^ (- e) = 2 ^ j * 2 ^ (- j - e)) as ->
    by (rewrite <- Z.pow_add_r by lia; f_equal; lia).
  pose proof (Z.pow_pos_nonneg 2 (- j - e) ltac:(lia) ltac:(lia)) as HP.
  set (P := 2 ^ (- j - e)) in *. set (J := 2 ^ j) in *.
  intros K. rewrite Z.mul_1_l. split; intros HK.
  - apply round_half_even_le; [done|]. nia.
  - apply round_half_even_ge; [done|]. nia.
Qed.

Lemma float_add_int (x : float64) (c : Z) :
  expo x <= 0 ->
  float_add x (float_of_int c) =
  round_ratio (mant x + c * 2 ^ (- expo x)) (2 ^ (- expo x)).
Proof.
  intros He. unfold float_add, float_of_int. cbn [mant expo]. cbv zeta.
  rewrite Z.min_l by done. rewrite Z.sub_diag, Z.sub_0_l. change (2 ^ 0) with 1.
  rewrite Z.mul_1_r. case_bool_decide; [|done].
  assert (expo x = 0) as -> by lia. simpl. by rewrite Z.mul_1_r.
Qed.

Lemma float_floordiv_nonpos (x : float64) (k : Z) :
  expo x <= 0 -> float_floordiv x k = mant x / (k * 2 ^ (- expo x)).
Proof.
  intros He. unfold float_floordiv. case_bool_decide; [|done].
  assert (expo x = 0) as -> by lia. simpl. by rewrite !Z.mul_1_r.
Qed.

(** Between two multiples of [2 ^ - j] seconds that enclose the distance,
    the float computation stays between the values of the exact one. *)
Lemma delta_min_between (next_outage_start now j A B : Z) :
  let td := next_outage_start - now in
  0 < td -> 0 <= j <= 53 ->
  A * US_PER_SECOND <= td * 2 ^ j -> td * 2 ^ j <= B * US_PER_SECOND ->
  B + 59 * 2 ^ j < 2 ^ 53 ->
  (A + 59 * 2 ^ j) / (60 * 2 ^ j) <= delta_min next_outage_start now
  <= (B + 59 * 2 ^ j) / (60 * 2 ^ j).
Proof.
  cbv zeta. intros Htd Hj HA HB Hsmall. unfold delta_min.
  set (td := next_outage_start - now) in *.
  pose proof (Z.pow_pos_nonneg 2 j ltac:(lia) ltac:(lia)) as HJ.
  assert (2 ^ 53 = 2 ^ (53 - j) * 2 ^ j) as H53
    by (rewrite <- Z.pow_add_r by lia; f_equal; lia).
  set (J := 2 ^ j) in *.
  assert (td < 2 ^ (53 - j) * US_PER_SECOND) as Hlt1 by (unfold US_PER_SECOND in *; nia).
  destruct (round_ratio_bounds td US_PER_SECOND j Htd ltac:(done) Hj Hlt1) as [He1 H1].
  fold (total_seconds td) in He1, H1. fold J in H1.
  set (f1 := total_seconds td) in *.
  destruct (H1 A) as [_ HlowA]. destruct (H1 B) as [HupB _]. destruct (H1 0) as [_ Hpos].
  specialize (HlowA HA). specialize (HupB HB). specialize (Hpos ltac:(lia)). clear H1.
  rewrite float_add_int by lia.
  assert (2 ^ (- expo f1) = J * 2 ^ (- j - expo f1)) as HP1
    by (unfold J; rewrite <- Z.pow_add_r by lia; f_equal; lia).
  pose proof (Z.pow_pos_nonneg 2 (- j - expo f1) ltac:(lia) ltac:(lia)) as HP.
  set (P := 2 ^ (- j - expo f1)) in *. rewrite HP1.
  set (sum := mant f1 + 59 * (J * P)).
  assert (0 < sum) as Hsum by (unfold sum; nia).
  assert (0 < J * P) as Hden by nia.
  assert (sum < 2 ^ (53 - j) * (J * P)) as Hlt2 by (unfold sum; nia).
  destruct (round_ratio_bounds sum (J * P) j Hsum Hden Hj Hlt2) as [He2 H2].
  fold J in H2. set (f2 := round_ratio sum (J * P)) in *.
  destruct (H2 (A + 59 * J)) as [_ Hlow2]. destruct (H2 (B + 59 * J)) as [Hup2 _].
  specialize (Hlow2 ltac:(unfold sum; nia)). specialize (Hup2 ltac:(unfold sum; nia)). clear H2.
  rewrite float_floordiv_nonpos by lia.
  assert (2 ^ (- expo f2) = J * 2 ^ (- j - expo f2)) as ->
    by (unfold J; rewrite <- Z.pow_add_r by lia; f_equal; lia).
  pose proof (Z.pow_pos_nonneg 2 (- j - expo f2) ltac:(lia) ltac:(lia)) as HQ.
  set (Q := 2 ^ (- j - expo f2)) in *.
  rewrite Z.mul_assoc.
  rewrite <- (Z.div_mul_cancel_r (A + 59 * J) (60 * J) Q) by lia.
  rewrite <- (Z.div_mul_cancel_r (B + 59 * J) (60 * J) Q) by lia.
  split; apply Z.div_le_mono; lia.
Qed.

(** Less than [2 ** 31] seconds ahead the float computation is the exact
    one: the seconds, 59 added, floor-divided by 60. *)
Lemma delta_min_near (next_outage_start now : datetime) :
  0 < next_outage_start - now < 2 ^ 31 * US_PER_SECOND ->
  delta_min next_outage_start now =
  (next_outage_start - now + 59 * US_PER_SECOND) / US_PER_MINUTE.
Proof.
  intros Htd. set (td := next_outage_start - now) in *.
  set (k := (td + 59 * US_PER_SECOND) / US_PER_MINUTE).
  assert (US_PER_MINUTE * k <= td + 59 * US_PER_SECOND < US_PER_MINUTE * (k + 1)) as Hk.
  { unfold k. pose proof (Z.mul_div_le (td + 59 * US_PER_SECOND) US_PER_MINUTE ltac:(done)).
    pose proof (Z.mul_succ_div_gt (td + 59 * US_PER_SECOND) US_PER_MINUTE ltac:(done)). lia. }
  unfold US_PER_MINUTE, US_PER_SECOND in Hk, Htd.
  pose proof (delta_min_between next_outage_start now 21
                ((60 * k - 59) * 2 ^ 21) ((60 * k + 1) * 2 ^ 21 - 1)) as H.
  cbv zeta in H. fold td in H. unfold US_PER_SECOND in H.
  change (2 ^ 21) with 2097152 in *. change (2 ^ 31) with 2147483648 in *.
  change (2 ^ 53) with 9007199254740992 in *.
  assert ((60 * k - 59) * 2097152 * 1000000 <= td * 2097152) as HA by lia.
  assert (td * 2097152 <= ((60 * k + 1) * 2097152 - 1) * 1000000) as HB by lia.
  assert ((60 * k + 1) * 2097152 - 1 + 59 * 2097152 < 9007199254740992) as Hsmall by lia.
  specialize (H (proj1 Htd) ltac:(lia) HA HB Hsmall).
  replace (((60 * k - 59) * 2097152 + 59 * 2097152) / (60 * 2097152)) with k in H
    by (apply Z.div_unique with 0; lia).
  replace (((60 * k + 1) * 2097152 - 1 + 59 * 2097152) / (60 * 2097152)) with k in H
    by (apply Z.div_unique with (60 * 2097152 - 1); lia).
  lia.
Qed.

(** Whatever the distance between two datetimes, the float computation
    gives the exact value or the ceiling of the minutes. *)
Lemma delta_min_bounds (next_outage_start now : datetime) :
  0 < next_outage_start - now < 2 ^ 52 * US_PER_SECOND ->
  (next_outage_start - now + 59 * US_PER_SECOND) / US_PER_MINUTE
  <= delta_min next_outage_start now <= ceil_minutes (next_outage_start - now).
Proof.
  intros Htd. set (td := next_outage_start - now) in *.
  pose proof (delta_min_between next_outage_start now 0
                (td / US_PER_SECOND) (- (- td / US_PER_SECOND))) as H.
  cbv zeta in H. fold td in H. change (2 ^ 0) with 1 in H. rewrite !Z.mul_1_r in H.
  unfold ceil_minutes. unfold US_PER_MINUTE, US_PER_SECOND in *.
  change (2 ^ 52) with 4503599627370496 in *. change (2 ^ 53) with 9007199254740992 in *.
  assert (td / 1000000 * 1000000 <= td) as HA
    by (Z.to_euclidean_division_equations; lia).
  assert (td <= - (- td / 1000000) * 1000000) as HB
    by (Z.to_euclidean_division_equations; lia).
  assert (- (- td / 1000000) + 59 < 9007199254740992) as Hsmall
    by (Z.to_euclidean_division_equations; lia).
  specialize (H (proj1 Htd) ltac:(lia) HA HB Hsmall).
  revert H. Z.to_euclidean_division_equations. lia.
Qed.

(** X11. For an outage ahead of [now] the clamp at 0 never acts and the
    minutes-until value is the ceiling of the distance in minutes or one
    less; it is the ceiling when the distance is a whole number of minutes
    or exceeds one by a second or more, and it is 0 exactly when the outage
    is less than a second away.  Less than [2 ** 31] seconds ahead, it is
    one less than the ceiling exactly when the distance exceeds a whole
    number of minutes by less than a second.  Further ahead the float
    rounding of [total_seconds()] can give the ceiling there too: so it
    does from 2026-02-11 00:00:59.000001 to the midnight that opens the
    year 9000, 220074623940.999999 seconds later. *)
Theorem minutes_until_exact (next_outage_start now : datetime) :
  dt_in_range now = true -> dt_in_range next_outage_start = true ->
  now < next_outage_start ->
  let td := next_outage_start - now in
  let shown := delta_min next_outage_start now in
  next_outage_in_minutes (Some next_outage_start) now = Some shown /\
  0 <= shown /\
  ceil_minutes td - 1 <= shown <= ceil_minutes td /\
  (td mod US_PER_MINUTE = 0 \/ US_PER_SECOND <= td mod US_PER_MINUTE ->
   shown = ceil_minutes td) /\
  (shown = 0 <-> td < US_PER_SECOND) /\
  (td < 2 ^ 31 * US_PER_SECOND ->
   shown = (td + 59 * US_PER_SECOND) / US_PER_MINUTE /\
   (shown = ceil_minutes td - 1 <-> 0 < td mod US_PER_MINUTE < US_PER_SECOND)) /\
  (let far := 220074623940999999 in
   let early := at_time feb11 0 0 59 1 in
   dt_in_range (early + far) = true /\ (early + far) mod ONE_DAY = 0 /\
   0 < far mod US_PER_MINUTE < US_PER_SECOND /\
   delta_min (early + far) early = ceil_minutes far).
Proof.
  intros Hnow Hnext Hlt. cbv zeta.
  apply bool_decide_eq_true_1 in Hnow, Hnext.
  set (td := next_outage_start - now).
  assert (0 < td < 2 ^ 52 * US_PER_SECOND) as Htd.
  { unfold td. change (2 ^ 52) with 4503599627370496. unfold_units. lia. }
  pose proof (delta_min_bounds next_outage_start now Htd) as Hb. fold td in Hb.
  set (shown := delta_min next_outage_start now) in *.
  assert (td < 2 ^ 31 * US_PER_SECOND ->
          shown = (td + 59 * US_PER_SECOND) / US_PER_MINUTE) as Hnear.
  { intros Hsmall. apply delta_min_near. fold td. lia. }
  change (2 ^ 31) with 2147483648 in Hnear.
  change (2 ^ 31) with 2147483648.
  unfold next_outage_in_minutes, ceil_minutes in *. unfold US_PER_MINUTE, US_PER_SECOND in *.
  split; [f_equal; revert Hb; Z.to_euclidean_division_equations; lia|].
  split; [revert Hb; Z.to_euclidean_division_equations; lia|].
  split; [revert Hb; Z.to_euclidean_division_equations; lia|].
  split; [intros Hmod; revert Hb; Z.to_euclidean_division_equations; lia|].
  split.
  { split.
    - intros H0. revert Hb. rewrite H0. Z.to_euclidean_division_equations. lia.
    - intros Hsec. rewrite Hnear by lia. Z.to_euclidean_division_equations. lia. }
  split.
  { intros Hsmall. specialize (Hnear Hsmall). split; [exact Hnear|].
    rewrite Hnear. split; intros H; revert H; Z.to_euclidean_division_equations; lia. }
  split; [vm_compute; reflexivity|].
  split; [vm_compute; reflexivity|].
  split; [vm_compute; split; reflexivity|].
  vm_compute. reflexivity.
Qed.

Lemma minutes_until_exact_witness :
  let now := at_time feb11 9 58 59 500000 in
  let next_outage_start := at_time feb11 10 0 0 0 in
  dt_in_range now = true /\ dt_in_range next_outage_start = true /\
  now < next_outage_start /\
  next_outage_in_minutes (Some next_outage_start) now = Some 1 /\
  delta_min next_outage_start now = ceil_minutes (next_outage_start - now) - 1.
Proof.
  cbv zeta.
  assert (at_time feb11 9 58 59 500000 < at_time feb11 10 0 0 0) as H by (vm_compute; reflexivity).
  split; [reflexivity|]. split; [reflexivity|]. split; [exact H|].
  pose proof (minutes_until_exact (at_time feb11 10 0 0 0) (at_time feb11 9 58 59 500000)
                eq_refl eq_refl H) as (Hshown & _ & _ & _ & _ & Hnear & _).
  split; [rewrite Hshown; vm_compute; reflexivity|].
  apply Hnear; vm_compute; [reflexivity|split; reflexivity].
Defined.

(** ** The raw-payload cache, continued *)

(** X12. A call for one region leaves the entries of every other region as
    they were, drops no entry, and issues at most one upstream request:
    none exactly when the region has an unexpired entry.  A payload it
    returns is the one the cache holds for the region afterwards, with an
    expiry still ahead or set to [now + ttl]; when it raises, the cache is
    unchanged. *)
Theorem fetch_raw_effects (ttl now : Z) (reply : upstream_reply) (region_cpu : string)
    (w : world) :
  let outcome := (fetch_raw ttl now reply region_cpu w).1 in
  let w' := (fetch_raw ttl now reply region_cpu w).2 in
  (forall other, other <> region_cpu -> raw_cache w' !! other = raw_cache w !! other) /\
  (forall other, is_Some (raw_cache w !! other) -> is_Some (raw_cache w' !! other)) /\
  (requests w' = requests w \/ requests w' = S (requests w)) /\
  (requests w' = requests w <-> exists data, live_entry w region_cpu now data) /\
  (forall data, outcome = Ok data ->
     exists expires, raw_cache w' !! region_cpu = Some (expires, data) /\
                     (expires > now \/ expires = now + ttl)) /\
  (forall e, outcome = Raise e -> raw_cache w' = raw_cache w).
Proof.
  cbv zeta.
  assert ((exists data, live_entry w region_cpu now data) \/
          ~ (exists data, live_entry w region_cpu now data)) as [[data Hlive]|Hdead].
  { unfold live_entry. destruct (raw_cache w !! region_cpu) as [[expires data]|].
    - destruct (decide (expires > now)) as [Hlive|Hexp].
      + left. exists data, expires. done.
      + right. intros (data' & expires' & [= <- <-] & ?). done.
    - right. intros (data' & expires' & [=] & _). }
  - rewrite (fetch_raw_hit ttl now reply region_cpu w data Hlive). cbn [fst snd].
    split; [done|]. split; [done|]. split; [by left|]. split; [split; [intros _; by exists data|done]|].
    split; [|done]. intros data' [= <-]. destruct Hlive as (expires & Hc & Hexp).
    exists expires. split; [done|by left].
  - rewrite fetch_raw_miss by (intros data Hl; apply Hdead; by exists data).
    destruct (http_get_json reply) as [data|e]; cbn [fst snd raw_cache requests].
    + split; [intros other Hne; by rewrite lookup_insert_ne|].
      split.
      { intros other Hsome. destruct (decide (other = region_cpu)) as [->|Hne].
        - rewrite lookup_insert_eq. by eexists.
        - by rewrite lookup_insert_ne. }
      split; [by right|]. split; [split; [lia|done]|].
      split; [|done]. intros data' [= <-]. exists (now + ttl).
      rewrite lookup_insert_eq. split; [done|by right].
    + split; [done|]. split; [done|]. split; [by right|]. split; [split; [lia|done]|].
      split; [done|done].
Qed.

(** ** Region lookup, continued *)

Lemma find_region_skip (before rest : list json) (region_cpu : string) :
  Forall (fun x => is_dict x /\ ~ region_matches x region_cpu) before ->
  find_region (before ++ rest) region_cpu = find_region rest region_cpu.
Proof.
  induction 1 as [|x before [Hd Hm] _ IH]; [done|].
  destruct x as [| | | | | |d]; try done. cbn [app find_region json_get]. rewrite bind_Ok_l.
  destruct (json_eq_str (default JNull (d !! "cpu"%string)) region_cpu) eqn:Heq; [|exact IH].
  apply region_matches_dict in Heq. done.
Qed.

(** X13. The region search stops at the first block that decides it.  After
    blocks that are objects with another identifier, a block with the
    identifier asked for is returned whatever follows it in the list, and an
    entry that is not an object raises [AttributeError] even if a matching
    block follows. *)
Theorem region_search_first_match (payload : gmap string json) (before after : list json)
    (r : json) (region_cpu : string) :
  payload !! "regions"%string = Some (JList (before ++ r :: after)) ->
  Forall (fun x => is_dict x /\ ~ region_matches x region_cpu) before ->
  (region_matches r region_cpu ->
   extract_region_block (JDict payload) region_cpu = Ok r) /\
  (~ is_dict r ->
   extract_region_block (JDict payload) region_cpu = Raise AttributeError).
Proof.
  intros Hregions Hbefore.
  assert (extract_region_block (JDict payload) region_cpu =
          find_region (r :: after) region_cpu) as ->.
  { unfold extract_region_block. cbn [json_get]. rewrite Hregions, bind_Ok_l.
    cbn [default from_option id json_iter]. rewrite bind_Ok_l. by apply find_region_skip. }
  split.
  - intros Hm. pose proof Hm as (d & -> & _). cbn [find_region json_get]. rewrite bind_Ok_l.
    apply region_matches_dict in Hm. by rewrite Hm.
  - intros Hnd. destruct r; try done.
Qed.

Lemma region_search_first_match_witness :
  let kyiv := JDict {[ "cpu"%string := JStr "kyiv" ]} in
  let dnipro := JDict {[ "cpu"%string := JStr "dnipro" ]} in
  let payload : gmap string json := {[ "regions"%string := JList ([kyiv] ++ dnipro :: [JInt 5]) ]} in
  payload !! "regions"%string = Some (JList ([kyiv] ++ dnipro :: [JInt 5])) /\
  Forall (fun x => is_dict x /\ ~ region_matches x "dnipro") [kyiv] /\
  region_matches dnipro "dnipro" /\
  extract_region_block (JDict payload) "dnipro" = Ok dnipro.
Proof.
  cbv zeta.
  assert (({[ "regions"%string := JList ([JDict {[ "cpu"%string := JStr "kyiv" ]}] ++
              JDict {[ "cpu"%string := JStr "dnipro" ]} :: [JInt 5]) ]} : gmap string json)
            !! "regions"%string =
          Some (JList ([JDict {[ "cpu"%string := JStr "kyiv" ]}] ++
              JDict {[ "cpu"%string := JStr "dnipro" ]} :: [JInt 5]))) as H1 by reflexivity.
  assert (Forall (fun x => is_dict x /\ ~ region_matches x "dnipro")
            [JDict {[ "cpu"%string := JStr "kyiv" ]}]) as H2.
  { constructor; [|constructor]. split; [exact I|]. intros (d & [= <-] & Hd).
    vm_compute in Hd. discriminate. }
  assert (region_matches (JDict {[ "cpu"%string := JStr "dnipro" ]}) "dnipro") as H3.
  { eexists. split; reflexivity. }
  split; [exact H1|]. split; [exact H2|]. split; [exact H3|].
  exact (proj1 (region_search_first_match _ _ _ _ "dnipro" H1 H2) H3).
Defined.

(** ** The schedule of a group *)

Lemma hex_fixed_length (n : nat) (x : Z) : String.length (hex_fixed n x) = n.
Proof. induction n as [|n IH]; [done|]. cbn [hex_fixed String.length]. by rewrite IH. Qed.

Lemma hash_schedule_length (date_today : string) (slots_today : gmap string Z)
    (date_tomorrow : string) (slots_tomorrow : gmap string Z) (h : string) :
  hash_schedule date_today slots_today date_tomorrow slots_tomorrow = Ok h ->
  String.length h = 64%nat.
Proof.
  unfold hash_schedule. intros H. inv_bind H. injection H as <-.
  unfold sha256_hexdigest. apply hex_fixed_length.
Qed.

(** With both dates parsed and their next days representable, the
    fingerprint is computed. *)
Lemma hash_schedule_returns (date_today : string) (slots_today : gmap string Z)
    (date_tomorrow : string) (slots_tomorrow : gmap string Z) (d1 d2 : datetime) :
  date_to_dt date_today = Ok d1 -> dt_in_range (d1 + ONE_DAY) = true ->
  date_to_dt date_tomorrow = Ok d2 -> dt_in_range (d2 + ONE_DAY) = true ->
  exists h, hash_schedule date_today slots_today date_tomorrow slots_tomorrow = Ok h.
Proof.
  intros Hd1 Hr1 Hd2 Hr2. unfold hash_schedule, schedule_text.
  rewrite (proj2 (slots_normalized_spec date_today slots_today _)
             (ex_intro _ d1 (conj Hd1 (conj Hr1 eq_refl)))), bind_Ok_l.
  rewrite (proj2 (slots_normalized_spec date_tomorrow slots_tomorrow _)
             (ex_intro _ d2 (conj Hd2 (conj Hr2 eq_refl)))), !bind_Ok_l.
  by eexists.
Qed.

(** What a returned schedule was computed from. *)
Lemma schedule_of_payload_Ok (repr_other : json -> string) (payload : json) (now : datetime)
    (group_name region_cpu : string) (sd : Schedule.t) :
  schedule_of_payload repr_other payload now group_name region_cpu = Ok sd ->
  exists slots_today slots_tomorrow,
    slots_to_off_intervals (Schedule.date_today sd) slots_today = Ok (Schedule.today_off sd) /\
    slots_to_off_intervals (Schedule.date_tomorrow sd) slots_tomorrow =
      Ok (Schedule.tomorrow_off sd) /\
    is_now_has_power now (Schedule.date_today sd) slots_today = Ok (Schedule.now_has_power sd) /\
    hash_schedule (Schedule.date_today sd) slots_today (Schedule.date_tomorrow sd) slots_tomorrow =
      Ok (Schedule.schedule_hash sd) /\
    Schedule.region sd = region_cpu /\ Schedule.group sd = group_name /\
    Schedule.total_off_today_minutes sd = total_minutes (Schedule.today_off sd) /\
    Schedule.next_outage_start_dt sd =
      find_next_outage now (Schedule.today_off sd) (Schedule.tomorrow_off sd) /\
    Schedule.next_outage_in_minutes sd =
      next_outage_in_minutes (Schedule.next_outage_start_dt sd) now.
Proof.
  unfold schedule_of_payload. intros H.
  inv_bind H. cbv zeta in H. inv_bind H. inv_bind H. inv_bind H. inv_bind H. inv_bind H.
  inv_bind H. inv_bind H. inv_bind H. inv_bind H. injection H as <-.
  cbn [Schedule.region Schedule.group Schedule.date_today Schedule.date_tomorrow
       Schedule.now_has_power Schedule.today_off Schedule.tomorrow_off
       Schedule.total_off_today_minutes Schedule.next_outage_start_dt
       Schedule.next_outage_in_minutes Schedule.schedule_hash].
  exists a2, a3. repeat (split; [done|]). done.
Qed.

(** X14. What [get_schedule] returns hangs together.  The intervals of
    both days are well formed; the total is that of today's intervals, a
    multiple of 30 between 0 and 1440; the power flag is false whenever
    [now] lies inside one of today's intervals; the next outage, when there
    is one, starts after [now] at the start of one of the intervals listed,
    and comes with a minutes-until value that is not negative; without a
    next outage there is no minutes-until value; and the fingerprint has 64
    characters. *)
Theorem get_schedule_result (repr_other : json -> string) (ttl clock : Z)
    (reply : upstream_reply) (now : datetime) (group_name region_cpu : string)
    (w w' : world) (sd : Schedule.t) :
  get_schedule repr_other ttl clock reply now group_name region_cpu w = (Ok sd, w') ->
  Schedule.region sd = region_cpu /\ Schedule.group sd = group_name /\
  well_formed_intervals (Schedule.today_off sd) /\
  well_formed_intervals (Schedule.tomorrow_off sd) /\
  Schedule.total_off_today_minutes sd = total_minutes (Schedule.today_off sd) /\
  0 <= Schedule.total_off_today_minutes sd <= 1440 /\
  (30 | Schedule.total_off_today_minutes sd) /\
  (in_outage (Schedule.today_off sd) now -> Schedule.now_has_power sd = false) /\
  (forall s, Schedule.next_outage_start_dt sd = Some s ->
     now < s /\
     (exists it, it ∈ Schedule.today_off sd ++ Schedule.tomorrow_off sd /\ start it = s) /\
     (exists n, Schedule.next_outage_in_minutes sd = Some n /\ 0 <= n)) /\
  (Schedule.next_outage_start_dt sd = None -> Schedule.next_outage_in_minutes sd = None) /\
  String.length (Schedule.schedule_hash sd) = 64%nat.
Proof.
  unfold get_schedule. cbv zeta. intros [= H _].
  inv_bind H. clear Ha.
  apply schedule_of_payload_Ok in H
    as (s1 & s2 & Htoday & Htomorrow & Hpower & Hhash & Hreg & Hgrp & Htotal & Hnext & Hmin).
  split; [done|]. split; [done|].
  pose proof Htoday as Htoday'.
  apply slots_to_off_intervals_spec in Htoday' as (d1 & Hd1 & Hr1 & Hiv1).
  pose proof Htomorrow as Htomorrow'.
  apply slots_to_off_intervals_spec in Htomorrow' as (d2 & Hd2 & Hr2 & Hiv2).
  split; [rewrite Hiv1; apply run_intervals_well_formed|].
  split; [rewrite Hiv2; apply run_intervals_well_formed|].
  split; [done|].
  assert (Schedule.total_off_today_minutes sd = 30 * count_off (day_off s1) 0 48) as Hcount.
  { rewrite Htotal, Hiv1, total_minutes_runs. unfold day_runs. rewrite off_runs_total. lia. }
  pose proof (count_off_le (day_off s1) 0 48) as Hle.
  assert (0 <= count_off (day_off s1) 0 48) as Hge by (unfold count_off; lia).
  split; [lia|]. split; [exists (count_off (day_off s1) 0 48); lia|].
  split.
  { intros Hin.
    destruct (power_flag_in_outage now _ _ _ d1 Htoday Hd1) as (b & Hb & Hfalse).
    rewrite Hb in Hpower. injection Hpower as <-. by apply Hfalse. }
  split.
  { intros s Hs. rewrite Hmin, Hs. rewrite Hnext in Hs.
    apply find_next_outage_Some in Hs as (Hlt & Hex & _).
    split; [done|]. split; [done|]. cbn [next_outage_in_minutes].
    eexists. split; [done|]. lia. }
  split; [intros Hnone; by rewrite Hmin, Hnone|].
  by eapply hash_schedule_length.
Qed.

Lemma get_schedule_feed :
  get_schedule no_repr 600 1000 feed_reply (at_time feb11 9 0 0 0) "2.1" "dnipro" empty_world =
  (Ok feed_schedule,
   {| raw_cache := {[ "dnipro"%string := (1600, feed_payload) ]}; requests := 1 |}).
Proof. vm_compute. reflexivity. Qed.

Lemma get_schedule_result_witness :
  get_schedule no_repr 600 1000 feed_reply (at_time feb11 9 0 0 0) "2.1" "dnipro" empty_world =
    (Ok feed_schedule,
     {| raw_cache := {[ "dnipro"%string := (1600, feed_payload) ]}; requests := 1 |}) /\
  well_formed_intervals (Schedule.today_off feed_schedule) /\
  String.length (Schedule.schedule_hash feed_schedule) = 64%nat.
Proof.
  split; [exact get_schedule_feed|].
  pose proof (get_schedule_result _ _ _ _ _ _ _ _ _ _ get_schedule_feed)
    as (_ & _ & H1 & _ & _ & _ & _ & _ & _ & _ & H2).
  exact (conj H1 H2).
Defined.

(** X15. For a payload that has both dates as strings that parse (the last
    representable day apart), a block for the region, and objects (or
    nothing) at the schedule, group and date levels, [get_schedule] returns:
    none of its later steps can raise.  The intervals it returns are the
    runs of off slots of the values [int] accepts, and the region name is
    the block's ["name_ua"] entry, [None] when there is none. *)
Theorem get_schedule_returns (repr_other : json -> string) (ttl clock : Z)
    (reply : upstream_reply) (now : datetime) (group_name region_cpu : string) (w : world)
    (payload block day1 day2 : gmap string json) (date1 date2 : string) (d1 d2 : datetime) :
  (fetch_raw ttl clock reply region_cpu w).1 = Ok (JDict payload) ->
  payload !! "date_today"%string = Some (JStr date1) ->
  payload !! "date_tomorrow"%string = Some (JStr date2) ->
  extract_region_block (JDict payload) region_cpu = Ok (JDict block) ->
  day_block block group_name date1 = Some day1 ->
  day_block block group_name date2 = Some day2 ->
  date_to_dt date1 = Ok d1 -> dt_in_range (d1 + ONE_DAY) = true ->
  date_to_dt date2 = Ok d2 -> dt_in_range (d2 + ONE_DAY) = true ->
  exists sd,
    (get_schedule repr_other ttl clock reply now group_name region_cpu w).1 = Ok sd /\
    Schedule.date_today sd = date1 /\ Schedule.date_tomorrow sd = date2 /\
    Schedule.today_off sd = map (run_interval d1) (day_runs (omap py_int day1)) /\
    Schedule.tomorrow_off sd = map (run_interval d2) (day_runs (omap py_int day2)) /\
    Schedule.region_name_ua sd = default JNull (block !! "name_ua"%string).
Proof.
  intros Hfetch Hk1 Hk2 Hblock Hday1 Hday2 Hd1 Hr1 Hd2 Hr2.
  unfold get_schedule. cbv zeta. cbn [fst]. rewrite Hfetch, bind_Ok_l.
  unfold schedule_of_payload. cbn [json_get]. rewrite !bind_Ok_l, Hk1, Hk2.
  cbn [from_option id py_str]. rewrite Hblock, bind_Ok_l.
  rewrite !extract_slots_spec, Hday1, bind_Ok_l, Hday2, bind_Ok_l.
  rewrite (proj2 (slots_to_off_intervals_spec date1 (omap py_int day1) _)
             (ex_intro _ d1 (conj Hd1 (conj Hr1 eq_refl)))), bind_Ok_l.
  rewrite (proj2 (slots_to_off_intervals_spec date2 (omap py_int day2) _)
             (ex_intro _ d2 (conj Hd2 (conj Hr2 eq_refl)))), bind_Ok_l.
  rewrite (is_now_has_power_eval now date1 _ d1 Hd1 Hr1), bind_Ok_l.
  destruct (hash_schedule_returns date1 (omap py_int day1) date2 (omap py_int day2) d1 d2
              Hd1 Hr1 Hd2 Hr2) as [h Hh].
  rewrite Hh, bind_Ok_l. cbn [json_get]. rewrite bind_Ok_l.
  eexists. split; [reflexivity|].
  cbn [Schedule.date_today Schedule.date_tomorrow Schedule.today_off Schedule.tomorrow_off
       Schedule.region_name_ua].
  repeat (split; [reflexivity|]). reflexivity.
Qed.

Lemma get_schedule_returns_witness :
  (fetch_raw 600 1000 feed_reply "dnipro" empty_world).1 = Ok (JDict feed_dict) /\
  date_to_dt "2026-02-11" = Ok feb11 /\
  date_to_dt "2026-02-12" = Ok (feb11 + ONE_DAY) /\
  exists sd,
    (get_schedule no_repr 600 1000 feed_reply (at_time feb11 9 0 0 0) "2.1" "dnipro"
       empty_world).1 = Ok sd /\
    Schedule.date_today sd = "2026-02-11"%string /\
    Schedule.date_tomorrow sd = "2026-02-12"%string /\
    Schedule.today_off sd =
      map (run_interval feb11) (day_runs (omap py_int {[ "10:00"%string := JInt 2 ]})) /\
    Schedule.tomorrow_off sd = map (run_interval (feb11 + ONE_DAY)) (day_runs (omap py_int ∅)) /\
    Schedule.region_name_ua sd = default JNull (feed_block !! "name_ua"%string).
Proof.
  assert ((fetch_raw 600 1000 feed_reply "dnipro" empty_world).1 = Ok (JDict feed_dict)) as H1
    by (vm_compute; reflexivity).
  assert (feed_dict !! "date_today"%string = Some (JStr "2026-02-11")) as H2
    by (vm_compute; reflexivity).
  assert (feed_dict !! "date_tomorrow"%string = Some (JStr "2026-02-12")) as H3
    by (vm_compute; reflexivity).
  assert (extract_region_block (JDict feed_dict) "dnipro" = Ok (JDict feed_block)) as H4
    by (vm_compute; reflexivity).
  assert (day_block feed_block "2.1" "2026-02-11" = Some {[ "10:00"%string := JInt 2 ]}) as H5
    by (vm_compute; reflexivity).
  assert (day_block feed_block "2.1" "2026-02-12" = Some ∅) as H6
    by (vm_compute; reflexivity).
  assert (dt_in_range (feb11 + ONE_DAY) = true) as H7 by (vm_compute; reflexivity).
  assert (dt_in_range (feb11 + ONE_DAY + ONE_DAY) = true) as H8 by (vm_compute; reflexivity).
  split; [exact H1|]. split; [exact date_to_dt_feb11|]. split; [exact date_to_dt_feb12|].
  exact (get_schedule_returns no_repr 600 1000 feed_reply (at_time feb11 9 0 0 0) "2.1" "dnipro"
           empty_world feed_dict feed_block _ _ "2026-02-11" "2026-02-12" feb11 (feb11 + ONE_DAY)
           H1 H2 H3 H4 H5 H6 date_to_dt_feb11 H7 date_to_dt_feb12 H8).
Defined.

Lemma get_schedule_hit (repr_other : json -> string) (ttl clock : Z) (reply : upstream_reply)
    (now : datetime) (group_name region_cpu : string) (w : world) (data : json) :
  live_entry w region_cpu clock data ->
  get_schedule repr_other ttl clock reply now group_name region_cpu w =
  (schedule_of_payload repr_other data now group_name region_cpu, w).
Proof.
  intros Hlive. unfold get_schedule. cbv zeta.
  by rewrite (fetch_raw_hit ttl clock reply region_cpu w data Hlive).
Qed.

Lemma schedule_of_payload_no_region (repr_other : json -> string) (payload : json)
    (now : datetime) (group_name region_cpu : string) :
  extract_region_block payload region_cpu = Raise ValueError ->
  schedule_of_payload repr_other payload now group_name region_cpu = Raise ValueError.
Proof.
  intros H. unfold schedule_of_payload. destruct payload as [| | | | | |p]; try discriminate.
  cbn [json_get]. rewrite !bind_Ok_l. cbv zeta. by rewrite H.
Qed.

(** X16. The payload is stored before anything is read from it.  After a
    fetch that succeeded, every call for the region before the entry expires
    is answered from the stored payload alone, with no upstream request and
    whatever the upstream would answer; if the payload lacks the region,
    these calls all raise the region-not-found [ValueError], as the first
    one did. *)
Theorem get_schedule_served_from_cache (repr_other : json -> string) (ttl clock : Z)
    (reply : upstream_reply) (now : datetime) (group_name region_cpu : string) (w : world)
    (payload : json) :
  (forall data, ~ live_entry w region_cpu clock data) ->
  http_get_json reply = Ok payload ->
  let first := get_schedule repr_other ttl clock reply now group_name region_cpu w in
  first.1 = schedule_of_payload repr_other payload now group_name region_cpu /\
  raw_cache first.2 = <[region_cpu := (clock + ttl, payload)]> (raw_cache w) /\
  requests first.2 = S (requests w) /\
  (forall later reply' now' group_name',
     later < clock + ttl ->
     get_schedule repr_other ttl later reply' now' group_name' region_cpu first.2 =
     (schedule_of_payload repr_other payload now' group_name' region_cpu, first.2)) /\
  (extract_region_block payload region_cpu = Raise ValueError ->
   first.1 = Raise ValueError /\
   forall later reply' now' group_name',
     later < clock + ttl ->
     get_schedule repr_other ttl later reply' now' group_name' region_cpu first.2 =
     (Raise ValueError, first.2)).
Proof.
  intros Hdead Hreply. cbv zeta.
  assert (get_schedule repr_other ttl clock reply now group_name region_cpu w =
          (schedule_of_payload repr_other payload now group_name region_cpu,
           {| raw_cache := <[region_cpu := (clock + ttl, payload)]> (raw_cache w);
              requests := S (requests w) |})) as ->.
  { unfold get_schedule. cbv zeta. by rewrite fetch_raw_miss, Hreply by done. }
  cbn [fst snd raw_cache requests].
  assert (forall later reply' now' group_name',
            later < clock + ttl ->
            get_schedule repr_other ttl later reply' now' group_name' region_cpu
              {| raw_cache := <[region_cpu := (clock + ttl, payload)]> (raw_cache w);
                 requests := S (requests w) |} =
            (schedule_of_payload repr_other payload now' group_name' region_cpu,
             {| raw_cache := <[region_cpu := (clock + ttl, payload)]> (raw_cache w);
                requests := S (requests w) |})) as Hlater.
  { intros later reply' now' group_name' Hlt. apply get_schedule_hit.
    exists (clock + ttl). cbn [raw_cache]. rewrite lookup_insert_eq. split; [done|lia]. }
  split; [done|]. split; [done|]. split; [done|]. split; [exact Hlater|].
  intros Hnone. split; [by apply schedule_of_payload_no_region|].
  intros later reply' now' group_name' Hlt.
  rewrite Hlater by done. by rewrite schedule_of_payload_no_region.
Qed.

Lemma get_schedule_served_from_cache_witness :
  (forall data, ~ live_entry empty_world "kyiv" 1000 data) /\
  http_get_json feed_reply = Ok feed_payload /\
  extract_region_block feed_payload "kyiv" = Raise ValueError /\
  (get_schedule no_repr 600 1000 feed_reply (at_time feb11 9 0 0 0) "2.1" "kyiv"
     empty_world).1 = Raise ValueError.
Proof.
  assert (forall data, ~ live_entry empty_world "kyiv" 1000 data) as H1.
  { intros data (expires & Hc & _). vm_compute in Hc. discriminate. }
  assert (http_get_json feed_reply = Ok feed_payload) as H2 by reflexivity.
  assert (extract_region_block feed_payload "kyiv" = Raise ValueError) as H3
    by (vm_compute; reflexivity).
  split; [exact H1|]. split; [exact H2|]. split; [exact H3|].
  exact (proj1 (proj2 (proj2 (proj2 (proj2
           (get_schedule_served_from_cache no_repr 600 1000 feed_reply (at_time feb11 9 0 0 0)
              "2.1" "kyiv" empty_world feed_payload H1 H2)))) H3)).
Defined.

(** X17. [ValueError] is not only the error of a missing region.  When the
    payload has no ["date_today"] entry, or has [null] there, the date text
    is ["None"]: with the region present and nothing wrong in its schedule,
    [get_schedule] raises the [ValueError] of a date that does not parse. *)
Theorem get_schedule_missing_date (repr_other : json -> string) (ttl clock : Z)
    (reply : upstream_reply) (now : datetime) (group_name region_cpu : string) (w : world)
    (payload block day1 : gmap string json) (slots_tomorrow : gmap string Z) :
  (fetch_raw ttl clock reply region_cpu w).1 = Ok (JDict payload) ->
  default JNull (payload !! "date_today"%string) = JNull ->
  extract_region_block (JDict payload) region_cpu = Ok (JDict block) ->
  day_block block group_name "None" = Some day1 ->
  extract_slots (JDict block) group_name
    (py_str repr_other (default JNull (payload !! "date_tomorrow"%string))) = Ok slots_tomorrow ->
  (get_schedule repr_other ttl clock reply now group_name region_cpu w).1 = Raise ValueError.
Proof.
  intros Hfetch Hk1 Hblock Hday1 Htomorrow.
  unfold get_schedule. cbv zeta. cbn [fst]. rewrite Hfetch, bind_Ok_l.
  unfold schedule_of_payload. cbn [json_get]. rewrite !bind_Ok_l, Hk1.
  cbn [py_str]. cbv zeta. rewrite Hblock, bind_Ok_l.
  rewrite (extract_slots_spec block group_name "None"), Hday1, bind_Ok_l, Htomorrow, bind_Ok_l.
  rewrite (slots_to_off_intervals_eval "None").
  assert (date_to_dt "None" = Raise ValueError) as -> by (vm_compute; reflexivity).
  reflexivity.
Qed.

Lemma get_schedule_missing_date_witness :
  let payload : gmap string json :=
    list_to_map [("date_tomorrow", JStr "2026-02-12"); ("regions", JList [JDict feed_block])]%string in
  (fetch_raw 600 1000 (Response 200 (Some (JDict payload))) "dnipro" empty_world).1 =
    Ok (JDict payload) /\
  default JNull (payload !! "date_today"%string) = JNull /\
  extract_region_block (JDict payload) "dnipro" = Ok (JDict feed_block) /\
  (get_schedule no_repr 600 1000 (Response 200 (Some (JDict payload))) (at_time feb11 9 0 0 0)
     "2.1" "dnipro" empty_world).1 = Raise ValueError.
Proof.
  cbv zeta.
  set (payload := (list_to_map [("date_tomorrow", JStr "2026-02-12");
                                ("regions", JList [JDict feed_block])]%string
                   : gmap string json)).
  assert ((fetch_raw 600 1000 (Response 200 (Some (JDict payload))) "dnipro" empty_world).1 =
          Ok (JDict payload)) as H1 by (vm_compute; reflexivity).
  assert (default JNull (payload !! "date_today"%string) = JNull) as H2
    by (vm_compute; reflexivity).
  assert (extract_region_block (JDict payload) "dnipro" = Ok (JDict feed_block)) as H3
    by (vm_compute; reflexivity).
  assert (day_block feed_block "2.1" "None" = Some ∅) as H4 by (vm_compute; reflexivity).
  assert (extract_slots (JDict feed_block) "2.1"
            (py_str no_repr (default JNull (payload !! "date_tomorrow"%string))) = Ok ∅) as H5
    by (vm_compute; reflexivity).
  split; [exact H1|]. split; [exact H2|]. split; [exact H3|].
  exact (get_schedule_missing_date no_repr 600 1000 _ (at_time feb11 9 0 0 0) "2.1" "dnipro"
           empty_world payload feed_block ∅ ∅ H1 H2 H3 H4 H5).
Defined.

(** ** The texts of the status card *)

Lemma split_at_char (c : ascii) (u : string) :
  forall (u' t t' : string),
    avoids c u -> avoids c u' ->
    u +:+ String c t = u' +:+ String c t' -> u = u' /\ t = t'.
Proof.
  induction u as [|x u IH]; intros u' t t' Hu Hu' Heq.
  - destruct u' as [|x' u']; rewrite ?str_app_cons in Heq.
    + change ("" +:+ String c t) with (String c t) in Heq.
      change ("" +:+ String c t') with (String c t') in Heq.
      by apply String_inj in Heq as ->.
    + change ("" +:+ String c t) with (String c t) in Heq. destruct Hu' as [Hc _].
      injection Heq as <- _. done.
  - destruct u' as [|x' u']; rewrite ?str_app_cons in Heq.
    + change ("" +:+ String c t') with (String c t') in Heq. destruct Hu as [Hc _].
      injection Heq as -> _. done.
    + destruct Hu as [_ Hu], Hu' as [_ Hu']. injection Heq as -> Heq.
      destruct (IH u' t t' Hu Hu' Heq) as [-> ->]. done.
Qed.

Lemma avoids_uint (c : ascii) (d : Decimal.uint) :
  is_decimal_char c = false -> avoids c (NilEmpty.string_of_uint d).
Proof.
  intros Hc. induction d; simpl; [done|..];
    (split; [intros <-; vm_compute in Hc; discriminate|done]).
Qed.

Lemma avoids_py_str_int (c : ascii) (z : Z) :
  is_decimal_char c = false -> avoids c (py_str_int z).
Proof.
  intros Hc. unfold py_str_int, NilZero.string_of_int, NilZero.string_of_uint.
  destruct (Z.to_int z) as [d|d].
  - destruct d; [simpl; split; [intros <-; vm_compute in Hc; discriminate|done]
                |by apply avoids_uint ..].
  - split; [intros <-; vm_compute in Hc; discriminate|].
    destruct d; [simpl; split; [intros <-; vm_compute in Hc; discriminate|done]
                |by apply avoids_uint ..].
Qed.

(** The text of a number of minutes: a decimal, a space and what follows. *)
Lemma fmt_minutes_Some (total : Z) :
  exists (x : Z) (rest : string),
    fmt_minutes (Some total) = py_str_int x +:+ String " " rest /\
    ((total / 60 <> 0 /\ total mod 60 <> 0 /\ x = total / 60 /\
      rest = "год " +:+ py_str_int (total mod 60) +:+ " хв") \/
     (total / 60 <> 0 /\ total mod 60 = 0 /\ x = total / 60 /\ rest = "год") \/
     (total / 60 = 0 /\ x = total mod 60 /\ rest = "хв"))%string.
Proof.
  unfold fmt_minutes. cbv zeta.
  destruct (decide (total / 60 = 0)) as [Hh|Hh].
  - rewrite (bool_decide_eq_true_2 _ Hh). cbn [negb andb].
    exists (total mod 60), "хв"%string. split; [done|]. right. right. done.
  - rewrite (bool_decide_eq_false_2 _ Hh). cbn [negb andb].
    destruct (decide (total mod 60 = 0)) as [Hm|Hm].
    + rewrite (bool_decide_eq_true_2 _ Hm). cbn [negb].
      exists (total / 60), "год"%string. split; [done|]. right. left. done.
    + rewrite (bool_decide_eq_false_2 _ Hm). cbn [negb].
      exists (total / 60), ("год " +:+ py_str_int (total mod 60) +:+ " хв")%string.
      split; [done|]. left. done.
Qed.

Ltac str_norm H :=
  repeat (rewrite str_app_cons in H);
  repeat match type of H with
         | context [(""%string +:+ ?x)%string] => change (""%string +:+ x)%string with x in H
         end.

(** X18. [_fmt_minutes] tells its arguments apart: two different numbers
    of minutes never have the same text, and the text of a missing value is
    that of no number. *)
Theorem fmt_minutes_injective (a b : option Z) :
  fmt_minutes a = fmt_minutes b -> a = b.
Proof.
  assert (is_decimal_char " " = false) as Hsp by (vm_compute; reflexivity).
  assert (forall total, fmt_minutes None <> fmt_minutes (Some total)) as Hnone.
  { intros total Heq. destruct (fmt_minutes_Some total) as (x & rest & Hx & _).
    rewrite Hx in Heq. change (fmt_minutes None) with "—"%string in Heq.
    assert (is_decimal_char "226" = false) as Hd by (vm_compute; reflexivity).
    pose proof (avoids_py_str_int "226" x Hd) as Hav.
    destruct (py_str_int x) as [|c r]; str_norm Heq; [discriminate|].
    destruct Hav as [Hc _]. injection Heq as <-. done. }
  destruct a as [a|], b as [b|]; [|intros H; by destruct (Hnone a)|
                                  intros H; by destruct (Hnone b)|done].
  destruct (fmt_minutes_Some a) as (x & rest & -> & Ha).
  destruct (fmt_minutes_Some b) as (y & rest' & -> & Hb).
  intros Heq. apply split_at_char in Heq as [Hxy Hrest]; [|by apply avoids_py_str_int..].
  apply py_str_int_inj in Hxy as <-.
  assert (a / 60 = b / 60 /\ a mod 60 = b mod 60) as [Hh Hm];
    [|f_equal; Z.to_euclidean_division_equations; lia].
  destruct Ha as [(Ha1 & Ha2 & -> & ->)|[(Ha1 & Ha2 & -> & ->)|(Ha1 & -> & ->)]];
    destruct Hb as [(Hb1 & Hb2 & Hb3 & ->)|[(Hb1 & Hb2 & Hb3 & ->)|(Hb1 & Hb3 & ->)]];
    str_norm Hrest; try discriminate.
  - split; [done|]. do 6 apply String_inj in Hrest.
    change (String " " ?r) with (""%string +:+ String " " r) in Hrest.
    assert (py_str_int (a mod 60) +:+ String " " "хв" =
            py_str_int (b mod 60) +:+ String " " "хв")%string as Hrest'.
    { apply String_inj in Hrest. exact Hrest. }
    apply split_at_char in Hrest' as [Hm _]; [|by apply avoids_py_str_int..].
    by apply py_str_int_inj.
  - split; [done|]. congruence.
  - split; [congruence|done].
Qed.

Lemma fmt_minutes_injective_witness :
  fmt_minutes (Some 90) = "1 год 30 хв"%string /\
  fmt_minutes (Some 90) = fmt_minutes (Some (60 + 30)) /\ Some 90 = Some (60 + 30).
Proof.
  assert (fmt_minutes (Some 90) = fmt_minutes (Some (60 + 30))) as H by reflexivity.
  split; [reflexivity|]. split; [exact H|].
  exact (fmt_minutes_injective _ _ H).
Defined.

Lemma slot_key_wrap (m : nat) : (m <= 48)%nat -> slot_key m = slot_key (m mod 48).
Proof.
  intros Hm. destruct (decide (m = 48%nat)) as [->|Hne]; [vm_compute; reflexivity|].
  by rewrite Nat.mod_small by lia.
Qed.

Lemma interval_line_run (ord : Z) (r : nat * nat) :
  (r.2 <= 48)%nat -> interval_line (run_interval (ord * US_PER_DAY) r) = run_line r.
Proof.
  intros Hm. unfold interval_line, run_line, run_interval. cbn [start end_].
  by rewrite !time_str_boundary, (slot_key_wrap r.2 Hm).
Qed.

(** X19. The text [_fmt_intervals] gives for the intervals derived from a
    slot map depends on the slot map only, not on the date: the no-outage
    text when no slot is off, otherwise one line for each run of off slots,
    with the key of the run's first slot and the key of the slot after its
    last one, which is "00:00" for a run that lasts to the end of the
    day. *)
Theorem fmt_intervals_of_derived (date_str : string) (slots : gmap string Z)
    (ivs : list Interval) :
  slots_to_off_intervals date_str slots = Ok ivs ->
  fmt_intervals ivs =
  match day_runs slots with
  | [] => "✅ Відключень не заплановано"%string
  | _ :: _ => join LF (map run_line (day_runs slots))
  end.
Proof.
  intros H. apply slots_to_off_intervals_spec in H as (d & Hd & _ & ->).
  destruct (date_to_dt_midnight _ _ Hd) as (ord & -> & _).
  assert (map interval_line (map (run_interval (ord * US_PER_DAY)) (day_runs slots)) =
          map run_line (day_runs slots)) as Hlines.
  { rewrite map_map. apply map_ext_in. intros [j m] Hin. apply interval_line_run.
    apply list_elem_of_In, day_runs_bounds in Hin as [_ Hm]. done. }
  unfold fmt_intervals. rewrite <- Hlines.
  destruct (day_runs slots) as [|r runs]; reflexivity.
Qed.

Lemma fmt_intervals_of_derived_witness :
  let ivs := [{| start := at_time feb11 23 30 0 0; end_ := feb11 + ONE_DAY |}] in
  slots_to_off_intervals "2026-02-11" last_slot_off = Ok ivs /\
  day_runs last_slot_off = [(47%nat, 48%nat)] /\
  fmt_intervals ivs = "🔌 23:30–00:00"%string.
Proof.
  cbv zeta.
  assert (slots_to_off_intervals "2026-02-11" last_slot_off =
          Ok [{| start := at_time feb11 23 30 0 0; end_ := feb11 + ONE_DAY |}]) as H
    by (vm_compute; reflexivity).
  assert (day_runs last_slot_off = [(47%nat, 48%nat)]) as Hruns by (vm_compute; reflexivity).
  split; [exact H|]. split; [exact Hruns|].
  rewrite (fmt_intervals_of_derived _ _ _ H), Hruns. reflexivity.
Defined.

(** ** The next outage in terms of slots *)

(** The runs of a day start at the slots that open an outage. *)
Lemma day_runs_start_iff (slots : gmap string Z) (k : nat) :
  (exists m, (k, m) ∈ day_runs slots) <-> (k < 48)%nat /\ run_start slots k.
Proof.
  unfold run_start. split.
  - intros (m & Hin). apply day_runs_iff in Hin as (Hkm & Hm & Hall & Hstart & _).
    split; [lia|]. split; [apply Hall; lia|done].
  - intros (Hk & Hoff & Hprev).
    destruct (day_runs_cover slots k Hk Hoff) as (j & m & Hin & Hjm).
    exists m. destruct (decide (j = k)) as [->|Hne]; [done|]. exfalso.
    apply day_runs_iff in Hin as (_ & _ & Hall & _).
    destruct Hprev as [->|Hprev]; [lia|]. apply Hprev, Hall. lia.
Qed.

Lemma run_start_of_interval (d : datetime) (slots : gmap string Z) (it : Interval) :
  it ∈ map (run_interval d) (day_runs slots) ->
  exists j, (j < 48)%nat /\ run_start slots j /\ start it = boundary d j.
Proof.
  intros Hit. apply elem_of_run_intervals in Hit as ([j m] & Hin & ->).
  exists j. destruct (proj1 (day_runs_start_iff slots j)) as [Hj Hs]; [by exists m|]. done.
Qed.

Lemma interval_of_run_start (d : datetime) (slots : gmap string Z) (k : nat) :
  (k < 48)%nat -> run_start slots k ->
  exists it, it ∈ map (run_interval d) (day_runs slots) /\ start it = boundary d k.
Proof.
  intros Hk Hs. destruct (proj2 (day_runs_start_iff slots k)) as [m Hin]; [done|].
  exists (run_interval d (k, m)). split; [|done]. apply elem_of_run_intervals. by exists (k, m).
Qed.

(** X21. The next outage in terms of the slot maps, for [now] in slot [k0]
    of today and tomorrow's date one day later.  It starts at the first
    slot after [k0] that opens an outage today (off, after a slot that is
    not off): with the power on now, the first off slot after [k0].  When no
    slot after [k0] opens an outage today, it starts at tomorrow's first off
    slot, and there is none when tomorrow has no off slot. *)
Theorem next_outage_in_slot_terms (date_today date_tomorrow : string)
    (slots_today slots_tomorrow : gmap string Z) (today_off tomorrow_off : list Interval)
    (d now : datetime) (k0 : nat) :
  date_to_dt date_today = Ok d ->
  date_to_dt date_tomorrow = Ok (d + ONE_DAY) ->
  slots_to_off_intervals date_today slots_today = Ok today_off ->
  slots_to_off_intervals date_tomorrow slots_tomorrow = Ok tomorrow_off ->
  (k0 < 48)%nat ->
  boundary d k0 <= now < boundary d (S k0) ->
  let next := find_next_outage now today_off tomorrow_off in
  (forall k, (k0 < k < 48)%nat -> run_start slots_today k ->
     (forall x, (k0 < x < k)%nat -> ~ run_start slots_today x) ->
     next = Some (boundary d k)) /\
  (~ off_slot slots_today k0 ->
   forall k, (k0 < k < 48)%nat -> off_slot slots_today k ->
     (forall x, (k0 < x < k)%nat -> ~ off_slot slots_today x) ->
     next = Some (boundary d k)) /\
  ((forall x, (k0 < x < 48)%nat -> ~ run_start slots_today x) ->
   (forall k, (k < 48)%nat -> off_slot slots_tomorrow k ->
      (forall x, (x < k)%nat -> ~ off_slot slots_tomorrow x) ->
      next = Some (boundary (d + ONE_DAY) k)) /\
   ((forall x, (x < 48)%nat -> ~ off_slot slots_tomorrow x) -> next = None)).
Proof.
  intros Hd Hd1 Htoday Htomorrow Hk0 Hnow. cbv zeta.
  apply slots_to_off_intervals_spec in Htoday as (d' & Hd' & _ & ->).
  assert (d' = d) as -> by congruence. clear Hd'.
  apply slots_to_off_intervals_spec in Htomorrow as (d2 & Hd2 & _ & ->).
  assert (d2 = d + ONE_DAY) as -> by congruence. clear Hd2.
  assert (forall j, now < boundary d j -> (k0 < j)%nat) as Hafter.
  { intros j Hj. revert Hnow Hj. unfold_units. lia. }
  assert (forall j, (k0 < j)%nat -> now < boundary d j) as Hlater.
  { intros j Hj. revert Hnow. unfold_units. lia. }
  assert (forall j k, (k < 48)%nat -> boundary d k < boundary (d + ONE_DAY) j) as Hnextday.
  { intros j k Hk. unfold_units. lia. }
  assert (forall k, (k0 < k < 48)%nat -> run_start slots_today k ->
            (forall x, (k0 < x < k)%nat -> ~ run_start slots_today x) ->
            find_next_outage now (map (run_interval d) (day_runs slots_today))
              (map (run_interval (d + ONE_DAY)) (day_runs slots_tomorrow)) =
            Some (boundary d k)) as Hfirst.
  { intros k Hk Hs Hnone. apply find_next_outage_least.
    - destruct (interval_of_run_start d slots_today k) as (it & Hit & Hst); [lia|done|].
      exists it. split; [|done]. apply elem_of_app. by left.
    - apply Hlater. lia.
    - intros it Hit Hfut. apply elem_of_app in Hit as [Hit|Hit].
      + apply run_start_of_interval in Hit as (j & Hj & Hsj & Hst). rewrite Hst in Hfut |- *.
        apply Hafter in Hfut. destruct (decide (k <= j)%nat) as [Hle|Hgt].
        * unfold_units. lia.
        * destruct (Hnone j); [lia|done].
      + apply run_start_of_interval in Hit as (j & Hj & Hsj & Hst). rewrite Hst.
        specialize (Hnextday j k). lia. }
  split; [exact Hfirst|]. split.
  - intros Hon k Hk Hoff Hnone. apply Hfirst; [done| |].
    + split; [done|]. right. destruct (decide (k - 1 = k0)%nat) as [->|Hne]; [done|].
      apply Hnone. lia.
    + intros x Hx [Hoffx _]. by apply (Hnone x).
  - intros Hnone. split.
    + intros k Hk Hoff Hfirst'. apply find_next_outage_least.
      * destruct (interval_of_run_start (d + ONE_DAY) slots_tomorrow k) as (it & Hit & Hst);
          [done| |].
        { split; [done|]. destruct (decide (k = 0%nat)) as [->|Hne]; [by left|].
          right. apply Hfirst'. lia. }
        exists it. split; [|done]. apply elem_of_app. by right.
      * revert Hnow Hk0. unfold_units. lia.
      * intros it Hit Hfut. apply elem_of_app in Hit as [Hit|Hit].
        -- apply run_start_of_interval in Hit as (j & Hj & Hsj & Hst). rewrite Hst in Hfut.
           apply Hafter in Hfut. destruct (Hnone j); [lia|done].
        -- apply run_start_of_interval in Hit as (j & Hj & [Hoffj _] & Hst). rewrite Hst.
           destruct (decide (k <= j)%nat) as [Hle|Hgt]; [unfold_units; lia|].
           destruct (Hfirst' j); [lia|done].
    + intros Hnone'. apply find_next_outage_None. intros it Hit.
      apply elem_of_app in Hit as [Hit|Hit].
      * apply run_start_of_interval in Hit as (j & Hj & Hsj & Hst). rewrite Hst.
        destruct (decide (now < boundary d j)) as [Hfut|Hpast]; [|lia].
        apply Hafter in Hfut. destruct (Hnone j); [lia|done].
      * apply run_start_of_interval in Hit as (j & Hj & [Hoffj _] & Hst).
        by destruct (Hnone' j).
Qed.

Lemma next_outage_in_slot_terms_witness :
  let today_off := [{| start := at_time feb11 10 0 0 0; end_ := at_time feb11 11 0 0 0 |}] in
  date_to_dt "2026-02-11" = Ok feb11 /\
  date_to_dt "2026-02-12" = Ok (feb11 + ONE_DAY) /\
  slots_to_off_intervals "2026-02-11" example_merge_slots = Ok today_off /\
  slots_to_off_intervals "2026-02-12" ∅ = Ok [] /\
  boundary feb11 18 <= at_time feb11 9 10 0 0 < boundary feb11 19 /\
  find_next_outage (at_time feb11 9 10 0 0) today_off [] = Some (boundary feb11 20).
Proof.
  cbv zeta.
  assert (slots_to_off_intervals "2026-02-11" example_merge_slots =
          Ok [{| start := at_time feb11 10 0 0 0; end_ := at_time feb11 11 0 0 0 |}]) as H1
    by (vm_compute; reflexivity).
  assert (slots_to_off_intervals "2026-02-12" ∅ = Ok []) as H2 by (vm_compute; reflexivity).
  assert (18 < 48)%nat as H3 by lia.
  assert (boundary feb11 18 <= at_time feb11 9 10 0 0 < boundary feb11 19) as H4
    by (vm_compute; split; [discriminate|reflexivity]).
  assert (~ off_slot example_merge_slots 18) as H5 by (vm_compute; discriminate).
  assert (18 < 20 < 48)%nat as H6 by lia.
  assert (off_slot example_merge_slots 20) as H7 by (vm_compute; reflexivity).
  assert (forall x, (18 < x < 20)%nat -> ~ off_slot example_merge_slots x) as H8.
  { intros x Hx. assert (x = 19%nat) as -> by lia. vm_compute. discriminate. }
  split; [exact date_to_dt_feb11|]. split; [exact date_to_dt_feb12|].
  split; [exact H1|]. split; [exact H2|]. split; [exact H4|].
  exact (proj1 (proj2 (next_outage_in_slot_terms "2026-02-11" "2026-02-12" example_merge_slots ∅
                         _ _ feb11 (at_time feb11 9 10 0 0) 18
                         date_to_dt_feb11 date_to_dt_feb12 H1 H2 H3 H4)) H5 20%nat H6 H7 H8).
Defined.

(** ** Keyboards and callback data *)

(** The loop fills rows of two: it appends the buttons of the groups in
    order, keeps every finished row at two buttons and the row being
    filled below two. *)
Lemma groups_loop_spec (current_group : option string) (groups : list string) :
  forall (rows : keyboard) (row : list Button.t),
    Forall (fun r => length r = 2%nat) rows -> (length row < 2)%nat ->
    let filled := groups_loop current_group groups rows row in
    concat filled.1 ++ filled.2 =
      concat rows ++ row ++ map (group_button current_group) groups /\
    Forall (fun r => length r = 2%nat) filled.1 /\ (length filled.2 < 2)%nat.
Proof.
  induction groups as [|g groups IH]; intros rows row Hrows Hrow; cbv zeta.
  - cbn [groups_loop fst snd map]. by rewrite app_nil_r.
  - cbn [groups_loop map]. fold (group_button current_group g).
    case_bool_decide as Hlen.
    + destruct (IH (rows ++ [row ++ [group_button current_group g]]) []) as (Hc & Hr & Hl).
      { apply Forall_app. split; [done|]. by constructor. }
      { simpl. lia. }
      cbv zeta in Hc, Hr, Hl. split; [|done].
      rewrite Hc, concat_app. cbn [concat]. by rewrite app_nil_r, <- !app_assoc.
    + destruct (IH rows (row ++ [group_button current_group g])) as (Hc & Hr & Hl); [done| |].
      { rewrite length_app in Hlen |- *. simpl in *. lia. }
      cbv zeta in Hc, Hr, Hl. split; [|done]. by rewrite Hc, <- !app_assoc.
Qed.

Lemma str_length_app (a b : string) :
  String.length (a +:+ b) = (String.length a + String.length b)%nat.
Proof.
  induction a as [|x a IH]; [done|]. rewrite str_app_cons. cbn [String.length]. by rewrite IH.
Qed.

Lemma list_sum_rows (rows : keyboard) :
  Forall (fun r => length r = 2%nat) rows ->
  list_sum (map (@length Button.t) rows) = (2 * length rows)%nat.
Proof.
  induction 1 as [|r rows Hr2 _ IH]; [done|].
  cbn [map]. change (list_sum (length r :: map (@length Button.t) rows))
    with (length r + list_sum (map (@length Button.t) rows))%nat.
  rewrite IH, Hr2. cbn [length]. lia.
Qed.

(** The rows of the loop over the twelve groups: six, with nothing left in
    the row being filled. *)
Lemma groups_loop_valid (current_group : option string) :
  exists rows,
    groups_loop current_group VALID_GROUPS [] [] = (rows, []) /\
    concat rows = map (group_button current_group) VALID_GROUPS /\
    Forall (fun r => length r = 2%nat) rows /\ length rows = 6%nat.
Proof.
  destruct (groups_loop_spec current_group VALID_GROUPS [] []) as (Hc & Hr & Hl);
    [constructor|simpl; lia|]. cbv zeta in Hc, Hr, Hl.
  destruct (groups_loop current_group VALID_GROUPS [] []) as [rows row]. cbn [fst snd] in *.
  cbn [concat app] in Hc. pose proof (list_sum_rows rows Hr) as Hsum.
  assert (length (concat rows ++ row) = 12%nat) as Hlen.
  { rewrite Hc, List.length_map. reflexivity. }
  rewrite length_app, length_concat, Hsum in Hlen.
  assert (row = []) as -> by (destruct row as [|b row]; [done|]; simpl in *; lia).
  exists rows. rewrite app_nil_r in Hc. simpl in Hlen. repeat split; [done|done|lia].
Qed.

Lemma build_groups_keyboard_buttons (current_group : option string) :
  buttons (build_groups_keyboard current_group) =
  map (group_button current_group) VALID_GROUPS ++ [back_button].
Proof.
  unfold build_groups_keyboard. cbv zeta.
  destruct (groups_loop_valid current_group) as (rows & -> & Hc & _). cbn [fst snd].
  fold back_button. unfold buttons. rewrite concat_app, Hc. cbn [concat]. by rewrite app_nil_r.
Qed.

(** X22. The group picker lists the groups in order, two to a row, and
    ends with a row that holds the Back button alone; the button of a group
    carries ["group:"] and the group as callback data, and only the button
    of the chat's current group is marked. *)
Theorem build_groups_keyboard_layout (current_group : option string) :
  let kb := build_groups_keyboard current_group in
  buttons kb = map (group_button current_group) VALID_GROUPS ++ [back_button] /\
  length kb = 7%nat /\
  (forall i row, kb !! i = Some row -> (i < 6)%nat -> length row = 2%nat) /\
  kb !! 6%nat = Some [back_button] /\
  (forall g, g ∈ VALID_GROUPS ->
     Button.callback_data (group_button current_group g) = ("group:" +:+ g)%string /\
     (Button.text (group_button current_group g) = ("✅ " +:+ g)%string <->
      current_group = Some g)).
Proof.
  cbv zeta. split; [apply build_groups_keyboard_buttons|].
  unfold build_groups_keyboard. cbv zeta.
  destruct (groups_loop_valid current_group) as (rows & -> & Hc & Hr & Hrows). cbn [fst snd].
  fold back_button. split; [|split; [|split]].
  - rewrite length_app, Hrows. done.
  - intros i r Hi Hlt. unfold keyboard in *. rewrite lookup_app_l in Hi by lia.
    rewrite Forall_forall in Hr. apply Hr. by eapply list_elem_of_lookup_2.
  - unfold keyboard in *. rewrite lookup_app_r by lia. by rewrite Hrows.
  - intros g _. split; [done|]. unfold group_button. cbn [Button.text].
    case_bool_decide as Hg; split; try done.
    intros Heq. exfalso. apply (f_equal String.length) in Heq.
    rewrite str_length_app in Heq. revert Heq.
    change (String.length "✅ ") with 4%nat. lia.
Qed.

Lemma group_data_selects :
  Forall (fun g => on_callback_branch (Some ("group:" +:+ g)%string) = SetGroupThenRender g)
    VALID_GROUPS.
Proof. unfold VALID_GROUPS. repeat constructor; vm_compute; reflexivity. Qed.

(** X23. Every button the two keyboards show is handled by [on_callback].
    The main keyboard is three rows of one button: Refresh, which renders
    the card; the notification button, labelled with the current setting,
    which toggles it and renders; and the group-picker button, which shows
    the groups.  In the group picker Back renders the card and the button
    of a group selects that very group, whatever the chat's current group
    is. *)
Theorem every_button_is_handled (group_name : string) (notify_enabled : bool)
    (current_group : option string) (b : Button.t) :
  (exists refresh notify pick,
     build_keyboard group_name notify_enabled = [[refresh]; [notify]; [pick]] /\
     (Button.text refresh = "🔄 Оновити"%string /\
      on_callback_branch (Some (Button.callback_data refresh)) = RenderCard) /\
     (Button.text notify = (if notify_enabled then "🔔 Сповіщення: ВКЛ"
                            else "🔕 Сповіщення: ВИКЛ")%string /\
      on_callback_branch (Some (Button.callback_data notify)) = ToggleNotifyThenRender) /\
     (Button.text pick = "🧩 Обрати групу"%string /\
      on_callback_branch (Some (Button.callback_data pick)) = ShowGroups) /\
     (b ∈ buttons (build_keyboard group_name notify_enabled) ->
      b = refresh \/ b = notify \/ b = pick)) /\
  (b ∈ buttons (build_groups_keyboard current_group) ->
   b = back_button /\ on_callback_branch (Some (Button.callback_data b)) = RenderCard \/
   exists g, g ∈ VALID_GROUPS /\ b = group_button current_group g /\
             on_callback_branch (Some (Button.callback_data b)) = SetGroupThenRender g).
Proof.
  split.
  - unfold build_keyboard. cbv zeta. do 3 eexists. split; [reflexivity|].
    cbn [Button.text Button.callback_data].
    split; [split; [reflexivity|vm_compute; reflexivity]|].
    split; [split; [reflexivity|vm_compute; reflexivity]|].
    split; [split; [reflexivity|vm_compute; reflexivity]|].
    unfold buttons. cbn [concat app]. intros Hb.
    repeat (apply elem_of_cons in Hb as [->|Hb]; [tauto|]).
    by apply elem_of_nil in Hb.
  - rewrite build_groups_keyboard_buttons.
    intros Hb. apply elem_of_app in Hb as [Hb|Hb].
    + right. apply list_elem_of_In, in_map_iff in Hb as (g & <- & Hg).
      apply list_elem_of_In in Hg. exists g. split; [done|]. split; [done|].
      pose proof group_data_selects as Hall. rewrite Forall_forall in Hall.
      by apply Hall.
    + left. apply list_elem_of_singleton in Hb as ->. split; [done|]. vm_compute. reflexivity.
Qed.

(** Callback data as [on_callback] reads them: white space around the
    group is dropped, an unknown group is refused, data that no test
    matches select no branch. *)
Lemma on_callback_branch_samples :
  on_callback_branch (Some "group: 3.2 "%string) = SetGroupThenRender "3.2" /\
  on_callback_branch (Some "group:3.2 "%string) = SetGroupThenRender "3.2" /\
  on_callback_branch (Some "group:7.1"%string) = ReplyInvalidGroup /\
  on_callback_branch (Some "group:"%string) = ReplyInvalidGroup /\
  on_callback_branch (Some "groups"%string) = NoBranch /\
  on_callback_branch None = NoBranch.
Proof. repeat split; vm_compute; reflexivity. Qed.

(** ** The fingerprint against the schedule *)

Lemma schedule_text_dates (date_today : string) (slots_today : gmap string Z)
    (date_tomorrow : string) (slots_tomorrow : gmap string Z) (t : string) :
  schedule_text date_today slots_today date_tomorrow slots_tomorrow = Ok t ->
  exists d1 d2,
    date_to_dt date_today = Ok d1 /\ dt_in_range (d1 + ONE_DAY) = true /\
    date_to_dt date_tomorrow = Ok d2 /\ dt_in_range (d2 + ONE_DAY) = true.
Proof.
  unfold schedule_text. intros H. inv_bind H. inv_bind H.
  apply slots_normalized_spec in Ha as (d1 & Hd1 & Hr1 & _).
  apply slots_normalized_spec in Ha0 as (d2 & Hd2 & Hr2 & _).
  by exists d1, d2.
Qed.

(** X24. What is shown is a function of what is hashed.  Two schedules
    for the same dates with the same hashed text have the same outage
    intervals on both days and the same power flag at every instant, hence
    the same next outage: a change in any of these changes the hashed
    text. *)
Theorem same_text_same_schedule (date_today date_tomorrow : string)
    (a a' b b' : gmap string Z) (t : string) :
  schedule_text date_today a date_tomorrow b = Ok t ->
  schedule_text date_today a' date_tomorrow b' = Ok t ->
  slots_to_off_intervals date_today a = slots_to_off_intervals date_today a' /\
  slots_to_off_intervals date_tomorrow b = slots_to_off_intervals date_tomorrow b' /\
  (forall now, is_now_has_power now date_today a = is_now_has_power now date_today a') /\
  (forall now today_off tomorrow_off today_off' tomorrow_off',
     slots_to_off_intervals date_today a = Ok today_off ->
     slots_to_off_intervals date_tomorrow b = Ok tomorrow_off ->
     slots_to_off_intervals date_today a' = Ok today_off' ->
     slots_to_off_intervals date_tomorrow b' = Ok tomorrow_off' ->
     find_next_outage now today_off tomorrow_off = find_next_outage now today_off' tomorrow_off').
Proof.
  intros Ht Ht'.
  destruct (proj1 (schedule_text_eq_iff _ _ _ _ _ _ _ _ Ht Ht') eq_refl) as [Ha Hb].
  destruct (schedule_text_dates _ _ _ _ _ Ht) as (d1 & d2 & Hd1 & Hr1 & Hd2 & Hr2).
  assert (slots_to_off_intervals date_today a = slots_to_off_intervals date_today a') as H1.
  { rewrite !slots_to_off_intervals_eval, (day_runs_ext a a'); [done|].
    intros key Hkey. by rewrite (Ha key Hkey). }
  assert (slots_to_off_intervals date_tomorrow b = slots_to_off_intervals date_tomorrow b') as H2.
  { rewrite !slots_to_off_intervals_eval, (day_runs_ext b b'); [done|].
    intros key Hkey. by rewrite (Hb key Hkey). }
  split; [exact H1|]. split; [exact H2|]. split.
  - intros now. rewrite !(is_now_has_power_eval now date_today _ d1 Hd1 Hr1).
    destruct (round_down_encloses now) as [_ [q Hq]]. cbv zeta in Hq.
    destruct (time_str_half_hour_multiple q) as (k & Hk & Hkey).
    rewrite Hq, Hkey, (Ha (slot_key k)) by (by apply slot_key_in_keys). done.
  - intros now t1 t2 t1' t2' E1 E2 E1' E2'.
    rewrite H1, E1' in E1. rewrite H2, E2' in E2. congruence.
Qed.

Lemma same_text_same_schedule_witness :
  let a : gmap string Z := {[ "10:00"%string := 2 ]} in
  let a' : gmap string Z := list_to_map [("10:00", 2); ("11:00", 1); ("24:00", 2)]%string in
  (exists t, schedule_text "2026-02-11" a "2026-02-12" ∅ = Ok t /\
             schedule_text "2026-02-11" a' "2026-02-12" ∅ = Ok t) /\
  slots_to_off_intervals "2026-02-11" a = slots_to_off_intervals "2026-02-11" a'.
Proof.
  cbv zeta.
  destruct (schedule_text "2026-02-11" {[ "10:00"%string := 2 ]} "2026-02-12" ∅)
    as [t|e] eqn:Ht; [|vm_compute in Ht; discriminate].
  assert (schedule_text "2026-02-11"
            (list_to_map [("10:00", 2); ("11:00", 1); ("24:00", 2)]%string) "2026-02-12" ∅ =
          Ok t) as Ht'.
  { rewrite <- Ht. vm_compute. reflexivity. }
  split; [exists t; split; [reflexivity|exact Ht']|].
  exact (proj1 (same_text_same_schedule _ _ _ _ _ _ _ Ht Ht')).
Defined.
